(** * RGB matrix editor (ui/src/rgbmatrixeditor.cpp)

    A shallow embedding of the editor's slots: the colour update, the preview
    items and their timer, the test button, the guarded mutations of the
    shared algorithm and the export of the matrix to a scene and a sequence.

    The editor is glue over collaborator classes (RGBMatrix, RGBMatrixStep,
    RGBAlgorithm, RGBItem, Doc, MasterTimer).  Their operations that the
    editor only calls are the fields of the class [Externals]; everything
    the editor does itself is a definition below, in the order of the
    source file. *)

From Stdlib Require Import ZArith List Bool Lia Ascii String Sorting.Sorted Permutation.
From stdpp Require Import base option list gmap.
Import ListNotations.
Open Scope Z_scope.

(** ** Machine integers *)

(** [uint] and [quint32] arithmetic wraps modulo 2^32. *)
Definition wrap32 (z : Z) : Z := z mod 2 ^ 32.

(** [uchar] conversion keeps the low eight bits. *)
Definition to_uchar (z : Z) : Z := z mod 256.

(** Modelled from the spec: the macro [MAX] of qlcmacros.h, which is not
    under src; the larger of its two arguments, [((x < y) ? y : x)]. *)
Definition MAX (x y : Z) : Z := if x <? y then y else x.

(** ** Colours (QColor, QRgb) *)

Record QColor := mkColor {
  isValid : bool;
  red : Z;
  green : Z;
  blue : Z
}.

(** [QColor(r, g, b)] *)
Definition QColor_rgb (r g b : Z) : QColor := mkColor true r g b.
(** [QColor()], the invalid colour *)
Definition QColor_invalid : QColor := mkColor false 0 0 0.
Definition Qt_white : QColor := QColor_rgb 255 255 255.
Definition Qt_black : QColor := QColor_rgb 0 0 0.

(** [QColor::rgb()]: the components packed under an opaque alpha byte. *)
Definition rgb (c : QColor) : Z :=
  Z.lor (Z.shiftl 255 24)
    (Z.lor (Z.shiftl (Z.land (red c) 255) 16)
       (Z.lor (Z.shiftl (Z.land (green c) 255) 8) (Z.land (blue c) 255))).

Definition qRed (v : Z) : Z := Z.land (Z.shiftr v 16) 255.
Definition qGreen (v : Z) : Z := Z.land (Z.shiftr v 8) 255.
Definition qBlue (v : Z) : Z := Z.land v 255.

(** [QColor(QRgb)]: the alpha byte is dropped. *)
Definition QColor_fromRgb (v : Z) : QColor :=
  QColor_rgb (qRed v) (qGreen v) (qBlue v).

(** [qGray(QRgb)] = (r * 11 + g * 16 + b * 5) / 32 *)
Definition qGray (v : Z) : Z := (qRed v * 11 + qGreen v * 16 + qBlue v * 5) / 32.

Definition QColor_eqb (a b : QColor) : bool :=
  Bool.eqb (isValid a) (isValid b) && (red a =? red b) && (green a =? green b)
  && (blue a =? blue b).

(** What a button icon's pixmap was filled with. *)
Inductive Fill :=
| FillColor (c : QColor)
| FillTransparent.

(** ** Strings (QString::arg)

    [fmt.arg(a)] replaces, in [fmt], every occurrence of the place marker
    with the lowest number by [a].  A marker is [%], an optional [L], and one
    or two decimal digits; a [%] that no digit follows is text.  The next
    [.arg()] of a chain reads the result again, the text just put in
    included. *)

(** [QChar::digitValue()] on a character of the Latin alphabet. *)
Definition digitValue (c : ascii) : option nat :=
  let n := nat_of_ascii c in
  if (48 <=? n)%nat && (n <=? 57)%nat then Some (n - 48)%nat else None.

(** A piece of a format: a character, or a marker with its number and the
    text it is written with. *)
Inductive Piece :=
| Lit (c : ascii)
| Marker (n : nat) (text : string).

(** The scan of a format for its markers. *)
Fixpoint pieces (s : string) : list Piece :=
  match s with
  | EmptyString => []
  | String c s1 =>
      if Ascii.eqb c "%" then
        match s1 with
        | EmptyString => [Lit c]
        | String c1 s2 =>
            if Ascii.eqb c1 "L" then
              match s2 with
              | EmptyString => [Lit c; Lit c1]
              | String c2 s3 =>
                  match digitValue c2 with
                  | None => Lit c :: Lit c1 :: pieces s2
                  | Some d =>
                      match s3 with
                      | EmptyString =>
                          [Marker d (String c (String c1 (String c2 EmptyString)))]
                      | String c3 s4 =>
                          match digitValue c3 with
                          | Some d' =>
                              Marker (10 * d + d')
                                (String c (String c1 (String c2 (String c3 EmptyString))))
                              :: pieces s4
                          | None =>
                              Marker d (String c (String c1 (String c2 EmptyString)))
                              :: pieces s3
                          end
                      end
                  end
              end
            else
              match digitValue c1 with
              | None => Lit c :: pieces s1
              | Some d =>
                  match s2 with
                  | EmptyString => [Marker d (String c (String c1 EmptyString))]
                  | String c2 s3 =>
                      match digitValue c2 with
                      | Some d' =>
                          Marker (10 * d + d')
                            (String c (String c1 (String c2 EmptyString)))
                          :: pieces s3
                      | None =>
                          Marker d (String c (String c1 EmptyString)) :: pieces s2
                      end
                  end
              end
        end
      else Lit c :: pieces s1
  end.

(** The lowest number among the markers, if there is a marker. *)
Fixpoint lowestMarker (ps : list Piece) : option nat :=
  match ps with
  | [] => None
  | Lit _ :: ps' => lowestMarker ps'
  | Marker n _ :: ps' =>
      Some (match lowestMarker ps' with
            | Some k => Nat.min n k
            | None => n
            end)
  end.

(** The format written out again, [a] in the place of the markers numbered
    [k]. *)
Fixpoint replaceMarker (k : nat) (a : string) (ps : list Piece) : string :=
  match ps with
  | [] => EmptyString
  | Lit c :: ps' => String c (replaceMarker k a ps')
  | Marker n text :: ps' =>
      String.append (if (n =? k)%nat then a else text) (replaceMarker k a ps')
  end.

(** [fmt.arg(a)]; a format without a marker is returned as it is. *)
Definition QString_arg (a : string) (fmt : string) : string :=
  match lowestMarker (pieces fmt) with
  | None => fmt
  | Some k => replaceMarker k a (pieces fmt)
  end.


(** ** Enumerations of Function, Universe and Chaser *)

Inductive RunOrder := Loop | PingPong | SingleShot.
Inductive Direction := Forward | Backward.
Inductive BlendMode := NormalBlend | MaskBlend | AdditiveBlend | SubtractiveBlend.
Inductive SpeedMode := Default | Common | PerStep.
Inductive DocMode := Design | Operate.

Definition RunOrder_eqb (a b : RunOrder) : bool :=
  match a, b with
  | Loop, Loop | PingPong, PingPong | SingleShot, SingleShot => true
  | _, _ => false
  end.

Definition Direction_eqb (a b : Direction) : bool :=
  match a, b with
  | Forward, Forward | Backward, Backward => true
  | _, _ => false
  end.

Definition BlendMode_eqb (a b : BlendMode) : bool :=
  match a, b with
  | NormalBlend, NormalBlend | MaskBlend, MaskBlend
  | AdditiveBlend, AdditiveBlend | SubtractiveBlend, SubtractiveBlend => true
  | _, _ => false
  end.

(** ** Algorithms (RGBAlgorithm and the two subclasses the editor mutates) *)

Record RGBText := mkText {
  text_text : string;
  text_font : string;
  text_animationStyle : string;
  text_xOffset : Z;
  text_yOffset : Z
}.

Record RGBImage := mkImage {
  image_filename : string;
  image_animationStyle : string;
  image_xOffset : Z;
  image_yOffset : Z
}.

(** [RGBAlgorithm::type()] is the constructor. *)
Inductive RGBAlgorithm :=
| Script (name : string)
| Plain
| Audio
| Text (t : RGBText)
| Image (i : RGBImage).

(** ** The matrix being edited (RGBMatrix, a Function) *)

Record RGBMatrix := mkMatrix {
  name : string;
  runOrder : RunOrder;
  direction : Direction;
  blendMode : BlendMode;
  controlMode : Z;
  startColor : QColor;
  endColor : QColor;
  fixtureGroup : Z;
  algorithm : option RGBAlgorithm;
  duration : Z;
  fadeInSpeed : Z;
  fadeOutSpeed : Z;
  running : bool
}.

(** Modelled from the spec: the "model getters/setters" of RGBMatrix are not
    under src; [setStartColor] stores the colour [startColor()] returns. *)
Definition setStartColor (c : QColor) (m : RGBMatrix) : RGBMatrix :=
  mkMatrix (name m) (runOrder m) (direction m) (blendMode m) (controlMode m)
    c (endColor m) (fixtureGroup m) (algorithm m) (duration m)
    (fadeInSpeed m) (fadeOutSpeed m) (running m).

(** Modelled from the spec: [RGBMatrix::setEndColor], not under src, stores
    the colour [endColor()] returns. *)
Definition setEndColor (c : QColor) (m : RGBMatrix) : RGBMatrix :=
  mkMatrix (name m) (runOrder m) (direction m) (blendMode m) (controlMode m)
    (startColor m) c (fixtureGroup m) (algorithm m) (duration m)
    (fadeInSpeed m) (fadeOutSpeed m) (running m).

(** Modelled from the spec: the algorithm is "a shared algorithm object";
    the matrix holds a pointer to it, so a setter called on the object
    changes what [algorithm()] returns. *)
Definition storeAlgorithm (a : RGBAlgorithm) (m : RGBMatrix) : RGBMatrix :=
  mkMatrix (name m) (runOrder m) (direction m) (blendMode m) (controlMode m)
    (startColor m) (endColor m) (fixtureGroup m) (Some a) (duration m)
    (fadeInSpeed m) (fadeOutSpeed m) (running m).

Definition setRunning (b : bool) (m : RGBMatrix) : RGBMatrix :=
  mkMatrix (name m) (runOrder m) (direction m) (blendMode m) (controlMode m)
    (startColor m) (endColor m) (fixtureGroup m) (algorithm m) (duration m)
    (fadeInSpeed m) (fadeOutSpeed m) b.

(** Modelled from the spec: [Function::start], not under src ("start
    test"): the matrix runs afterwards. *)
Definition start (m : RGBMatrix) : RGBMatrix := setRunning true m.
(** Modelled from the spec: [Function::stopAndWait], not under src ("stop
    test"): the matrix does not run afterwards. *)
Definition stopAndWait (m : RGBMatrix) : RGBMatrix := setRunning false m.

(** ** Fixtures, fixture groups, scenes, sequences and the document *)

(** A point of the group's grid (QLCPoint). *)
Abbreviation QLCPoint := (Z * Z)%type.

Record GroupHead := mkHead {
  head_fxi : Z;
  head_head : Z
}.

(** The two channel queries the export makes on a fixture:
    [rgbChannels(head)] and
    [channelNumber(QLCChannel::Intensity, QLCChannel::MSB, head)]. *)
Record Fixture := mkFixture {
  rgbChannels : Z -> list Z;
  masterIntensityChannel : Z -> Z
}.

Record FixtureGroup := mkGroup {
  group_id : Z;
  group_name : string;
  group_width : Z;
  group_height : Z;
  headsMap : gmap QLCPoint GroupHead
}.

(** Modelled from the spec: [FixtureGroup::headList()], not under src; a
    group is an "arrangement of lighting fixture heads", and the list is the
    heads of the map without their points. *)
Definition headList (grp : FixtureGroup) : list GroupHead :=
  (map_to_list (headsMap grp)).*2.

Record SceneValue := mkValue {
  sv_fxi : Z;
  sv_channel : Z;
  sv_value : Z
}.

Record Scene := mkScene {
  scene_id : Z;
  scene_name : string;
  scene_visible : bool;
  scene_values : gmap (Z * Z) Z
}.

(** Modelled from the spec: [Scene::setValue(fxi, channel, value)], not
    under src; the scene keeps one value for a channel of a fixture. *)
Definition scene_setValue (fxi ch v : Z) (s : Scene) : Scene :=
  mkScene (scene_id s) (scene_name s) (scene_visible s)
    (<[(fxi, ch) := v]> (scene_values s)).

Record ChaserStep := mkStep {
  fid : Z;
  fadeIn : Z;
  hold : Z;
  fadeOut : Z;
  step_duration : Z;
  values : list SceneValue
}.

Record Sequence := mkSequence {
  seq_id : Z;
  seq_name : string;
  boundSceneID : Z;
  durationMode : SpeedMode;
  seq_duration : Z;
  fadeInMode : SpeedMode;
  seq_fadeInSpeed : Z;
  fadeOutMode : SpeedMode;
  seq_fadeOutSpeed : Z;
  steps : list ChaserStep
}.

(** Modelled from the spec: [Chaser::addStep(step)], not under src; a
    sequence is "a list of discrete steps ... played back in order", and the
    step goes last. *)
Definition addStep (s : ChaserStep) (q : Sequence) : Sequence :=
  mkSequence (seq_id q) (seq_name q) (boundSceneID q) (durationMode q)
    (seq_duration q) (fadeInMode q) (seq_fadeInSpeed q) (fadeOutMode q)
    (seq_fadeOutSpeed q) (steps q ++ [s]).

Inductive Function :=
| FScene (s : Scene)
| FSequence (q : Sequence).

(** Modelled from the spec: [Function::setID], not under src, which the
    document calls on a function it registers. *)
Definition Function_setID (i : Z) (f : Function) : Function :=
  match f with
  | FScene s => FScene (mkScene i (scene_name s) (scene_visible s) (scene_values s))
  | FSequence q =>
      FSequence (mkSequence i (seq_name q) (boundSceneID q) (durationMode q)
                   (seq_duration q) (fadeInMode q) (seq_fadeInSpeed q)
                   (fadeOutMode q) (seq_fadeOutSpeed q) (steps q))
  end.

Record Doc := mkDoc {
  fixtureGroups : gmap Z FixtureGroup;
  fixtures : gmap Z Fixture;
  functions : list Function;
  latestFunctionId : Z
}.

(** Modelled from the spec: [Doc::addFunction] is not in this file; the spec
    says the editor calls into the document layer "to register newly created
    scene and sequence objects".  The document gives the function the next
    free id and keeps the functions in the order they were registered.  The
    id it gave is returned with the new document. *)
Definition addFunction (f : Function) (d : Doc) : Z * Doc :=
  let i := latestFunctionId d in
  (i, mkDoc (fixtureGroups d) (fixtures d) (functions d ++ [Function_setID i f]) (i + 1)).

(** ** Graphics items of the preview scene *)

Inductive Shape :=
| Ellipse (x y w h : Z)
| Rect (x y w h : Z).

Inductive GraphicsItem :=
| GText (s : string) (c : QColor)
| GShape (s : Shape).

Definition RECT_SIZE : Z := 30.
Definition RECT_PADDING : Z := 0.
Definition ITEM_SIZE : Z := 28.
Definition ITEM_PADDING : Z := 2.

(** ** What the editor does that another thread or a reader of the log can
    see, in the order it happens *)

Inductive Event :=
| EvTimerStop
| EvTimerStart (ms : Z)
| EvTestClick
| EvMatrixStart
| EvMatrixStopAndWait
| EvLock
| EvUnlock
| EvSetAlgo (a : RGBAlgorithm)
| EvPreviewMap (step : Z).

(** ** The collaborators *)

(** The operations of RGBMatrixStep (the preview handler), RGBMatrix,
    RGBAlgorithm, RGBItem, MasterTimer and SceneValue that the editor calls
    and that are defined in other files, and the constants of their headers. *)
Class Externals := {
  (* RGBMatrixStep *)
  Handler : Type;
  initializeDirection : Direction -> QColor -> QColor -> Z -> Handler -> Handler;
  checkNextStep : RunOrder -> QColor -> QColor -> Z -> Handler -> Handler;
  calculateColorDelta : QColor -> QColor -> Handler -> Handler;
  setStepColor : QColor -> Handler -> Handler;
  updateStepColor : Z -> QColor -> Z -> Handler -> Handler;
  currentStepIndex : Handler -> Z;
  m_map : Handler -> list (list Z);
  (* RGBMatrix *)
  stepsCount : Doc -> RGBMatrix -> Z;
  previewMap : Doc -> RGBMatrix -> Z -> Handler -> Handler;
  ControlModeRgb : Z;
  (* RGBAlgorithm *)
  acceptColors : RGBAlgorithm -> Z;
  (* MasterTimer *)
  tick : Z;
  (* RGBItem *)
  RGBItem : Type;
  RGBItem_new : Shape -> RGBItem;
  graphicsItem : RGBItem -> Shape;
  item_setColor : Z -> RGBItem -> RGBItem;
  item_color : RGBItem -> Z;
  item_draw : Z -> Z -> RGBItem -> RGBItem;
  (* Function, FixtureGroup, Fixture, QLCChannel *)
  Function_invalidId : Z;
  FixtureGroup_invalidId : Z;
  Fixture_invalidId : Z;
  QLCChannel_invalid : Z;
  (* SceneValue::operator< *)
  SceneValue_lt : SceneValue -> SceneValue -> bool
}.

(** ** The editor *)

Section Editor.
Context `{X : Externals}.

(** The members of RGBMatrixEditor and the state of the widgets the slots
    below read or write.  The matrix itself is passed beside the editor: the
    editor holds a pointer to it, which only [slotSaveToSequenceClicked]
    tests against NULL.  [m_previewTimer] is [Some ms] while the timer runs
    with interval [ms]. *)
Record Editor := mkEditor {
  m_doc : Doc;
  m_previewHandler : Handler;
  m_scene : list GraphicsItem;
  m_previewTimer : option Z;
  m_previewIterator : Z;
  m_previewHash : gmap QLCPoint RGBItem;
  m_testButton_isChecked : bool;
  m_testButton_isEnabled : bool;
  m_shapeButton_isChecked : bool;
  m_colorModeCombo_currentIndex : Z;
  m_startColorButton_icon : Fill;
  m_endColorButton_icon : Fill;
  trace : list Event
}.

Definition set_doc (d : Doc) (e : Editor) : Editor :=
  mkEditor d (m_previewHandler e) (m_scene e) (m_previewTimer e)
    (m_previewIterator e) (m_previewHash e) (m_testButton_isChecked e)
    (m_testButton_isEnabled e) (m_shapeButton_isChecked e) (m_colorModeCombo_currentIndex e)
    (m_startColorButton_icon e) (m_endColorButton_icon e) (trace e).

Definition set_handler (h : Handler) (e : Editor) : Editor :=
  mkEditor (m_doc e) h (m_scene e) (m_previewTimer e)
    (m_previewIterator e) (m_previewHash e) (m_testButton_isChecked e)
    (m_testButton_isEnabled e) (m_shapeButton_isChecked e) (m_colorModeCombo_currentIndex e)
    (m_startColorButton_icon e) (m_endColorButton_icon e) (trace e).

Definition set_items (s : list GraphicsItem) (h : gmap QLCPoint RGBItem)
    (e : Editor) : Editor :=
  mkEditor (m_doc e) (m_previewHandler e) s (m_previewTimer e)
    (m_previewIterator e) h (m_testButton_isChecked e)
    (m_testButton_isEnabled e) (m_shapeButton_isChecked e) (m_colorModeCombo_currentIndex e)
    (m_startColorButton_icon e) (m_endColorButton_icon e) (trace e).

Definition set_timer (t : option Z) (e : Editor) : Editor :=
  mkEditor (m_doc e) (m_previewHandler e) (m_scene e) t
    (m_previewIterator e) (m_previewHash e) (m_testButton_isChecked e)
    (m_testButton_isEnabled e) (m_shapeButton_isChecked e) (m_colorModeCombo_currentIndex e)
    (m_startColorButton_icon e) (m_endColorButton_icon e) (trace e).

Definition set_iterator (i : Z) (e : Editor) : Editor :=
  mkEditor (m_doc e) (m_previewHandler e) (m_scene e) (m_previewTimer e)
    i (m_previewHash e) (m_testButton_isChecked e)
    (m_testButton_isEnabled e) (m_shapeButton_isChecked e) (m_colorModeCombo_currentIndex e)
    (m_startColorButton_icon e) (m_endColorButton_icon e) (trace e).

Definition set_checked (b : bool) (e : Editor) : Editor :=
  mkEditor (m_doc e) (m_previewHandler e) (m_scene e) (m_previewTimer e)
    (m_previewIterator e) (m_previewHash e) b
    (m_testButton_isEnabled e) (m_shapeButton_isChecked e) (m_colorModeCombo_currentIndex e)
    (m_startColorButton_icon e) (m_endColorButton_icon e) (trace e).

Definition set_enabled (b : bool) (e : Editor) : Editor :=
  mkEditor (m_doc e) (m_previewHandler e) (m_scene e) (m_previewTimer e)
    (m_previewIterator e) (m_previewHash e) (m_testButton_isChecked e)
    b (m_shapeButton_isChecked e) (m_colorModeCombo_currentIndex e)
    (m_startColorButton_icon e) (m_endColorButton_icon e) (trace e).

Definition set_comboIndex (i : Z) (e : Editor) : Editor :=
  mkEditor (m_doc e) (m_previewHandler e) (m_scene e) (m_previewTimer e)
    (m_previewIterator e) (m_previewHash e) (m_testButton_isChecked e)
    (m_testButton_isEnabled e) (m_shapeButton_isChecked e) i
    (m_startColorButton_icon e) (m_endColorButton_icon e) (trace e).

Definition set_startIcon (f : Fill) (e : Editor) : Editor :=
  mkEditor (m_doc e) (m_previewHandler e) (m_scene e) (m_previewTimer e)
    (m_previewIterator e) (m_previewHash e) (m_testButton_isChecked e)
    (m_testButton_isEnabled e) (m_shapeButton_isChecked e) (m_colorModeCombo_currentIndex e)
    f (m_endColorButton_icon e) (trace e).

Definition set_endIcon (f : Fill) (e : Editor) : Editor :=
  mkEditor (m_doc e) (m_previewHandler e) (m_scene e) (m_previewTimer e)
    (m_previewIterator e) (m_previewHash e) (m_testButton_isChecked e)
    (m_testButton_isEnabled e) (m_shapeButton_isChecked e) (m_colorModeCombo_currentIndex e)
    (m_startColorButton_icon e) f (trace e).

(** The event goes to the end of the log. *)
Definition emit (ev : Event) (e : Editor) : Editor :=
  mkEditor (m_doc e) (m_previewHandler e) (m_scene e) (m_previewTimer e)
    (m_previewIterator e) (m_previewHash e) (m_testButton_isChecked e)
    (m_testButton_isEnabled e) (m_shapeButton_isChecked e) (m_colorModeCombo_currentIndex e)
    (m_startColorButton_icon e) (m_endColorButton_icon e) (trace e ++ [ev]).

(** [m_previewTimer->stop()] and [m_previewTimer->start(ms)] *)
Definition timer_stop (e : Editor) : Editor := emit EvTimerStop (set_timer None e).
Definition timer_start (ms : Z) (e : Editor) : Editor :=
  emit (EvTimerStart ms) (set_timer (Some ms) e).

(** [m_matrix->previewMap(step, m_previewHandler)] *)
Definition callPreviewMap (m : RGBMatrix) (step : Z) (e : Editor) : Editor :=
  emit (EvPreviewMap step)
    (set_handler (previewMap (m_doc e) m step (m_previewHandler e)) e).

(** [m_previewHandler->m_map[y][x]]; the map the collaborator fills covers
    the grid, a cell outside of it reads as 0 here. *)
Definition mapAt (mp : list (list Z)) (x y : Z) : Z :=
  nth (Z.to_nat x) (nth (Z.to_nat y) mp []) 0.

(** A loop over a vector with its index, [for (int i = 0; i < v.size(); i++)]. *)
Fixpoint foldl_index {A B : Type} (f : Z -> A -> B -> A) (i : Z) (a : A)
    (l : list B) : A :=
  match l with
  | [] => a
  | b :: l' => foldl_index f (i + 1) (f i a b) l'
  end.

(** *** updateColors *)

Definition updateColors (m : RGBMatrix) (e : Editor) : RGBMatrix * Editor :=
  match algorithm m with
  | None => (m, e)
  | Some a =>
    let accColors := acceptColors a in
    if 0 <? accColors then
      if BlendMode_eqb (blendMode m) MaskBlend then
        let m1 := setStartColor Qt_white m in
        let m2 := setEndColor QColor_invalid m1 in
        let e1 := set_handler
                    (calculateColorDelta (startColor m2) (endColor m2)
                       (m_previewHandler e)) e in
        (m2, set_startIcon (FillColor Qt_white) e1)
      else if negb (m_colorModeCombo_currentIndex e =? ControlModeRgb) then
        (* Convert startColor to grayscale for single color modes *)
        let gray := to_uchar (qGray (rgb (startColor m))) in
        let e1 := set_startIcon (FillColor (QColor_rgb gray gray gray)) e in
        let m1 := setStartColor (QColor_rgb gray gray gray) m in
        let '(m2, e2) :=
          if 1 <? accColors then
            (* Convert endColor to grayscale for single color modes *)
            let gray := to_uchar (qGray (rgb (endColor m1))) in
            let m2 := setEndColor (QColor_rgb gray gray gray) m1 in
            let pm := if QColor_eqb (endColor m2) QColor_invalid
                      then FillTransparent
                      else FillColor (QColor_rgb gray gray gray) in
            (m2, set_endIcon pm e1)
          else (m1, e1) in
        (m2, set_handler
               (calculateColorDelta (startColor m2) (endColor m2)
                  (m_previewHandler e2)) e2)
      else
        let e1 := set_startIcon (FillColor (startColor m)) e in
        if 1 <? accColors then
          let e2 := set_handler
                      (calculateColorDelta (startColor m) (endColor m)
                         (m_previewHandler e1)) e1 in
          let pm := if QColor_eqb (endColor m) QColor_invalid
                    then FillTransparent
                    else FillColor (endColor m) in
          (m, set_endIcon pm e2)
        else (m, e1)
    else (m, e)
  end.

(** *** createPreviewItems *)

(** The item of the head at [(x, y)]: a circle, or a square when the shape
    button is down, coloured from the map and drawn once. *)
Definition newPreviewItem (square : bool) (x y col : Z) : RGBItem :=
  let shape :=
    if negb square
    then Ellipse (x * RECT_SIZE + RECT_PADDING + ITEM_PADDING)
                 (y * RECT_SIZE + RECT_PADDING + ITEM_PADDING)
                 (ITEM_SIZE - 2 * ITEM_PADDING) (ITEM_SIZE - 2 * ITEM_PADDING)
    else Rect (x * RECT_SIZE + RECT_PADDING + ITEM_PADDING)
              (y * RECT_SIZE + RECT_PADDING + ITEM_PADDING)
              (ITEM_SIZE - 2 * ITEM_PADDING) (ITEM_SIZE - 2 * ITEM_PADDING) in
  item_draw 0 0 (item_setColor col (RGBItem_new shape)).

Definition addPreviewItem (grp : FixtureGroup) (square : bool) (mp : list (list Z))
    (x : Z) (acc : list GraphicsItem * gmap QLCPoint RGBItem) (y : Z)
    : list GraphicsItem * gmap QLCPoint RGBItem :=
  match headsMap grp !! (x, y) with
  | Some _ =>
      let item := newPreviewItem square x y (mapAt mp x y) in
      (acc.1 ++ [GShape (graphicsItem item)], <[(x, y) := item]> acc.2)
  | None => acc
  end.

Definition createPreviewItems (m : RGBMatrix) (e : Editor) : bool * Editor :=
  let e0 := set_items [] ∅ e in
  match fixtureGroups (m_doc e0) !! fixtureGroup m with
  | None =>
      (false, set_items [GText "No fixture group to control" Qt_white] ∅ e0)
  | Some grp =>
      let e1 := set_handler
                  (initializeDirection (direction m) (startColor m) (endColor m)
                     (stepsCount (m_doc e0) m) (m_previewHandler e0)) e0 in
      let e2 := callPreviewMap m (currentStepIndex (m_previewHandler e1)) e1 in
      let mp := m_map (m_previewHandler e2) in
      match mp with
      | [] => (false, e2)
      | _ =>
          let '(sc, h) :=
            foldl (fun acc x =>
                     foldl (addPreviewItem grp (m_shapeButton_isChecked e2) mp x) acc
                       (seqZ 0 (group_height grp)))
              (m_scene e2, m_previewHash e2) (seqZ 0 (group_width grp)) in
          (true, set_items sc h e2)
      end
  end.

(** *** slotPreviewTimeout *)

(** One turn of the while loop's body up to the subtraction: the handler
    moves to its next step and the matrix renders that step. *)
Definition advancePreview (m : RGBMatrix) (e : Editor) : Editor :=
  let e1 := set_handler
              (checkNextStep (runOrder m) (startColor m) (endColor m)
                 (stepsCount (m_doc e) m) (m_previewHandler e)) e in
  callPreviewMap m (currentStepIndex (m_previewHandler e1)) e1.

(** The while loop, [fuel] bounding its turns; the result is the local
    [elapsed] and the editor. *)
Fixpoint previewLoop (fuel : nat) (m : RGBMatrix) (elapsed : Z) (e : Editor)
    : Z * Editor :=
  match fuel with
  | O => (elapsed, e)
  | S fuel' =>
      if MAX (duration m) tick <=? m_previewIterator e then
        let e1 := advancePreview m e in
        let e2 := set_iterator
                    (wrap32 (m_previewIterator e1 - MAX (duration m) tick)) e1 in
        previewLoop fuel' m (wrap32 (elapsed + MAX (duration m) tick)) e2
      else (elapsed, e)
  end.

(** What the two inner statements do to one shape. *)
Definition paintItem (m : RGBMatrix) (elapsed col : Z) (shape : RGBItem) : RGBItem :=
  let shape1 :=
    if negb (item_color shape =? rgb (QColor_fromRgb col))
    then item_setColor col shape else shape in
  if item_color shape1 =? rgb Qt_black
  then item_draw elapsed (fadeOutSpeed m) shape1
  else item_draw elapsed (fadeInSpeed m) shape1.

Definition paintCell (m : RGBMatrix) (elapsed : Z) (y x : Z)
    (h : gmap QLCPoint RGBItem) (col : Z) : gmap QLCPoint RGBItem :=
  match h !! (x, y) with
  | Some shape => <[(x, y) := paintItem m elapsed col shape]> h
  | None => h
  end.

Definition paintMap (m : RGBMatrix) (elapsed : Z) (mp : list (list Z))
    (h : gmap QLCPoint RGBItem) : gmap QLCPoint RGBItem :=
  foldl_index (fun y h row => foldl_index (paintCell m elapsed y) 0 h row) 0 h mp.

(** The loop's fuel is the iterator itself: each turn takes at least 1 off
    it, since it only runs when the duration is positive. *)
Definition slotPreviewTimeout (m : RGBMatrix) (e : Editor) : Editor :=
  if duration m <=? 0 then e
  else
    let e1 := set_iterator (wrap32 (m_previewIterator e + tick)) e in
    let '(elapsed, e2) := previewLoop (Z.to_nat (m_previewIterator e1)) m 0 e1 in
    set_items (m_scene e2)
      (paintMap m elapsed (m_map (m_previewHandler e2)) (m_previewHash e2)) e2.

(** *** The test button and slotRestartTest *)

Definition slotTestClicked (m : RGBMatrix) (e : Editor) : RGBMatrix * Editor :=
  if m_testButton_isChecked e
  then (start m, emit EvMatrixStart e)
  else (stopAndWait m, emit EvMatrixStopAndWait e).

(** [m_testButton->click()]: a disabled button ignores it; the button is
    checkable, so the click flips it and then its [clicked] signal runs
    [slotTestClicked]. *)
Definition m_testButton_click (m : RGBMatrix) (e : Editor) : RGBMatrix * Editor :=
  if m_testButton_isEnabled e
  then slotTestClicked m
         (set_checked (negb (m_testButton_isChecked e)) (emit EvTestClick e))
  else (m, e).

Definition slotRestartTest (m : RGBMatrix) (e : Editor) : RGBMatrix * Editor :=
  let e1 := timer_stop e in
  let '(m2, e2) :=
    if m_testButton_isChecked e1 then
      (* Toggle off, toggle on. Duh. *)
      let '(m', e') := m_testButton_click m e1 in
      m_testButton_click m' e'
    else (m, e1) in
  let '(ok, e3) := createPreviewItems m2 e2 in
  if ok then (m2, timer_start tick e3) else (m2, e3).

(** *** slotModeChanged *)

Definition slotModeChanged (mode : DocMode) (m : RGBMatrix) (e : Editor)
    : RGBMatrix * Editor :=
  match mode with
  | Operate =>
      let '(m1, e1) :=
        if m_testButton_isChecked e
        then (stopAndWait m, emit EvMatrixStopAndWait e)
        else (m, e) in
      (m1, set_enabled false (set_checked false e1))
  | Design => (m, set_enabled true e)
  end.

(** The test button is never both down and disabled. *)
Definition button_ok (e : Editor) : Prop :=
  m_testButton_isChecked e = true -> m_testButton_isEnabled e = true.

(** *** init *)

(** The statements of [init] on the state above, in its order: the colour
    mode combo, the two colour icons, and at the end the preview items and
    the timer.  The other statements set widgets that nothing below reads
    and connect signals. *)
Definition init (m : RGBMatrix) (e : Editor) : Editor :=
  let e1 := set_comboIndex (controlMode m) e in
  let e2 := set_startIcon (FillColor (startColor m)) e1 in
  let e3 := set_endIcon (if isValid (endColor m)
                         then FillColor (endColor m) else FillTransparent) e2 in
  let '(ok, e4) := createPreviewItems m e3 in
  if ok then timer_start tick e4 else e4.

(** *** The slots that change the shared algorithm *)

(** A setter called on the algorithm object the matrix points to. *)
Definition algoSet (a : RGBAlgorithm) (m : RGBMatrix) (e : Editor)
    : RGBMatrix * Editor :=
  (storeAlgorithm a m, emit (EvSetAlgo a) e).

(** Modelled from the spec: [RGBText::setText], not under src, a setter of one of the
    algorithm's "per-type properties". *)
Definition setText (s : string) (t : RGBText) : RGBText :=
  mkText s (text_font t) (text_animationStyle t) (text_xOffset t) (text_yOffset t).
(** Modelled from the spec: [RGBText::setFont], not under src, a setter of one of the
    algorithm's "per-type properties". *)
Definition setFont (f : string) (t : RGBText) : RGBText :=
  mkText (text_text t) f (text_animationStyle t) (text_xOffset t) (text_yOffset t).
(** Modelled from the spec: [RGBText::setAnimationStyle], not under src, a setter of one of the
    algorithm's "per-type properties". *)
Definition text_setAnimationStyle (s : string) (t : RGBText) : RGBText :=
  mkText (text_text t) (text_font t) s (text_xOffset t) (text_yOffset t).
(** Modelled from the spec: [RGBText::setXOffset], not under src, a setter of one of the
    algorithm's "per-type properties". *)
Definition text_setXOffset (x : Z) (t : RGBText) : RGBText :=
  mkText (text_text t) (text_font t) (text_animationStyle t) x (text_yOffset t).
(** Modelled from the spec: [RGBText::setYOffset], not under src, a setter of one of the
    algorithm's "per-type properties". *)
Definition text_setYOffset (y : Z) (t : RGBText) : RGBText :=
  mkText (text_text t) (text_font t) (text_animationStyle t) (text_xOffset t) y.

(** Modelled from the spec: [RGBImage::setFilename], not under src, a setter of one of the
    algorithm's "per-type properties". *)
Definition setFilename (s : string) (i : RGBImage) : RGBImage :=
  mkImage s (image_animationStyle i) (image_xOffset i) (image_yOffset i).
(** Modelled from the spec: [RGBImage::setAnimationStyle], not under src, a setter of one of the
    algorithm's "per-type properties". *)
Definition image_setAnimationStyle (s : string) (i : RGBImage) : RGBImage :=
  mkImage (image_filename i) s (image_xOffset i) (image_yOffset i).
(** Modelled from the spec: [RGBImage::setXOffset], not under src, a setter of one of the
    algorithm's "per-type properties". *)
Definition image_setXOffset (x : Z) (i : RGBImage) : RGBImage :=
  mkImage (image_filename i) (image_animationStyle i) x (image_yOffset i).
(** Modelled from the spec: [RGBImage::setYOffset], not under src, a setter of one of the
    algorithm's "per-type properties". *)
Definition image_setYOffset (y : Z) (i : RGBImage) : RGBImage :=
  mkImage (image_filename i) (image_animationStyle i) (image_xOffset i) y.

Definition slotTextEdited (text : string) (m : RGBMatrix) (e : Editor)
    : RGBMatrix * Editor :=
  match algorithm m with
  | Some (Text algo) =>
      let e1 := emit EvLock e in
      let '(m2, e2) := algoSet (Text (setText text algo)) m e1 in
      let e3 := emit EvUnlock e2 in
      slotRestartTest m2 e3
  | _ => (m, e)
  end.

(** [dialog] is what the font dialog gave: [Some font] when it was accepted. *)
Definition slotFontButtonClicked (dialog : option string) (m : RGBMatrix)
    (e : Editor) : RGBMatrix * Editor :=
  match algorithm m with
  | Some (Text algo) =>
      match dialog with
      | Some font =>
          let e1 := emit EvLock e in
          let '(m2, e2) := algoSet (Text (setFont font algo)) m e1 in
          let e3 := emit EvUnlock e2 in
          slotRestartTest m2 e3
      | None => (m, e)
      end
  | _ => (m, e)
  end.

(** The animation style is kept by its name. *)
Definition slotAnimationActivated (text : string) (m : RGBMatrix) (e : Editor)
    : RGBMatrix * Editor :=
  match algorithm m with
  | Some (Text algo) =>
      let e1 := emit EvLock e in
      let '(m2, e2) := algoSet (Text (text_setAnimationStyle text algo)) m e1 in
      let e3 := emit EvUnlock e2 in
      slotRestartTest m2 e3
  | _ => (m, e)
  end.

(** [imageEdit] is the text of the file name field. *)
Definition slotImageEdited (imageEdit : string) (m : RGBMatrix) (e : Editor)
    : RGBMatrix * Editor :=
  match algorithm m with
  | Some (Image algo) =>
      let e1 := emit EvLock e in
      let '(m2, e2) := algoSet (Image (setFilename imageEdit algo)) m e1 in
      let e3 := emit EvUnlock e2 in
      slotRestartTest m2 e3
  | _ => (m, e)
  end.

(** [path] is what the file dialog gave, empty when it was cancelled. *)
Definition slotImageButtonClicked (path : string) (m : RGBMatrix) (e : Editor)
    : RGBMatrix * Editor :=
  match algorithm m with
  | Some (Image algo) =>
      if negb (String.eqb path EmptyString) then
        let e1 := emit EvLock e in
        let '(m2, e2) := algoSet (Image (setFilename path algo)) m e1 in
        let e3 := emit EvUnlock e2 in
        slotRestartTest m2 e3
      else (m, e)
  | _ => (m, e)
  end.

Definition slotImageAnimationActivated (text : string) (m : RGBMatrix)
    (e : Editor) : RGBMatrix * Editor :=
  match algorithm m with
  | Some (Image algo) =>
      let e1 := emit EvLock e in
      let '(m2, e2) := algoSet (Image (image_setAnimationStyle text algo)) m e1 in
      let e3 := emit EvUnlock e2 in
      slotRestartTest m2 e3
  | _ => (m, e)
  end.

(** [xSpin] and [ySpin] are the values of the two offset spin boxes. *)
Definition slotOffsetSpinChanged (xSpin ySpin : Z) (m : RGBMatrix) (e : Editor)
    : RGBMatrix * Editor :=
  let '(m', e') :=
    match algorithm m with
    | Some (Text algo) =>
        let e1 := emit EvLock e in
        let algo1 := text_setXOffset xSpin algo in
        let '(m2, e2) := algoSet (Text algo1) m e1 in
        let '(m3, e3) := algoSet (Text (text_setYOffset ySpin algo1)) m2 e2 in
        let e4 := emit EvUnlock e3 in
        slotRestartTest m3 e4
    | _ => (m, e)
    end in
  match algorithm m' with
  | Some (Image algo) =>
      let e1 := emit EvLock e' in
      let algo1 := image_setXOffset xSpin algo in
      let '(m2, e2) := algoSet (Image algo1) m' e1 in
      let '(m3, e3) := algoSet (Image (image_setYOffset ySpin algo1)) m2 e2 in
      let e4 := emit EvUnlock e3 in
      slotRestartTest m3 e4
  | _ => (m', e')
  end.

(** The signals of the text, image and offset widgets, with what they carry. *)
Inductive AlgorithmSignal :=
| TextEdited (text : string)
| FontButtonClicked (dialog : option string)
| AnimationActivated (text : string)
| ImageEdited (imageEdit : string)
| ImageButtonClicked (path : string)
| ImageAnimationActivated (text : string)
| OffsetSpinChanged (xSpin ySpin : Z).

(** The connections [init] makes for them. *)
Definition dispatch (s : AlgorithmSignal) : RGBMatrix -> Editor -> RGBMatrix * Editor :=
  match s with
  | TextEdited t => slotTextEdited t
  | FontButtonClicked d => slotFontButtonClicked d
  | AnimationActivated t => slotAnimationActivated t
  | ImageEdited t => slotImageEdited t
  | ImageButtonClicked p => slotImageButtonClicked p
  | ImageAnimationActivated t => slotImageAnimationActivated t
  | OffsetSpinChanged x y => slotOffsetSpinChanged x y
  end.

(** *** slotSaveToSequenceClicked *)

(** Modelled from the spec: [FixtureGroup::head(pt)], not under src: the
    head placed at the point, or the default [GroupHead()], which names no
    fixture. *)
Definition group_head (grp : FixtureGroup) (pt : QLCPoint) : GroupHead :=
  default (mkHead Fixture_invalidId (-1)) (headsMap grp !! pt).

(** The body of the [foreach] over the head list: the scene gets a zero for
    the three colour channels and for the master intensity of the head. *)
Definition sceneOfHead (d : Doc) (s : Scene) (head : GroupHead) : Scene :=
  match fixtures d !! head_fxi head with
  | None => s
  | Some fxi =>
      let s1 :=
        match rgbChannels fxi (head_head head) with
        | [c0; c1; c2] =>
            scene_setValue (head_fxi head) c2 0
              (scene_setValue (head_fxi head) c1 0
                 (scene_setValue (head_fxi head) c0 0 s))
        | _ => s
        end in
      let master := masterIntensityChannel fxi (head_head head) in
      if negb (master =? QLCChannel_invalid)
      then scene_setValue (head_fxi head) master 0 s1
      else s1
  end.

(** The body of the two loops over the map: the values of the head at
    [(x, y)] are appended to the step's values. *)
Definition cellValues (d : Doc) (grp : FixtureGroup) (y x : Z)
    (vals : list SceneValue) (col : Z) : list SceneValue :=
  let c := QColor_fromRgb col in
  let head := group_head grp (x, y) in
  match fixtures d !! head_fxi head with
  | None => vals
  | Some fxi =>
      let vals1 :=
        match rgbChannels fxi (head_head head) with
        | [c0; c1; c2] =>
            vals ++ [mkValue (head_fxi head) c0 (red c);
                     mkValue (head_fxi head) c1 (green c);
                     mkValue (head_fxi head) c2 (blue c)]
        | _ => vals
        end in
      let master := masterIntensityChannel fxi (head_head head) in
      if negb (master =? QLCChannel_invalid)
      then vals1 ++ [mkValue (head_fxi head) master (if col =? 0 then 0 else 255)]
      else vals1
  end.

Definition mapValues (d : Doc) (grp : FixtureGroup) (mp : list (list Z))
    : list SceneValue :=
  foldl_index (fun y vals row => foldl_index (cellValues d grp y) 0 vals row) 0 [] mp.

(** [std::sort(begin, end)] on the values, which compares with
    [SceneValue::operator<]: here by insertion. *)
Fixpoint sort_insert (v : SceneValue) (l : list SceneValue) : list SceneValue :=
  match l with
  | [] => [v]
  | w :: l' => if SceneValue_lt v w then v :: l else w :: sort_insert v l'
  end.

Definition std_sort (l : list SceneValue) : list SceneValue :=
  foldr sort_insert [] l.

(** The variables of the [for] loop that its body changes. *)
Record ExportLoop := mkLoop {
  currentStep : Z;
  increment : Z;
  sequence : Sequence;
  loop_editor : Editor
}.

(** The [int] counters are integers here: the code's [totalSteps * 2 - 1]
    is as written while it is below 2^31. *)
Definition exportStep (m : RGBMatrix) (grp : FixtureGroup) (sceneId totalSteps : Z)
    (l : ExportLoop) : ExportLoop :=
  let e1 := callPreviewMap m (currentStep l) (loop_editor l) in
  let step :=
    mkStep sceneId (fadeInSpeed m) (wrap32 (duration m - fadeInSpeed m))
      (fadeOutSpeed m) (duration m)
      (* !! Important !! matrix's heads can be displaced randomly but in a
         sequence we absolutely need ordered values. So do it now ! *)
      (std_sort (mapValues (m_doc e1) grp (m_map (m_previewHandler e1)))) in
  let sequence1 := addStep step (sequence l) in
  let currentStep1 := currentStep l + increment l in
  let '(currentStep2, increment2) :=
    if (currentStep1 =? totalSteps) && RunOrder_eqb (runOrder m) PingPong
    then (totalSteps - 2, -1)
    else (currentStep1, increment l) in
  let e2 := set_handler
              (updateStepColor currentStep2 (startColor m)
                 (stepsCount (m_doc e1) m) (m_previewHandler e1)) e1 in
  mkLoop currentStep2 increment2 sequence1 e2.

(** [for (int i = 0; i < totalSteps; i++)] runs its body [Z.to_nat totalSteps]
    times; [n] is that number. *)
Fixpoint exportLoop (n : nat) (m : RGBMatrix) (grp : FixtureGroup)
    (sceneId totalSteps : Z) (l : ExportLoop) : ExportLoop :=
  match n with
  | O => l
  | S n' => exportLoop n' m grp sceneId totalSteps (exportStep m grp sceneId totalSteps l)
  end.

(** The loop's variables as the statements before it leave them. *)
Definition exportInit (m : RGBMatrix) (sceneId : Z) (e : Editor) : Z * ExportLoop :=
  let totalSteps := stepsCount (m_doc e) m in
  let e1 := set_handler (setStepColor (startColor m) (m_previewHandler e)) e in
  let '(currentStep0, increment0, e2) :=
    if Direction_eqb (direction m) Backward then
      (totalSteps - 1, -1,
       if isValid (endColor m)
       then set_handler (setStepColor (endColor m) (m_previewHandler e1)) e1
       else e1)
    else (0, 1, e1) in
  let e3 := set_handler
              (calculateColorDelta (startColor m) (endColor m)
                 (m_previewHandler e2)) e2 in
  let totalSteps' :=
    if RunOrder_eqb (runOrder m) PingPong then totalSteps * 2 - 1 else totalSteps in
  let sequence0 :=
    mkSequence Function_invalidId
      (QString_arg "Sequence" (QString_arg (name m) "%1 %2")) sceneId
      PerStep (duration m)
      (if negb (fadeInSpeed m =? 0) then PerStep else Default)
      (if negb (fadeInSpeed m =? 0) then fadeInSpeed m else 0)
      (if negb (fadeOutSpeed m =? 0) then PerStep else Default)
      (if negb (fadeOutSpeed m =? 0) then fadeOutSpeed m else 0)
      [] in
  (totalSteps', mkLoop currentStep0 increment0 sequence0 e3).

(** From the read of [stepsCount] to the end of the [for] loop. *)
Definition exportRun (m : RGBMatrix) (grp : FixtureGroup) (sceneId : Z)
    (e : Editor) : ExportLoop :=
  let '(totalSteps, l0) := exportInit m sceneId e in
  exportLoop (Z.to_nat totalSteps) m grp sceneId totalSteps l0.

(** The part of the slot inside [if (grp != NULL && algorithm() != NULL)]. *)
Definition saveToSequence (m : RGBMatrix) (grp : FixtureGroup) (e : Editor)
    : RGBMatrix * Editor :=
  let testRunning := m_testButton_isChecked e in
  let '(m1, e1) :=
    if m_testButton_isChecked e then m_testButton_click m e else (m, timer_stop e) in
  let grpScene :=
    foldl (sceneOfHead (m_doc e1))
      (mkScene Function_invalidId (group_name grp) false ∅) (headList grp) in
  let '(sceneId, d1) := addFunction (FScene grpScene) (m_doc e1) in
  let e2 := set_doc d1 e1 in
  let l := exportRun m1 grp sceneId e2 in
  let '(_, d2) := addFunction (FSequence (sequence l)) (m_doc (loop_editor l)) in
  let e3 := set_doc d2 (loop_editor l) in
  if testRunning then m_testButton_click m1 e3
  else
    let '(ok, e4) := createPreviewItems m1 e3 in
    if ok then (m1, timer_start tick e4) else (m1, e4).

(** [m_matrix] is [None] when the pointer is NULL. *)
Definition slotSaveToSequenceClicked (m_matrix : option RGBMatrix) (e : Editor)
    : option RGBMatrix * Editor :=
  match m_matrix with
  | None => (m_matrix, e)
  | Some m =>
      if fixtureGroup m =? FixtureGroup_invalidId then (m_matrix, e)
      else
        match fixtureGroups (m_doc e) !! fixtureGroup m, algorithm m with
        | Some grp, Some _ =>
            let '(m', e') := saveToSequence m grp e in (Some m', e')
        | _, _ => (m_matrix, e)
        end
  end.

End Editor.

(** ** A small installation to run the editor on *)

Module Sample.

(** A preview handler that keeps its step index and the last map rendered. *)
Record SampleHandler := mkSampleHandler {
  sh_index : Z;
  sh_color : QColor;
  sh_map : list (list Z)
}.

(** An item that keeps its shape, its colour and the draw calls it got. *)
Record SampleItem := mkSampleItem {
  si_shape : Shape;
  si_color : Z;
  si_draws : list (Z * Z)
}.

(** Steps: one per column of the bound group, none without an algorithm. *)
Definition sample_stepsCount (d : Doc) (m : RGBMatrix) : Z :=
  match algorithm m, fixtureGroups d !! fixtureGroup m with
  | Some _, Some grp => group_width grp
  | _, _ => 0
  end.

(** Rendering step [s] lights column [s] of a single row in the step colour. *)
Definition sample_previewMap (d : Doc) (m : RGBMatrix) (s : Z)
    (h : SampleHandler) : SampleHandler :=
  match fixtureGroups d !! fixtureGroup m with
  | Some grp =>
      mkSampleHandler (sh_index h) (sh_color h)
        [map (fun x => if x =? s then rgb (sh_color h) else 0)
             (seqZ 0 (group_width grp))]
  | None => mkSampleHandler (sh_index h) (sh_color h) []
  end.

(** (fxi, channel) in lexicographic order. *)
Definition sample_lt (a b : SceneValue) : bool :=
  (sv_fxi a <? sv_fxi b)
  || ((sv_fxi a =? sv_fxi b) && (sv_channel a <? sv_channel b)).

#[export] Instance sample_externals : Externals := {|
  Handler := SampleHandler;
  initializeDirection dir sc ec n h :=
    match dir with
    | Forward => mkSampleHandler 0 sc (sh_map h)
    | Backward => mkSampleHandler (n - 1) (if isValid ec then ec else sc) (sh_map h)
    end;
  checkNextStep ro sc ec n h :=
    mkSampleHandler (if sh_index h + 1 <? n then sh_index h + 1 else 0)
      (sh_color h) (sh_map h);
  calculateColorDelta sc ec h := h;
  setStepColor c h := mkSampleHandler (sh_index h) c (sh_map h);
  updateStepColor s sc n h := h;
  currentStepIndex := sh_index;
  m_map := sh_map;
  stepsCount := sample_stepsCount;
  previewMap := sample_previewMap;
  ControlModeRgb := 0;
  acceptColors a :=
    match a with
    | Image _ => 0
    | Plain => 1
    | _ => 2
    end;
  tick := 20;
  RGBItem := SampleItem;
  RGBItem_new s := mkSampleItem s 0 [];
  graphicsItem := si_shape;
  item_setColor c i := mkSampleItem (si_shape i) c (si_draws i);
  item_color := si_color;
  item_draw el t i := mkSampleItem (si_shape i) (si_color i) (si_draws i ++ [(el, t)]);
  Function_invalidId := 4294967295;
  FixtureGroup_invalidId := 4294967295;
  Fixture_invalidId := 4294967295;
  QLCChannel_invalid := 4294967295;
  SceneValue_lt := sample_lt
|}.

(** Two RGB fixtures, the second with a master intensity channel, placed on
    a row of three cells with the middle one empty and the higher fixture
    id first. *)
Definition fixture5 : Fixture := mkFixture (fun _ => [0; 1; 2]) (fun _ => 3).
Definition fixture7 : Fixture := mkFixture (fun _ => [0; 1; 2]) (fun _ => 4294967295).

Definition row : FixtureGroup :=
  mkGroup 1 "row" 3 1 (<[(0, 0) := mkHead 7 0]> (<[(2, 0) := mkHead 5 0]> ∅)).

Definition doc0 : Doc :=
  mkDoc (<[1 := row]> ∅) (<[5 := fixture5]> (<[7 := fixture7]> ∅)) [] 0.

Definition matrix0 (ro : RunOrder) (dir : Direction) : RGBMatrix :=
  mkMatrix "Matrix" ro dir NormalBlend 0 (QColor_rgb 255 0 0) QColor_invalid 1
    (Some Plain) 1000 200 0 false.

Definition editor0 : Editor :=
  mkEditor doc0 (mkSampleHandler 0 QColor_invalid []) [] None 0 ∅ false true
    false 0 FillTransparent FillTransparent [].

(** A text matrix in a single colour mode, the combo on the fifth entry. *)
Definition text0 : RGBText := mkText "QLC+" "Sans" "Horizontal" 0 0.
Definition matrix_text : RGBMatrix :=
  mkMatrix "Matrix" Loop Forward NormalBlend 4 (QColor_rgb 255 0 0)
    (QColor_rgb 0 0 255) 1 (Some (Text text0)) 1000 200 0 false.
Definition editor_dimmer : Editor :=
  mkEditor doc0 (mkSampleHandler 0 QColor_invalid []) [] None 0 ∅ false true
    false 4 FillTransparent FillTransparent [].

Definition matrix_mask : RGBMatrix :=
  mkMatrix "Matrix" Loop Forward MaskBlend 0 (QColor_rgb 255 0 0)
    (QColor_rgb 0 0 255) 1 (Some Plain) 1000 200 0 false.

(** A matrix bound to group 9, which the document does not have. *)
Definition matrix_unbound : RGBMatrix :=
  mkMatrix "Matrix" Loop Forward NormalBlend 0 (QColor_rgb 255 0 0)
    QColor_invalid 9 (Some Plain) 1000 200 0 false.

(** The editor while the test runs: the button is down. *)
Definition editor_testing : Editor :=
  mkEditor doc0 (mkSampleHandler 0 QColor_invalid []) [] (Some 20) 0 ∅ true true
    false 0 FillTransparent FillTransparent [].
Definition matrix_running (ro : RunOrder) (dir : Direction) : RGBMatrix :=
  start (matrix0 ro dir).


End Sample.

(** ** Reading the log *)

(** The step indices given to [previewMap], in the order of the calls. *)
Definition previewMapCalls (evs : list Event) : list Z :=
  omap (fun ev => match ev with EvPreviewMap s => Some s | _ => None end) evs.

(** The calls made on the preview timer. *)
Definition timerEvents (evs : list Event) : list Event :=
  List.filter (fun ev => match ev with
                         | EvTimerStop | EvTimerStart _ => true
                         | _ => false
                         end) evs.

(** The calls made on the matrix as a function: start and stop. *)
Definition matrixEvents (evs : list Event) : list Event :=
  List.filter (fun ev => match ev with
                         | EvMatrixStart | EvMatrixStopAndWait => true
                         | _ => false
                         end) evs.

(** An event that neither takes or releases the algorithm mutex nor changes
    the algorithm. *)
Definition neutral (ev : Event) : bool :=
  match ev with
  | EvLock | EvUnlock | EvSetAlgo _ => false
  | _ => true
  end.

(** The lock discipline of a run that starts with the mutex [held] or not:
    the mutex is taken only when free and released only when held, every
    setter runs while it is held, and it is free at the end. *)
Fixpoint guarded (held : bool) (evs : list Event) : bool :=
  match evs with
  | [] => negb held
  | EvLock :: evs' => negb held && guarded true evs'
  | EvUnlock :: evs' => held && guarded false evs'
  | EvSetAlgo _ :: evs' => held && guarded held evs'
  | _ :: evs' => guarded held evs'
  end.

(** What a thread that reads the algorithm under the same mutex can see
    during a run: the algorithm at every moment the editor does not hold
    the mutex.  [cur] is the algorithm at the start. *)
Fixpoint observable (held : bool) (cur : option RGBAlgorithm) (evs : list Event)
    : list (option RGBAlgorithm) :=
  (if held then [] else [cur]) ++
  match evs with
  | [] => []
  | EvLock :: evs' => observable true cur evs'
  | EvUnlock :: evs' => observable false cur evs'
  | EvSetAlgo a :: evs' => observable held (Some a) evs'
  | _ :: evs' => observable held cur evs'
  end.

(** What [std::sort] asks of its comparison: a strict weak ordering. *)
Record StrictWeakOrder {A : Type} (lt : A -> A -> bool) : Prop := {
  swo_irrefl : forall a, lt a a = false;
  swo_trans : forall a b c, lt a b = true -> lt b c = true -> lt a c = true;
  swo_incomp : forall a b c,
    lt a b = false -> lt b a = false -> lt b c = false -> lt c b = false ->
    lt a c = false /\ lt c a = false
}.

(** Ascending for a comparison [lt]: no value is below an earlier one. *)
Definition ascending {A : Type} (lt : A -> A -> bool) (l : list A) : Prop :=
  StronglySorted (fun a b => lt b a = false) l.

(** A step as the export of matrix [m] makes them for the scene [sceneId]:
    the matrix's speeds, and values that went through the sort. *)
Definition exported_step `{X : Externals} (m : RGBMatrix) (sceneId : Z)
    (st : ChaserStep) : Prop :=
  fid st = sceneId /\
  step_duration st = duration m /\
  fadeIn st = fadeInSpeed m /\
  fadeOut st = fadeOutSpeed m /\
  hold st = wrap32 (duration m - fadeInSpeed m) /\
  exists vals, values st = std_sort vals.

(** The indices [start, start + inc, ...], [n] of them. *)
Definition stride (start inc : Z) (n : nat) : list Z :=
  map (fun k => start + Z.of_nat k * inc) (seq 0 n).

(** ** More of the editor's slots *)

Section MoreEditor.
Context `{X : Externals}.

(** Modelled from the spec: [RGBMatrix::setControlMode], not under src, one
    of the "model getters/setters"; it stores what [controlMode()] returns. *)
Definition setControlMode (c : Z) (m : RGBMatrix) : RGBMatrix :=
  mkMatrix (name m) (runOrder m) (direction m) (blendMode m) c
    (startColor m) (endColor m) (fixtureGroup m) (algorithm m) (duration m)
    (fadeInSpeed m) (fadeOutSpeed m) (running m).

(** Modelled from the spec: [RGBMatrix::setFixtureGroup], not under src, the
    setter of the "fixture-group binding". *)
Definition setFixtureGroup (g : Z) (m : RGBMatrix) : RGBMatrix :=
  mkMatrix (name m) (runOrder m) (direction m) (blendMode m) (controlMode m)
    (startColor m) (endColor m) g (algorithm m) (duration m)
    (fadeInSpeed m) (fadeOutSpeed m) (running m).

(** *** stopTest *)

Definition stopTest (m : RGBMatrix) (e : Editor) : RGBMatrix * Editor :=
  if m_testButton_isChecked e then m_testButton_click m e else (m, e).

(** *** The colour mode and the colour buttons *)

(** [index] is the entry of the colour mode combo that was activated. *)
Definition slotColorModeChanged (index : Z) (m : RGBMatrix) (e : Editor)
    : RGBMatrix * Editor :=
  let m1 := setControlMode index m in
  let '(m2, e2) := updateColors m1 e in
  slotRestartTest m2 e2.

(** [col] is what the colour dialog gave: the invalid colour when it was
    cancelled. *)
Definition slotStartColorButtonClicked (col : QColor) (m : RGBMatrix) (e : Editor)
    : RGBMatrix * Editor :=
  if isValid col then
    let m1 := setStartColor col m in
    let '(m2, e2) := updateColors m1 e in
    slotRestartTest m2 e2
  else (m, e).

Definition slotEndColorButtonClicked (col : QColor) (m : RGBMatrix) (e : Editor)
    : RGBMatrix * Editor :=
  if isValid col then
    let m1 := setEndColor col m in
    let '(m2, e2) := updateColors m1 e in
    slotRestartTest m2 e2
  else (m, e).

Definition slotResetEndColorButtonClicked (m : RGBMatrix) (e : Editor)
    : RGBMatrix * Editor :=
  let m1 := setEndColor QColor_invalid m in
  let e1 := set_handler
              (calculateColorDelta (startColor m1) (endColor m1)
                 (m_previewHandler e)) e in
  let '(m2, e2) := updateColors m1 e1 in
  slotRestartTest m2 e2.

(** *** The fixture group combo *)

(** A combo box: its entries, each a text and maybe a datum, and the index
    of the current entry, -1 when there is none. *)
Record Combo := mkCombo {
  combo_items : list (string * option Z);
  combo_currentIndex : Z
}.

(** [QComboBox::clear()] *)
Definition combo_clear (c : Combo) : Combo := mkCombo [] (-1).

(** [QComboBox::addItem(text, data)]: the entry goes last; the first entry
    of an empty box becomes the current one. *)
Definition combo_addItem (text : string) (data : option Z) (c : Combo) : Combo :=
  mkCombo (combo_items c ++ [(text, data)])
    (match combo_items c with
     | [] => 0
     | _ => combo_currentIndex c
     end).

(** [QComboBox::count()] *)
Definition combo_count (c : Combo) : Z := Z.of_nat (length (combo_items c)).

(** [QComboBox::setCurrentIndex(i)], for an index that has an entry. *)
Definition combo_setCurrentIndex (i : Z) (c : Combo) : Combo :=
  mkCombo (combo_items c) i.

(** The entry at an index, none below 0 or past the end. *)
Definition combo_item (i : Z) (c : Combo) : option (string * option Z) :=
  if i <? 0 then None else combo_items c !! Z.to_nat i.

(** [QComboBox::itemData(i)]: the datum of the entry, an invalid variant
    when there is no entry or it has no datum. *)
Definition combo_itemData (i : Z) (c : Combo) : option Z :=
  combo_item i c ≫= snd.




(** Modelled from the spec: [Doc::fixtureGroups()], not under src: the
    groups the document holds. *)
Definition doc_fixtureGroups (d : Doc) : list FixtureGroup :=
  (map_to_list (fixtureGroups d)).*2.

(** The entry of a group in the combo: its name, with its id as datum. *)
Definition group_entry (g : FixtureGroup) : string * option Z :=
  (group_name g, Some (group_id g)).

(** The body of the while loop of [fillFixtureGroupCombo]. *)
Definition fillGroupEntry (m : RGBMatrix) (c : Combo) (grp : FixtureGroup) : Combo :=
  let c1 := combo_addItem (group_name grp) (Some (group_id grp)) c in
  if fixtureGroup m =? group_id grp
  then combo_setCurrentIndex (combo_count c1 - 1) c1
  else c1.

Definition fillFixtureGroupCombo (m : RGBMatrix) (d : Doc) (c : Combo) : Combo :=
  foldl (fillGroupEntry m) (combo_addItem "None" None (combo_clear c))
    (doc_fixtureGroups d).

(** [c] is the fixture group combo.  The scene is cleared, the hash keeps
    its entries. *)
Definition slotFixtureGroupActivated (index : Z) (c : Combo) (m : RGBMatrix)
    (e : Editor) : RGBMatrix * Editor :=
  match combo_itemData index c with
  | Some g => slotRestartTest (setFixtureGroup g m) e
  | None =>
      let m1 := setFixtureGroup FixtureGroup_invalidId m in
      let e1 := timer_stop e in
      (m1, set_items [] (m_previewHash e1) e1)
  end.

Definition slotFixtureGroupAdded (c : Combo) (m : RGBMatrix) (e : Editor) : Combo :=
  fillFixtureGroupCombo m (m_doc e) c.

Definition slotFixtureGroupRemoved (c : Combo) (m : RGBMatrix) (e : Editor)
    : Combo * (RGBMatrix * Editor) :=
  let c1 := fillFixtureGroupCombo m (m_doc e) c in
  (c1, slotFixtureGroupActivated (combo_currentIndex c1) c1 m e).


(** The document gives every group the id it is kept under. *)
Definition doc_ids_ok (d : Doc) : Prop :=
  forall (k : Z) (g : FixtureGroup), fixtureGroups d !! k = Some g -> group_id g = k.

(** *** The parts of the export *)

(** The export up to the creation of the scene: the test is stopped, or,
    when none runs, the preview timer. *)
Definition exportPrepare (m : RGBMatrix) (e : Editor) : RGBMatrix * Editor :=
  if m_testButton_isChecked e then m_testButton_click m e else (m, timer_stop e).

(** The scene of the export, before the document gets it. *)
Definition exportScene (grp : FixtureGroup) (d : Doc) : Scene :=
  foldl (sceneOfHead d) (mkScene Function_invalidId (group_name grp) false ∅)
    (headList grp).

(** The scene as the heads leave it: hidden, every value a zero, and only
    values of the given heads whose fixture the document has. *)
Definition scene_zeroed (d : Doc) (hs : list GroupHead) (s : Scene) : Prop :=
  scene_visible s = false /\
  (forall k v, scene_values s !! k = Some v -> v = 0) /\
  (forall fxi ch, is_Some (scene_values s !! (fxi, ch)) ->
     is_Some (fixtures d !! fxi) /\ exists h, h ∈ hs /\ head_fxi h = fxi).


(** A value as the export makes them: a byte, for a fixture of the
    document. *)
Definition value_ok (d : Doc) (v : SceneValue) : Prop :=
  0 <= sv_value v <= 255 /\ is_Some (fixtures d !! sv_fxi v).

(** What the two loops of the export over the map append to the values of
    a step, told cell by cell.  For the cell [(x, y)] of colour [col]:
    nothing when the document has no fixture for the head at the cell;
    else the red, green and blue of the colour on the head's three colour
    channels, when it has three, and then, when the head has a master
    intensity channel, 0 on it for the colour 0 and 255 for any other. *)
Definition cell_appended (d : Doc) (grp : FixtureGroup) (x y col : Z)
    : list SceneValue :=
  let head := group_head grp (x, y) in
  match fixtures d !! head_fxi head with
  | None => []
  | Some fxi =>
      (match rgbChannels fxi (head_head head) with
       | [c0; c1; c2] =>
           [mkValue (head_fxi head) c0 (qRed col);
            mkValue (head_fxi head) c1 (qGreen col);
            mkValue (head_fxi head) c2 (qBlue col)]
       | _ => []
       end)
      ++ (if masterIntensityChannel fxi (head_head head) =? QLCChannel_invalid
          then []
          else [mkValue (head_fxi head) (masterIntensityChannel fxi (head_head head))
                  (if col =? 0 then 0 else 255)])
  end.

(** The cells of a map in the order of the loops: row by row, and in a row
    from its first cell to its last. *)
Definition map_appended (d : Doc) (grp : FixtureGroup) (mp : list (list Z))
    : list SceneValue :=
  concat (imap (fun y row =>
                  concat (imap (fun x col =>
                                  cell_appended d grp (Z.of_nat x) (Z.of_nat y) col)
                            row))
            mp).

(** The cell [(x, y)] lies in the map. *)
Definition inMap (mp : list (list Z)) (x y : Z) : Prop :=
  0 <= y < Z.of_nat (length mp) /\
  0 <= x < Z.of_nat (length (nth (Z.to_nat y) mp [])).

#[global] Instance inMap_dec (mp : list (list Z)) (x y : Z) : Decision (inMap mp x y).
Proof. unfold inMap. apply _. Defined.

(** [n] preview timeouts in a row. *)
Definition timeouts (n : nat) (m : RGBMatrix) (e : Editor) : Editor :=
  Nat.iter n (slotPreviewTimeout m) e.

(** *** The signals of the algorithm widgets *)

(** Whether the slot of a signal does anything on a matrix with algorithm
    [a]: the algorithm has to be of the slot's type, the font dialog
    accepted, the file dialog's path not empty. *)
Definition signal_applies (s : AlgorithmSignal) (a : option RGBAlgorithm) : bool :=
  match s, a with
  | TextEdited _, Some (Text _) => true
  | FontButtonClicked (Some _), Some (Text _) => true
  | AnimationActivated _, Some (Text _) => true
  | ImageEdited _, Some (Image _) => true
  | ImageButtonClicked path, Some (Image _) => negb (String.eqb path EmptyString)
  | ImageAnimationActivated _, Some (Image _) => true
  | OffsetSpinChanged _ _, Some (Text _) => true
  | OffsetSpinChanged _ _, Some (Image _) => true
  | _, _ => false
  end.

(** The algorithm a signal that applies leaves. *)
Definition signal_result (s : AlgorithmSignal) (a : RGBAlgorithm) : RGBAlgorithm :=
  match s, a with
  | TextEdited t, Text algo => Text (setText t algo)
  | FontButtonClicked (Some f), Text algo => Text (setFont f algo)
  | AnimationActivated t, Text algo => Text (text_setAnimationStyle t algo)
  | ImageEdited t, Image algo => Image (setFilename t algo)
  | ImageButtonClicked p, Image algo => Image (setFilename p algo)
  | ImageAnimationActivated t, Image algo => Image (image_setAnimationStyle t algo)
  | OffsetSpinChanged x y, Text algo => Text (text_setYOffset y (text_setXOffset x algo))
  | OffsetSpinChanged x y, Image algo =>
      Image (image_setYOffset y (image_setXOffset x algo))
  | _, _ => a
  end.

(** The takes and releases of the algorithm mutex in a log. *)
Definition mutexEvents (evs : list Event) : list Event :=
  List.filter (fun ev => match ev with
                         | EvLock | EvUnlock => true
                         | _ => false
                         end) evs.

(** *** The run order and the direction *)

(** Modelled from the spec: [RGBMatrix::setRunOrder], not under src, one of
    the "model getters/setters"; it stores what [runOrder()] returns. *)
Definition setRunOrder (ro : RunOrder) (m : RGBMatrix) : RGBMatrix :=
  mkMatrix (name m) ro (direction m) (blendMode m) (controlMode m)
    (startColor m) (endColor m) (fixtureGroup m) (algorithm m) (duration m)
    (fadeInSpeed m) (fadeOutSpeed m) (running m).

(** Modelled from the spec: [RGBMatrix::setDirection], not under src, one of
    the "model getters/setters"; it stores what [direction()] returns. *)
Definition setDirection (d : Direction) (m : RGBMatrix) : RGBMatrix :=
  mkMatrix (name m) (runOrder m) d (blendMode m) (controlMode m)
    (startColor m) (endColor m) (fixtureGroup m) (algorithm m) (duration m)
    (fadeInSpeed m) (fadeOutSpeed m) (running m).

Definition slotLoopClicked (m : RGBMatrix) (e : Editor) : RGBMatrix * Editor :=
  let m1 := setRunOrder Loop m in
  let e1 := set_handler
              (calculateColorDelta (startColor m1) (endColor m1)
                 (m_previewHandler e)) e in
  slotRestartTest m1 e1.

Definition slotPingPongClicked (m : RGBMatrix) (e : Editor) : RGBMatrix * Editor :=
  let m1 := setRunOrder PingPong m in
  let e1 := set_handler
              (calculateColorDelta (startColor m1) (endColor m1)
                 (m_previewHandler e)) e in
  slotRestartTest m1 e1.

Definition slotSingleShotClicked (m : RGBMatrix) (e : Editor) : RGBMatrix * Editor :=
  let m1 := setRunOrder SingleShot m in
  let e1 := set_handler
              (calculateColorDelta (startColor m1) (endColor m1)
                 (m_previewHandler e)) e in
  slotRestartTest m1 e1.

Definition slotForwardClicked (m : RGBMatrix) (e : Editor) : RGBMatrix * Editor :=
  let m1 := setDirection Forward m in
  let e1 := set_handler
              (calculateColorDelta (startColor m1) (endColor m1)
                 (m_previewHandler e)) e in
  slotRestartTest m1 e1.

Definition slotBackwardClicked (m : RGBMatrix) (e : Editor) : RGBMatrix * Editor :=
  let m1 := setDirection Backward m in
  let e1 := set_handler
              (calculateColorDelta (startColor m1) (endColor m1)
                 (m_previewHandler e)) e in
  slotRestartTest m1 e1.

(** *** The shape button *)

Definition set_shape (b : bool) (e : Editor) : Editor :=
  mkEditor (m_doc e) (m_previewHandler e) (m_scene e) (m_previewTimer e)
    (m_previewIterator e) (m_previewHash e) (m_testButton_isChecked e)
    (m_testButton_isEnabled e) b (m_colorModeCombo_currentIndex e)
    (m_startColorButton_icon e) (m_endColorButton_icon e) (trace e).

(** The slot does not read its argument, and drops what
    [createPreviewItems] returns. *)
Definition slotShapeToggle (m : RGBMatrix) (e : Editor) : Editor :=
  (createPreviewItems m e).2.

(** *** The constructor and the destructor *)

(** The constructor from its call of [init()] on; [e] is the editor as the
    member initialisers and [setupUi] leave it, and [mode] is
    [m_doc->mode()]. *)
Definition RGBMatrixEditor_new (mode : DocMode) (m : RGBMatrix) (e : Editor)
    : RGBMatrix * Editor :=
  slotModeChanged mode m (init m e).

(** The destructor. *)
Definition RGBMatrixEditor_delete (m : RGBMatrix) (e : Editor) : RGBMatrix * Editor :=
  let e1 := timer_stop e in
  if m_testButton_isChecked e1
  then (stopAndWait m, emit EvMatrixStopAndWait e1)
  else (m, e1).

(** *** Runs of the editor *)

(** The widgets and the timer the slots read to decide what to do: the
    entry of the colour mode combo, the test button down and enabled, and
    the preview timer. *)
Definition controls (e : Editor) : Z * bool * bool * option Z :=
  (m_colorModeCombo_currentIndex e, m_testButton_isChecked e,
   m_testButton_isEnabled e, m_previewTimer e).

(** What the user, the preview timer and the document make the editor do,
    of the slots above.  [FixtureGroupActivated] carries the fixture group
    combo as it is then.  The slots of the pattern and blend mode combos, of
    the speed dials, of the name and of the script properties are not among
    them. *)
Inductive Action :=
| TestButtonClicked
| ModeChanged (mode : DocMode)
| ColorModePicked (index : Z)
| StartColorPicked (col : QColor)
| EndColorPicked (col : QColor)
| EndColorReset
| LoopClicked
| PingPongClicked
| SingleShotClicked
| ForwardClicked
| BackwardClicked
| Signalled (s : AlgorithmSignal)
| FixtureGroupActivated (index : Z) (c : Combo)
| PreviewTimeout
| ShapeToggled
| SaveToSequenceClicked
| TestStopped.

(** The slot an action runs, on the matrix and the editor.  A pick in the
    colour mode combo makes the entry the current one before the combo's
    [activated(int)] runs the slot, and the shape button flips before its
    [toggled(bool)] does. *)
Definition act (a : Action) (s : RGBMatrix * Editor) : RGBMatrix * Editor :=
  match a with
  | TestButtonClicked => m_testButton_click s.1 s.2
  | ModeChanged mode => slotModeChanged mode s.1 s.2
  | ColorModePicked index => slotColorModeChanged index s.1 (set_comboIndex index s.2)
  | StartColorPicked col => slotStartColorButtonClicked col s.1 s.2
  | EndColorPicked col => slotEndColorButtonClicked col s.1 s.2
  | EndColorReset => slotResetEndColorButtonClicked s.1 s.2
  | LoopClicked => slotLoopClicked s.1 s.2
  | PingPongClicked => slotPingPongClicked s.1 s.2
  | SingleShotClicked => slotSingleShotClicked s.1 s.2
  | ForwardClicked => slotForwardClicked s.1 s.2
  | BackwardClicked => slotBackwardClicked s.1 s.2
  | Signalled sig => dispatch sig s.1 s.2
  | FixtureGroupActivated index c => slotFixtureGroupActivated index c s.1 s.2
  | PreviewTimeout => (s.1, slotPreviewTimeout s.1 s.2)
  | ShapeToggled =>
      (s.1, slotShapeToggle s.1 (set_shape (negb (m_shapeButton_isChecked s.2)) s.2))
  | SaveToSequenceClicked =>
      let r := slotSaveToSequenceClicked (Some s.1) s.2 in
      (default s.1 r.1, r.2)
  | TestStopped => stopTest s.1 s.2
  end.

(** The actions of a list, one after the other. *)
Definition run (l : list Action) (s : RGBMatrix * Editor) : RGBMatrix * Editor :=
  foldl (fun s a => act a s) s l.

(** Whether the matrix was last told to start, after the calls of a log;
    [b] is whether it was before. *)
Definition toldToRun (b : bool) (evs : list Event) : bool :=
  foldl (fun b ev => match ev with
                     | EvMatrixStart => true
                     | EvMatrixStopAndWait => false
                     | _ => b
                     end) b evs.

(** The log of [e'] goes on from the log of [e], and the test button
    follows what the matrix was told: if it was down in [e] exactly when the
    matrix was last told to start, it is so in [e']. *)
Definition tracks (e e' : Editor) : Prop :=
  exists evs, trace e' = trace e ++ evs /\
              toldToRun (m_testButton_isChecked e) evs = m_testButton_isChecked e'.

End MoreEditor.

(** ** More of the sample installation *)

Module MoreSample.
Import Sample.

(** The fixture group combo before it was ever filled. *)
Definition combo0 : Combo := mkCombo [] (-1).

(** The sample document without its fixture group. *)
Definition doc_nogroup : Doc := mkDoc ∅ (fixtures doc0) [] 0.
Definition editor_nogroup : Editor :=
  mkEditor doc_nogroup (mkSampleHandler 0 QColor_invalid []) [] (Some 20) 0 ∅
    false true false 0 FillTransparent FillTransparent [].

(** A matrix in the mask blend mode whose start colour is already white. *)
Definition matrix_white_mask : RGBMatrix :=
  mkMatrix "Matrix" Loop Forward MaskBlend 0 Qt_white QColor_invalid 1
    (Some Plain) 1000 200 0 false.

(** An editor 5 ms into a step, a tick being 20 ms. *)
Definition editor_early : Editor :=
  mkEditor doc0 (mkSampleHandler 0 (QColor_rgb 255 0 0) []) [] (Some 20) 5 ∅
    false true false 0 FillTransparent FillTransparent [].

(** A matrix whose step lasts 50 ms. *)
Definition matrix_fast : RGBMatrix :=
  mkMatrix "Matrix" Loop Forward NormalBlend 0 (QColor_rgb 255 0 0)
    QColor_invalid 1 (Some Plain) 50 0 0 false.

(** The sample editor with its preview items made, 990 ms into a step. *)
Definition editor_items : Editor :=
  set_iterator 990 (createPreviewItems (matrix0 Loop Forward) editor0).2.

End MoreSample.

(** ** Properties *)

Section Properties.
Context `{X : Externals}.

(** *** Colours *)

Lemma land_255_range (z : Z) : 0 <= Z.land z 255 <= 255.
Proof.
  change 255 with (Z.ones 8) at 1 2.
  rewrite Z.land_ones by lia.
  pose proof (Z.mod_pos_bound z (2 ^ 8) ltac:(lia)). lia.
Qed.

Lemma qGray_range (v : Z) : 0 <= qGray v <= 255.
Proof.
  unfold qGray, qRed, qGreen, qBlue.
  pose proof (land_255_range (Z.shiftr v 16)).
  pose proof (land_255_range (Z.shiftr v 8)).
  pose proof (land_255_range v).
  split.
  - apply Z.div_pos; lia.
  - apply Z.div_le_upper_bound; lia.
Qed.

Lemma to_uchar_qGray (v : Z) : to_uchar (qGray v) = qGray v.
Proof.
  unfold to_uchar. apply Z.mod_small. pose proof (qGray_range v). lia.
Qed.

(** C8. When the algorithm takes a colour, the blend mode is not the mask
    and the colour mode combo is not on RGB, [updateColors] leaves the
    matrix with the grey of its start colour as start colour, so with equal
    red, green and blue; and when the algorithm takes more than one colour,
    the same holds of the end colour. *)
Theorem updateColors_grayscale (m : RGBMatrix) (e : Editor) (a : RGBAlgorithm) :
  algorithm m = Some a ->
  0 < acceptColors a ->
  blendMode m <> MaskBlend ->
  m_colorModeCombo_currentIndex e <> ControlModeRgb ->
  let m' := (updateColors m e).1 in
  let g := qGray (rgb (startColor m)) in
  let g' := qGray (rgb (endColor m)) in
  startColor m' = QColor_rgb g g g /\
  (red (startColor m') = green (startColor m') /\
   green (startColor m') = blue (startColor m')) /\
  (1 < acceptColors a ->
   endColor m' = QColor_rgb g' g' g' /\
   red (endColor m') = green (endColor m') /\
   green (endColor m') = blue (endColor m')).
Proof.
  intros Halg Hacc Hblend Hmode. unfold updateColors. rewrite Halg.
  destruct (0 <? acceptColors a) eqn:E0; [| lia].
  destruct (BlendMode_eqb (blendMode m) MaskBlend) eqn:Eb.
  { destruct (blendMode m); simpl in Eb; congruence. }
  destruct (m_colorModeCombo_currentIndex e =? ControlModeRgb) eqn:Ec; [lia |].
  cbn [negb]. rewrite !to_uchar_qGray.
  destruct (1 <? acceptColors a) eqn:E1; cbn.
  - repeat split; reflexivity.
  - repeat split; try reflexivity; lia.
Qed.

(** C10. When the algorithm takes a colour and the blend mode is the mask,
    [updateColors] sets the start colour to white and the end colour to the
    invalid colour, and the handler's colour delta is computed from these
    two. *)
Theorem updateColors_mask (m : RGBMatrix) (e : Editor) (a : RGBAlgorithm) :
  algorithm m = Some a ->
  0 < acceptColors a ->
  blendMode m = MaskBlend ->
  let r := updateColors m e in
  startColor r.1 = Qt_white /\
  endColor r.1 = QColor_invalid /\
  m_previewHandler r.2 =
    calculateColorDelta (startColor r.1) (endColor r.1) (m_previewHandler e) /\
  m_previewHandler r.2 =
    calculateColorDelta Qt_white QColor_invalid (m_previewHandler e).
Proof.
  intros Halg Hacc Hblend. unfold updateColors. rewrite Halg, Hblend.
  destruct (0 <? acceptColors a) eqn:E0; [| lia].
  cbn. repeat split; reflexivity.
Qed.

(** *** The preview items, the test button and the timer *)

Lemma drop_trace (l evs : list Event) : drop (length l) (l ++ evs) = evs.
Proof. apply drop_app_length. Qed.

Lemma timerEvents_app (l1 l2 : list Event) :
  timerEvents (l1 ++ l2) = timerEvents l1 ++ timerEvents l2.
Proof. apply List.filter_app. Qed.

Lemma timerEvents_previewMap (pm : list Z) : timerEvents (map EvPreviewMap pm) = [].
Proof. induction pm; [reflexivity | assumption]. Qed.

Lemma neutral_previewMap (pm : list Z) : forallb neutral (map EvPreviewMap pm) = true.
Proof. induction pm; [reflexivity | assumption]. Qed.

(** [createPreviewItems] writes the scene, the hash and the handler, calls
    [previewMap] at most once and leaves the rest alone. *)
Lemma createPreviewItems_frame (m : RGBMatrix) (e : Editor) :
  let r := createPreviewItems m e in
  m_previewTimer r.2 = m_previewTimer e /\
  m_doc r.2 = m_doc e /\
  m_testButton_isChecked r.2 = m_testButton_isChecked e /\
  m_testButton_isEnabled r.2 = m_testButton_isEnabled e /\
  m_previewIterator r.2 = m_previewIterator e /\
  exists pm, trace r.2 = trace e ++ map EvPreviewMap pm.
Proof.
  unfold createPreviewItems. cbn.
  destruct (fixtureGroups (m_doc e) !! fixtureGroup m) as [grp |]; cbn.
  - match goal with |- context [m_map ?h] => destruct (m_map h) eqn:Emap end.
    + cbn. repeat split. eexists [_]. reflexivity.
    + match goal with |- context [foldl ?f ?a ?l] => destruct (foldl f a l) end.
      cbn. repeat split. eexists [_]. reflexivity.
  - repeat split. exists []. cbn. symmetry. apply app_nil_r.
Qed.

Lemma createPreviewItems_eq (m : RGBMatrix) (e : Editor) (ok : bool) (e3 : Editor) :
  createPreviewItems m e = (ok, e3) ->
  m_previewTimer e3 = m_previewTimer e /\
  m_doc e3 = m_doc e /\
  m_testButton_isChecked e3 = m_testButton_isChecked e /\
  m_testButton_isEnabled e3 = m_testButton_isEnabled e /\
  exists pm, trace e3 = trace e ++ map EvPreviewMap pm.
Proof.
  intros E. pose proof (createPreviewItems_frame m e) as F.
  rewrite E in F. cbn in F. tauto.
Qed.

Lemma createPreviewItems_none (m : RGBMatrix) (e : Editor) :
  fixtureGroups (m_doc e) !! fixtureGroup m = None ->
  createPreviewItems m e =
    (false, set_items [GText "No fixture group to control" Qt_white] ∅
              (set_items [] ∅ e)).
Proof. intros Hg. unfold createPreviewItems. cbn. rewrite Hg. reflexivity. Qed.

(** What a click does, by the state of the button. *)
Lemma m_testButton_click_checked (m : RGBMatrix) (e : Editor) :
  m_testButton_isEnabled e = true -> m_testButton_isChecked e = true ->
  m_testButton_click m e =
    (stopAndWait m, emit EvMatrixStopAndWait (set_checked false (emit EvTestClick e))).
Proof.
  intros He Hc. unfold m_testButton_click, slotTestClicked. rewrite He, Hc. reflexivity.
Qed.

Lemma m_testButton_click_unchecked (m : RGBMatrix) (e : Editor) :
  m_testButton_isEnabled e = true -> m_testButton_isChecked e = false ->
  m_testButton_click m e =
    (start m, emit EvMatrixStart (set_checked true (emit EvTestClick e))).
Proof.
  intros He Hc. unfold m_testButton_click, slotTestClicked. rewrite He, Hc. reflexivity.
Qed.

(** A click leaves the matrix's settings, the document and the timer alone,
    and what it logs is neither a timer call nor an access to the
    algorithm. *)
Lemma m_testButton_click_frame (m : RGBMatrix) (e : Editor) :
  let r := m_testButton_click m e in
  fixtureGroup r.1 = fixtureGroup m /\
  algorithm r.1 = algorithm m /\
  m_doc r.2 = m_doc e /\
  m_previewTimer r.2 = m_previewTimer e /\
  m_testButton_isEnabled r.2 = m_testButton_isEnabled e /\
  exists evs, trace r.2 = trace e ++ evs /\ timerEvents evs = [] /\
              forallb neutral evs = true /\ previewMapCalls evs = [].
Proof.
  unfold m_testButton_click, slotTestClicked.
  destruct (m_testButton_isEnabled e) eqn:He; cbn.
  - destruct (m_testButton_isChecked e); cbn; rewrite ?He; repeat split;
      eexists [_; _]; rewrite <- app_assoc; repeat split; reflexivity.
  - rewrite He. repeat split. exists []. rewrite app_nil_r. repeat split; reflexivity.
Qed.

(** [slotModeChanged] leaves the button up when it disables it, and the
    clicks and the restart keep it so. *)
Lemma slotModeChanged_button_ok (mode : DocMode) (m : RGBMatrix) (e : Editor) :
  button_ok (slotModeChanged mode m e).2.
Proof.
  unfold button_ok, slotModeChanged. destruct mode; cbn.
  - reflexivity.
  - destruct (m_testButton_isChecked e); cbn; discriminate.
Qed.

Lemma m_testButton_click_button_ok (m : RGBMatrix) (e : Editor) :
  button_ok e -> button_ok (m_testButton_click m e).2.
Proof.
  unfold button_ok, m_testButton_click, slotTestClicked. intros H.
  destruct (m_testButton_isEnabled e) eqn:He; cbn.
  - destruct (m_testButton_isChecked e); cbn; intros _; exact He.
  - rewrite He. exact H.
Qed.

(** The run of [slotRestartTest], whatever the state of the button: the
    timer stop, the clicks, the preview items, then the timer start if the
    items were made. *)
Lemma slotRestartTest_run (m : RGBMatrix) (e : Editor) :
  exists m2 e2 clicks ok e3 pm,
    fixtureGroup m2 = fixtureGroup m /\
    algorithm m2 = algorithm m /\
    m_doc e2 = m_doc e /\
    m_previewTimer e2 = None /\
    trace e2 = trace e ++ EvTimerStop :: clicks /\
    timerEvents clicks = [] /\
    forallb neutral clicks = true /\
    createPreviewItems m2 e2 = (ok, e3) /\
    trace e3 = trace e2 ++ map EvPreviewMap pm /\
    slotRestartTest m e = (m2, if ok then timer_start tick e3 else e3).
Proof.
  unfold slotRestartTest.
  assert (Hc : exists m2 e2 clicks,
             (if m_testButton_isChecked (timer_stop e)
              then let '(m', e') := m_testButton_click m (timer_stop e) in
                   m_testButton_click m' e'
              else (m, timer_stop e)) = (m2, e2) /\
             fixtureGroup m2 = fixtureGroup m /\ algorithm m2 = algorithm m /\
             m_doc e2 = m_doc e /\ m_previewTimer e2 = None /\
             trace e2 = trace e ++ EvTimerStop :: clicks /\
             timerEvents clicks = [] /\ forallb neutral clicks = true).
  { destruct (m_testButton_isChecked (timer_stop e)).
    - pose proof (m_testButton_click_frame m (timer_stop e)) as F1.
      destruct (m_testButton_click m (timer_stop e)) as [m1 e1]. cbn in F1.
      destruct F1 as (G1 & A1 & D1 & T1 & _ & evs1 & Tr1 & Te1 & N1 & _).
      pose proof (m_testButton_click_frame m1 e1) as F2.
      destruct (m_testButton_click m1 e1) as [m2 e2]. cbn in F2.
      destruct F2 as (G2 & A2 & D2 & T2 & _ & evs2 & Tr2 & Te2 & N2 & _).
      exists m2, e2, (evs1 ++ evs2). repeat split; try congruence.
      + rewrite Tr2, Tr1. cbn. rewrite <- !app_assoc. reflexivity.
      + rewrite timerEvents_app, Te1, Te2. reflexivity.
      + rewrite forallb_app, N1, N2. reflexivity.
    - exists m, (timer_stop e), []. repeat split. }
  destruct Hc as (m2 & e2 & clicks & -> & G & A & D & T & Tr & Te & N).
  destruct (createPreviewItems m2 e2) as [ok e3] eqn:E.
  destruct (createPreviewItems_eq _ _ _ _ E) as (_ & _ & _ & _ & pm & Tr3).
  exists m2, e2, clicks, ok, e3, pm.
  repeat split; try assumption. destruct ok; reflexivity.
Qed.

(** C5. When the document has no fixture group under the matrix's group id,
    [createPreviewItems] puts the placeholder text on the scene, makes no
    item for any head and returns false; [init] then leaves the timer as it
    was and calls nothing on it, and [slotRestartTest] leaves it stopped,
    having only called its stop. *)
Theorem createPreviewItems_no_group (m : RGBMatrix) (e : Editor) :
  fixtureGroups (m_doc e) !! fixtureGroup m = None ->
  let r := createPreviewItems m e in
  r.1 = false /\
  m_scene r.2 = [GText "No fixture group to control" Qt_white] /\
  m_previewHash r.2 = ∅ /\
  (m_previewTimer (init m e) = m_previewTimer e /\
   trace (init m e) = trace e /\
   m_previewHash (init m e) = ∅) /\
  (m_previewTimer (slotRestartTest m e).2 = None /\
   timerEvents (drop (length (trace e)) (trace (slotRestartTest m e).2))
     = [EvTimerStop] /\
   m_previewHash (slotRestartTest m e).2 = ∅).
Proof.
  intros Hg. cbn zeta. rewrite (createPreviewItems_none m e Hg). cbn.
  repeat split.
  - unfold init. rewrite createPreviewItems_none by exact Hg. reflexivity.
  - unfold init. rewrite createPreviewItems_none by exact Hg. reflexivity.
  - unfold init. rewrite createPreviewItems_none by exact Hg. reflexivity.
  - destruct (slotRestartTest_run m e)
      as (m2 & e2 & clicks & ok & e3 & pm & G & _ & D & T & _ & _ & _ & E & _ & ->).
    rewrite createPreviewItems_none in E by congruence.
    injection E as <- <-. exact T.
  - destruct (slotRestartTest_run m e)
      as (m2 & e2 & clicks & ok & e3 & pm & G & _ & D & T & Tr & Te & _ & E & _ & ->).
    rewrite createPreviewItems_none in E by congruence.
    injection E as <- <-. cbn. rewrite Tr, drop_trace. cbn.
    fold (timerEvents clicks). rewrite Te. reflexivity.
  - destruct (slotRestartTest_run m e)
      as (m2 & e2 & clicks & ok & e3 & pm & G & _ & D & T & _ & _ & _ & E & _ & ->).
    rewrite createPreviewItems_none in E by congruence.
    injection E as <- <-. reflexivity.
Qed.

(** Two editors with the same members and widgets are the same. *)
Lemma Editor_ext (a b : Editor) :
  m_doc a = m_doc b ->
  m_previewHandler a = m_previewHandler b ->
  m_scene a = m_scene b ->
  m_previewTimer a = m_previewTimer b ->
  m_previewIterator a = m_previewIterator b ->
  m_previewHash a = m_previewHash b ->
  m_testButton_isChecked a = m_testButton_isChecked b ->
  m_testButton_isEnabled a = m_testButton_isEnabled b ->
  m_shapeButton_isChecked a = m_shapeButton_isChecked b ->
  m_colorModeCombo_currentIndex a = m_colorModeCombo_currentIndex b ->
  m_startColorButton_icon a = m_startColorButton_icon b ->
  m_endColorButton_icon a = m_endColorButton_icon b ->
  trace a = trace b ->
  a = b.
Proof. destruct a, b. cbn. intros. subst. reflexivity. Qed.

(** [createPreviewItems] returns true exactly when the document has the
    matrix's group and the map it had rendered is not empty. *)
Lemma createPreviewItems_ok (m : RGBMatrix) (e : Editor) :
  (createPreviewItems m e).1 = true <->
  is_Some (fixtureGroups (m_doc e) !! fixtureGroup m) /\
  m_map (m_previewHandler (createPreviewItems m e).2) <> [].
Proof.
  unfold createPreviewItems. cbn.
  destruct (fixtureGroups (m_doc e) !! fixtureGroup m) as [grp |]; cbn.
  - match goal with |- context [m_map ?h] => destruct (m_map h) eqn:Emap end.
    + cbn. rewrite Emap. split; [discriminate | intros [_ H]; congruence].
    + match goal with |- context [foldl ?f ?a ?l] => destruct (foldl f a l) end.
      cbn. rewrite Emap. split; [intros _; split; [eauto | discriminate] | reflexivity].
  - split; [discriminate | intros [[g Hg] _]; discriminate].
Qed.

(** C6. [slotRestartTest] first stops the preview timer; if the test button
    is down it clicks it twice, which stops the matrix and starts it again:
    [m2] and [e2] are the matrix and the editor then, the editor being as it
    was but for the stopped timer and the log.  Then it makes the preview
    items on them, and the timer runs afterwards, at the scheduler's tick,
    if and only if that call of [createPreviewItems] returned true, which it
    does when the document has the matrix's group and the map rendered is
    not empty.  The stop and that start are the only calls made on the
    timer.  A disabled button ignores clicks: the statement is for a button
    that is not both down and disabled, as [slotModeChanged] leaves it. *)
Theorem slotRestartTest_timer (m : RGBMatrix) (e : Editor) :
  button_ok e ->
  let clicks :=
    if m_testButton_isChecked e
    then [EvTestClick; EvMatrixStopAndWait; EvTestClick; EvMatrixStart]
    else [] in
  let m2 := if m_testButton_isChecked e then start (stopAndWait m) else m in
  let e2 := mkEditor (m_doc e) (m_previewHandler e) (m_scene e) None
              (m_previewIterator e) (m_previewHash e) (m_testButton_isChecked e)
              (m_testButton_isEnabled e) (m_shapeButton_isChecked e)
              (m_colorModeCombo_currentIndex e) (m_startColorButton_icon e)
              (m_endColorButton_icon e) (trace e ++ EvTimerStop :: clicks) in
  let c := createPreviewItems m2 e2 in
  let r := slotRestartTest m e in
  r.1 = m2 /\
  r.2 = (if c.1 then timer_start tick c.2 else c.2) /\
  running m2 = (if m_testButton_isChecked e then true else running m) /\
  m_previewTimer r.2 = (if c.1 then Some tick else None) /\
  (m_previewTimer r.2 = Some tick <-> c.1 = true) /\
  (c.1 = true <->
   is_Some (fixtureGroups (m_doc e) !! fixtureGroup m) /\
   m_map (m_previewHandler r.2) <> []) /\
  exists pm,
    trace c.2 = trace e2 ++ map EvPreviewMap pm /\
    trace r.2 = trace e ++ EvTimerStop :: clicks ++ map EvPreviewMap pm
                  ++ (if c.1 then [EvTimerStart tick] else []) /\
    timerEvents (drop (length (trace e)) (trace r.2))
      = EvTimerStop :: (if c.1 then [EvTimerStart tick] else []).
Proof.
  intros Hinv. unfold button_ok in Hinv. cbn zeta. unfold slotRestartTest.
  change (m_testButton_isChecked (timer_stop e)) with (m_testButton_isChecked e).
  set (clicks := if m_testButton_isChecked e
                 then [EvTestClick; EvMatrixStopAndWait; EvTestClick; EvMatrixStart]
                 else []).
  set (m2 := if m_testButton_isChecked e then start (stopAndWait m) else m).
  set (e2 := mkEditor _ _ _ _ _ _ _ _ _ _ _ _ _).
  assert (Hc : (if m_testButton_isChecked e
                then let '(m', e') := m_testButton_click m (timer_stop e) in
                     m_testButton_click m' e'
                else (m, timer_stop e)) = (m2, e2)).
  { subst clicks m2 e2. destruct (m_testButton_isChecked e) eqn:Hc.
    - specialize (Hinv eq_refl).
      rewrite (m_testButton_click_checked m (timer_stop e)) by assumption.
      rewrite m_testButton_click_unchecked by reflexivity || assumption.
      f_equal. apply Editor_ext; try reflexivity.
      cbn. rewrite <- !app_assoc. reflexivity.
    - f_equal. apply Editor_ext; try reflexivity. cbn. exact Hc. }
  rewrite Hc.
  assert (Hgrp : fixtureGroups (m_doc e2) !! fixtureGroup m2
                 = fixtureGroups (m_doc e) !! fixtureGroup m).
  { subst m2 e2. destruct (m_testButton_isChecked e); reflexivity. }
  assert (Hrun : running m2 = (if m_testButton_isChecked e then true else running m)).
  { subst m2. destruct (m_testButton_isChecked e); reflexivity. }
  pose proof (createPreviewItems_ok m2 e2) as Hok. rewrite Hgrp in Hok.
  assert (Tr2 : trace e2 = trace e ++ EvTimerStop :: clicks) by reflexivity.
  assert (T2 : m_previewTimer e2 = None) by reflexivity.
  clearbody e2 m2.
  destruct (createPreviewItems m2 e2) as [ok e3] eqn:E.
  destruct (createPreviewItems_eq _ _ _ _ E) as (T3 & _ & _ & _ & pm & Tr3).
  cbn [fst snd] in *.
  assert (Htr : trace (if ok then timer_start tick e3 else e3)
                = trace e ++ EvTimerStop :: clicks ++ map EvPreviewMap pm
                    ++ (if ok then [EvTimerStart tick] else [])).
  { destruct ok; cbn; rewrite Tr3, Tr2; cbn; rewrite <- ?app_assoc; cbn;
      rewrite ?app_nil_r; reflexivity. }
  split; [destruct ok; reflexivity |].
  split; [destruct ok; reflexivity |].
  split; [exact Hrun |].
  split; [destruct ok; cbn; [reflexivity | rewrite T3, T2; reflexivity] |].
  split.
  { destruct ok; cbn; [split; reflexivity |].
    rewrite T3, T2. split; discriminate. }
  split.
  { destruct ok; cbn; exact Hok. }
  exists pm. split; [exact Tr3 |]. split.
  - destruct ok; exact Htr.
  - assert (Hd : drop (length (trace e))
                    (trace (if ok then (m2, timer_start tick e3) else (m2, e3)).2)
                  = EvTimerStop :: clicks ++ map EvPreviewMap pm
                      ++ (if ok then [EvTimerStart tick] else [])).
    { rewrite <- (drop_trace (trace e)). f_equal. rewrite <- Htr.
      destruct ok; reflexivity. }
    rewrite Hd. change (EvTimerStop :: ?l) with ([EvTimerStop] ++ l).
    rewrite !timerEvents_app, timerEvents_previewMap.
    subst clicks. destruct (m_testButton_isChecked e), ok; reflexivity.
Qed.

(** *** The algorithm mutex *)

Lemma guarded_neutral (l r : list Event) (held : bool) :
  forallb neutral l = true -> guarded held (l ++ r) = guarded held r.
Proof.
  induction l as [| ev l IH]; intros N; [reflexivity |].
  cbn in N. apply andb_true_iff in N as [Nev Nl].
  destruct ev; cbn in Nev; try discriminate; cbn; auto.
Qed.

Lemma observable_neutral (l : list Event) (cur a : option RGBAlgorithm) :
  forallb neutral l = true -> In a (observable false cur l) -> a = cur.
Proof.
  induction l as [| ev l IH]; intros N Hin.
  - cbn in Hin. destruct Hin as [<- | []]. reflexivity.
  - cbn in N. apply andb_true_iff in N as [Nev Nl].
    destruct ev; cbn in Nev; try discriminate;
      cbn in Hin; destruct Hin as [<- | Hin]; auto.
Qed.

(** While the mutex is held nothing is seen, whatever the setters do; what
    is seen after the release is the algorithm the last setter left. *)
Lemma observable_held (mid : list RGBAlgorithm) (a' : RGBAlgorithm)
    (rest : list Event) (cur a : option RGBAlgorithm) :
  forallb neutral rest = true ->
  In a (observable true cur (map EvSetAlgo mid ++ EvSetAlgo a' :: EvUnlock :: rest)) ->
  a = Some a'.
Proof.
  intros N. revert cur. induction mid as [| b mid IH]; intros cur Hin.
  - cbn in Hin. exact (observable_neutral _ _ _ N Hin).
  - cbn in Hin. exact (IH _ Hin).
Qed.

Lemma guarded_locked_run (mid : list RGBAlgorithm) (a' : RGBAlgorithm)
    (rest : list Event) :
  forallb neutral rest = true ->
  guarded false (EvLock :: map EvSetAlgo mid ++ EvSetAlgo a' :: EvUnlock :: rest) = true.
Proof.
  intros N. cbn. induction mid as [| b mid IH]; cbn; [| exact IH].
  rewrite <- (app_nil_r rest), guarded_neutral by exact N. reflexivity.
Qed.

Lemma observable_locked_run (mid : list RGBAlgorithm) (a' : RGBAlgorithm)
    (rest : list Event) (cur a : option RGBAlgorithm) :
  forallb neutral rest = true ->
  In a (observable false cur
          (EvLock :: map EvSetAlgo mid ++ EvSetAlgo a' :: EvUnlock :: rest)) ->
  a = cur \/ a = Some a'.
Proof.
  intros N Hin. cbn in Hin. destruct Hin as [<- | Hin]; [auto |].
  right. exact (observable_held _ _ _ _ _ N Hin).
Qed.

(** [slotRestartTest] neither touches the mutex nor the algorithm. *)
Lemma slotRestartTest_neutral (m : RGBMatrix) (e : Editor) :
  exists evs,
    trace (slotRestartTest m e).2 = trace e ++ evs /\
    forallb neutral evs = true /\
    algorithm (slotRestartTest m e).1 = algorithm m.
Proof.
  destruct (slotRestartTest_run m e)
    as (m2 & e2 & clicks & ok & e3 & pm & _ & A & _ & _ & Tr & _ & N & _ & Tr3 & ->).
  exists (EvTimerStop :: clicks ++ map EvPreviewMap pm
            ++ (if ok then [EvTimerStart tick] else [])).
  repeat split.
  - destruct ok; cbn; rewrite Tr3, Tr; cbn; rewrite <- ?app_assoc; cbn;
      rewrite ?app_nil_r; reflexivity.
  - cbn. rewrite !forallb_app, N, neutral_previewMap. destruct ok; reflexivity.
  - exact A.
Qed.

(** One guarded run: the mutex is taken, the setters [mid] and then the one
    that leaves [a'] are called, the mutex is released and the test is
    restarted. *)
Lemma locked_run (m m2 : RGBMatrix) (e e3 : Editor) (mid : list RGBAlgorithm)
    (a' : RGBAlgorithm) :
  algorithm m2 = Some a' ->
  trace e3 = trace e ++ EvLock :: map EvSetAlgo mid ++ [EvSetAlgo a'; EvUnlock] ->
  let r := slotRestartTest m2 e3 in
  algorithm r.1 = Some a' /\
  exists evs,
    trace r.2 = trace e ++ evs /\
    guarded false evs = true /\
    forall a, In a (observable false (algorithm m) evs) ->
              a = algorithm m \/ a = algorithm r.1.
Proof.
  intros Ha Tr. cbn zeta.
  destruct (slotRestartTest_neutral m2 e3) as (rest & TrR & N & A).
  split; [congruence |].
  exists (EvLock :: map EvSetAlgo mid ++ EvSetAlgo a' :: EvUnlock :: rest).
  repeat split.
  - rewrite TrR, Tr. rewrite <- !app_assoc. cbn. rewrite <- !app_assoc. reflexivity.
  - apply guarded_locked_run, N.
  - intros a Hin. rewrite A, Ha. eapply observable_locked_run; eauto.
Qed.

(** A slot that returns at once. *)
Lemma idle_run (m : RGBMatrix) (e : Editor) :
  exists evs,
    trace e = trace e ++ evs /\
    guarded false evs = true /\
    forall a, In a (observable false (algorithm m) evs) ->
              a = algorithm m \/ a = algorithm m.
Proof.
  exists []. rewrite app_nil_r. repeat split.
  intros a [<- | []]. auto.
Qed.

Ltac single_setter m e a' :=
  apply (locked_run m (storeAlgorithm a' m) e _ [] a');
  [reflexivity | cbn; rewrite <- !app_assoc; reflexivity].

(** C7. Whatever signal of the text, image and offset widgets arrives, the
    slot it runs calls the setters of the shared algorithm only between
    taking and releasing the matrix's algorithm mutex, takes and releases
    it in turn and leaves it free; and at every moment the mutex is free
    the algorithm is either as it was before the slot or as the slot leaves
    it, so a reader that holds the mutex never finds it between the two. *)
Theorem algorithm_setters_locked (s : AlgorithmSignal) (m : RGBMatrix) (e : Editor) :
  let r := dispatch s m e in
  exists evs,
    trace r.2 = trace e ++ evs /\
    guarded false evs = true /\
    forall a, In a (observable false (algorithm m) evs) ->
              a = algorithm m \/ a = algorithm r.1.
Proof.
  destruct s as [text | dialog | text | imageEdit | path | text | xSpin ySpin];
    cbn [dispatch].
  - unfold slotTextEdited.
    destruct (algorithm m) as [[n | | | t | i] |] eqn:Ha;
      try (rewrite <- Ha; apply idle_run).
    cbn [algoSet]. rewrite <- Ha. single_setter m e (Text (setText text t)).
  - unfold slotFontButtonClicked.
    destruct (algorithm m) as [[n | | | t | i] |] eqn:Ha;
      try (rewrite <- Ha; apply idle_run).
    destruct dialog as [font |]; [| rewrite <- Ha; apply idle_run].
    cbn [algoSet]. rewrite <- Ha. single_setter m e (Text (setFont font t)).
  - unfold slotAnimationActivated.
    destruct (algorithm m) as [[n | | | t | i] |] eqn:Ha;
      try (rewrite <- Ha; apply idle_run).
    cbn [algoSet]. rewrite <- Ha.
    single_setter m e (Text (text_setAnimationStyle text t)).
  - unfold slotImageEdited.
    destruct (algorithm m) as [[n | | | t | i] |] eqn:Ha;
      try (rewrite <- Ha; apply idle_run).
    cbn [algoSet]. rewrite <- Ha. single_setter m e (Image (setFilename imageEdit i)).
  - unfold slotImageButtonClicked.
    destruct (algorithm m) as [[n | | | t | i] |] eqn:Ha;
      try (rewrite <- Ha; apply idle_run).
    destruct (negb (path =? "")%string); [| rewrite <- Ha; apply idle_run].
    cbn [algoSet]. rewrite <- Ha. single_setter m e (Image (setFilename path i)).
  - unfold slotImageAnimationActivated.
    destruct (algorithm m) as [[n | | | t | i] |] eqn:Ha;
      try (rewrite <- Ha; apply idle_run).
    cbn [algoSet]. rewrite <- Ha.
    single_setter m e (Image (image_setAnimationStyle text i)).
  - unfold slotOffsetSpinChanged.
    destruct (algorithm m) as [[n | | | t | i] |] eqn:Ha.
    + rewrite Ha, <- Ha. apply idle_run.
    + rewrite Ha, <- Ha. apply idle_run.
    + rewrite Ha, <- Ha. apply idle_run.
    + cbn [algoSet].
      set (t1 := text_setXOffset xSpin t). set (t2 := text_setYOffset ySpin t1).
      set (m3 := storeAlgorithm (Text t2) (storeAlgorithm (Text t1) m)).
      match goal with |- context [slotRestartTest m3 ?e3] => set (e4 := e3) end.
      assert (L := locked_run m m3 e e4 [Text t1] (Text t2) eq_refl).
      cbn zeta in L. rewrite Ha in L.
      destruct L as (A & L);
        [subst e4; cbn; rewrite <- !app_assoc; reflexivity |].
      destruct (slotRestartTest m3 e4) as [m' e'] eqn:E. cbn in A, L.
      rewrite A in L. cbn. rewrite A. cbn. rewrite ?A. exact L.
    + rewrite Ha. cbn [algoSet].
      set (i1 := image_setXOffset xSpin i). set (i2 := image_setYOffset ySpin i1).
      set (m3 := storeAlgorithm (Image i2) (storeAlgorithm (Image i1) m)).
      match goal with |- context [slotRestartTest m3 ?e3] => set (e4 := e3) end.
      assert (L := locked_run m m3 e e4 [Image i1] (Image i2) eq_refl).
      cbn zeta in L. rewrite Ha in L.
      destruct L as (A & L);
        [subst e4; cbn; rewrite <- !app_assoc; reflexivity |].
      exact L.
    + rewrite Ha, <- Ha. apply idle_run.
Qed.

(** *** The preview timeout *)

Lemma set_iterator_same (e : Editor) : set_iterator (m_previewIterator e) e = e.
Proof. destruct e. reflexivity. Qed.

Lemma set_iterator_twice (i j : Z) (e : Editor) :
  set_iterator i (set_iterator j e) = set_iterator i e.
Proof. reflexivity. Qed.

Lemma advancePreview_iter_set_iterator (m : RGBMatrix) (n : nat) (i : Z) (e : Editor) :
  Nat.iter n (advancePreview m) (set_iterator i e)
  = set_iterator i (Nat.iter n (advancePreview m) e).
Proof.
  induction n as [| n IH]; [reflexivity |].
  rewrite !Nat.iter_succ, IH. reflexivity.
Qed.

(** Each turn calls [previewMap] once and leaves the items alone. *)
Lemma advancePreview_iter_frame (m : RGBMatrix) (n : nat) (e : Editor) :
  let e' := Nat.iter n (advancePreview m) e in
  m_previewIterator e' = m_previewIterator e /\
  m_previewHash e' = m_previewHash e /\
  m_scene e' = m_scene e /\
  exists pm, length pm = n /\ trace e' = trace e ++ map EvPreviewMap pm.
Proof.
  induction n as [| n IH]; cbn zeta.
  - repeat split. exists []. split; [reflexivity |]. cbn. symmetry. apply app_nil_r.
  - rewrite Nat.iter_succ. cbn zeta in IH. destruct IH as (I & H & S & pm & L & Tr).
    cbn. repeat split; try assumption.
    eexists (pm ++ [_]). split.
    + rewrite length_app. cbn. lia.
    + rewrite Tr, map_app, app_assoc. reflexivity.
Qed.

(** The while loop at an iterator that holds [n] whole intervals: [n] turns,
    and what is left of the iterator stays. *)
Lemma previewLoop_turns (m : RGBMatrix) (n : nat) :
  forall (fuel : nat) (elapsed : Z) (e : Editor),
    0 < MAX (duration m) tick ->
    (n <= fuel)%nat ->
    Z.of_nat n * MAX (duration m) tick <= m_previewIterator e
      < (Z.of_nat n + 1) * MAX (duration m) tick ->
    m_previewIterator e < 2 ^ 32 ->
    exists elapsed',
      previewLoop fuel m elapsed e
      = (elapsed',
         set_iterator (m_previewIterator e - Z.of_nat n * MAX (duration m) tick)
           (Nat.iter n (advancePreview m) e)).
Proof.
  set (mx := MAX (duration m) tick).
  induction n as [| n IH]; intros fuel elapsed e Hmx Hfuel Hit H32.
  - exists elapsed. change (Nat.iter 0 (advancePreview m) e) with e.
    replace (m_previewIterator e - Z.of_nat 0 * mx) with (m_previewIterator e) by lia.
    rewrite set_iterator_same.
    destruct fuel as [| fuel]; [reflexivity |]. cbn [previewLoop]. fold mx.
    destruct (mx <=? m_previewIterator e) eqn:E; [lia | reflexivity].
  - destruct fuel as [| fuel]; [lia |]. cbn [previewLoop]. fold mx.
    destruct (mx <=? m_previewIterator e) eqn:E; [| lia].
    change (m_previewIterator (advancePreview m e)) with (m_previewIterator e).
    assert (Hw : wrap32 (m_previewIterator e - mx) = m_previewIterator e - mx).
    { unfold wrap32. apply Z.mod_small. lia. }
    rewrite Hw.
    destruct (IH fuel (wrap32 (elapsed + mx))
                (set_iterator (m_previewIterator e - mx) (advancePreview m e)))
      as (elapsed' & Heq).
    + exact Hmx.
    + lia.
    + cbn. lia.
    + cbn. lia.
    + rewrite Heq. exists elapsed'. f_equal.
      rewrite advancePreview_iter_set_iterator, Nat.iter_succ_r.
      rewrite set_iterator_twice. f_equal.
      change (m_previewIterator (set_iterator ?i _)) with i. lia.
Qed.






(** *** The export loop *)

Lemma stride_S (c i : Z) (n : nat) : stride c i (S n) = c :: stride (c + i) i n.
Proof.
  unfold stride. cbn [seq map]. f_equal; [lia |].
  rewrite <- seq_shift, map_map. apply map_ext. intros k. lia.
Qed.

Lemma stride_length (c i : Z) (n : nat) : length (stride c i n) = n.
Proof. unfold stride. rewrite length_map. apply length_seq. Qed.

Lemma previewMapCalls_map (pm : list Z) : previewMapCalls (map EvPreviewMap pm) = pm.
Proof. induction pm as [| s pm IH]; [reflexivity |]. cbn. f_equal. exact IH. Qed.

(** One turn of the loop: one call of [previewMap] at the current index and
    one more step at the end of the sequence; the document, the timer and
    the button stay. *)
Lemma exportStep_frame (m : RGBMatrix) (grp : FixtureGroup) (sid T : Z)
    (l : ExportLoop) :
  let l' := exportStep m grp sid T l in
  m_doc (loop_editor l') = m_doc (loop_editor l) /\
  m_previewTimer (loop_editor l') = m_previewTimer (loop_editor l) /\
  m_testButton_isChecked (loop_editor l') = m_testButton_isChecked (loop_editor l) /\
  m_testButton_isEnabled (loop_editor l') = m_testButton_isEnabled (loop_editor l) /\
  trace (loop_editor l') = trace (loop_editor l) ++ [EvPreviewMap (currentStep l)] /\
  boundSceneID (sequence l') = boundSceneID (sequence l) /\
  exists st, exported_step m sid st /\
             steps (sequence l') = steps (sequence l) ++ [st].
Proof.
  unfold exportStep.
  destruct ((currentStep l + increment l =? T) && RunOrder_eqb (runOrder m) PingPong);
    cbn; repeat split; eexists; (split; [| reflexivity]);
    unfold exported_step; cbn; repeat split; eexists; reflexivity.
Qed.

(** Where the next turn starts, unless the turn ended on the bounce. *)
Lemma exportStep_next (m : RGBMatrix) (grp : FixtureGroup) (sid T : Z)
    (l : ExportLoop) :
  (currentStep l + increment l =? T) && RunOrder_eqb (runOrder m) PingPong = false ->
  currentStep (exportStep m grp sid T l) = currentStep l + increment l /\
  increment (exportStep m grp sid T l) = increment l.
Proof. intros H. unfold exportStep. rewrite H. split; reflexivity. Qed.

Lemma exportLoop_frame (m : RGBMatrix) (grp : FixtureGroup) (sid T : Z) (n : nat) :
  forall l : ExportLoop,
    let l' := exportLoop n m grp sid T l in
    m_doc (loop_editor l') = m_doc (loop_editor l) /\
    m_previewTimer (loop_editor l') = m_previewTimer (loop_editor l) /\
    m_testButton_isChecked (loop_editor l') = m_testButton_isChecked (loop_editor l) /\
    m_testButton_isEnabled (loop_editor l') = m_testButton_isEnabled (loop_editor l) /\
    boundSceneID (sequence l') = boundSceneID (sequence l) /\
    exists news, length news = n /\ Forall (exported_step m sid) news /\
                 steps (sequence l') = steps (sequence l) ++ news.
Proof.
  induction n as [| n IH]; intros l; cbn zeta.
  - cbn. repeat split. exists []. rewrite app_nil_r. repeat split. constructor.
  - cbn [exportLoop].
    destruct (exportStep_frame m grp sid T l) as (D & Ti & C & En & _ & B & st & Hst & S).
    destruct (IH (exportStep m grp sid T l)) as (D' & Ti' & C' & En' & B' & news & L & F & S').
    repeat split; try congruence.
    exists (st :: news). repeat split.
    + cbn. lia.
    + constructor; assumption.
    + rewrite S', S, <- app_assoc. reflexivity.
Qed.

(** The indices the loop gives to [previewMap], as long as no turn but the
    last ends on the bounce. *)
Lemma exportLoop_visits (m : RGBMatrix) (grp : FixtureGroup) (sid T : Z) (n : nat) :
  forall l : ExportLoop,
    (forall k : nat, (1 <= k < n)%nat ->
       (currentStep l + Z.of_nat k * increment l =? T)
       && RunOrder_eqb (runOrder m) PingPong = false) ->
    trace (loop_editor (exportLoop n m grp sid T l))
    = trace (loop_editor l)
        ++ map EvPreviewMap (stride (currentStep l) (increment l) n).
Proof.
  induction n as [| n IH]; intros l Hk.
  - cbn. symmetry. apply app_nil_r.
  - cbn [exportLoop]. rewrite stride_S.
    destruct (exportStep_frame m grp sid T l) as (_ & _ & _ & _ & Tr & _).
    destruct n as [| n].
    + cbn [exportLoop]. rewrite Tr. reflexivity.
    + assert (H1 : (currentStep l + increment l =? T)
                   && RunOrder_eqb (runOrder m) PingPong = false).
      { specialize (Hk 1%nat ltac:(lia)).
        replace (currentStep l + Z.of_nat 1 * increment l)
          with (currentStep l + increment l) in Hk by lia.
        exact Hk. }
      destruct (exportStep_next m grp sid T l H1) as (Hc & Hi).
      rewrite IH.
      * rewrite Tr, Hc, Hi, <- app_assoc. reflexivity.
      * intros k Hkk. rewrite Hc, Hi. specialize (Hk (S k) ltac:(lia)).
        replace (currentStep l + increment l + Z.of_nat k * increment l)
          with (currentStep l + Z.of_nat (S k) * increment l) by lia.
        exact Hk.
Qed.

(** The loop's variables where the loop starts. *)
Lemma exportInit_eq (m : RGBMatrix) (sid : Z) (e : Editor) :
  let n := stepsCount (m_doc e) m in
  let r := exportInit m sid e in
  r.1 = (if RunOrder_eqb (runOrder m) PingPong then n * 2 - 1 else n) /\
  currentStep r.2 = (if Direction_eqb (direction m) Backward then n - 1 else 0) /\
  increment r.2 = (if Direction_eqb (direction m) Backward then -1 else 1) /\
  steps (sequence r.2) = [] /\
  boundSceneID (sequence r.2) = sid /\
  m_doc (loop_editor r.2) = m_doc e /\
  m_previewTimer (loop_editor r.2) = m_previewTimer e /\
  m_testButton_isChecked (loop_editor r.2) = m_testButton_isChecked e /\
  m_testButton_isEnabled (loop_editor r.2) = m_testButton_isEnabled e /\
  trace (loop_editor r.2) = trace e.
Proof.
  unfold exportInit.
  destruct (Direction_eqb (direction m) Backward); [destruct (isValid (endColor m)) |];
    cbn; repeat split.
Qed.

(** The export run: as many steps as the loop has turns, each made from the
    matrix's speeds for the scene, and nothing else of the editor touched. *)
Lemma exportRun_frame (m : RGBMatrix) (grp : FixtureGroup) (sid : Z) (e : Editor) :
  let n := stepsCount (m_doc e) m in
  let total := if RunOrder_eqb (runOrder m) PingPong then n * 2 - 1 else n in
  let l := exportRun m grp sid e in
  m_doc (loop_editor l) = m_doc e /\
  m_previewTimer (loop_editor l) = m_previewTimer e /\
  m_testButton_isChecked (loop_editor l) = m_testButton_isChecked e /\
  m_testButton_isEnabled (loop_editor l) = m_testButton_isEnabled e /\
  boundSceneID (sequence l) = sid /\
  length (steps (sequence l)) = Z.to_nat total /\
  Forall (exported_step m sid) (steps (sequence l)).
Proof.
  cbn zeta. unfold exportRun.
  pose proof (exportInit_eq m sid e) as I. cbn zeta in I.
  destruct (exportInit m sid e) as [T l0]. cbn [fst snd] in I.
  destruct I as (HT & _ & _ & S0 & B0 & D0 & T0 & C0 & E0 & _).
  destruct (exportLoop_frame m grp sid T (Z.to_nat T) l0)
    as (D & Ti & C & En & B & news & L & F & S).
  rewrite S0 in S. cbn in S. rewrite S, <- HT.
  repeat split; congruence.
Qed.

(** The indices of the export run: from 0 upwards, or from the last step
    downwards, one per turn. *)
Lemma exportRun_visits (m : RGBMatrix) (grp : FixtureGroup) (sid : Z) (e : Editor) :
  let n := stepsCount (m_doc e) m in
  let total := if RunOrder_eqb (runOrder m) PingPong then n * 2 - 1 else n in
  trace (loop_editor (exportRun m grp sid e))
  = trace e ++ map EvPreviewMap
                 (match direction m with
                  | Forward => stride 0 1 (Z.to_nat total)
                  | Backward => stride (n - 1) (-1) (Z.to_nat total)
                  end).
Proof.
  cbn zeta. unfold exportRun.
  pose proof (exportInit_eq m sid e) as I. cbn zeta in I.
  destruct (exportInit m sid e) as [T l0]. cbn [fst snd] in I.
  destruct I as (HT & Hc & Hi & _ & _ & _ & _ & _ & _ & Tr).
  rewrite exportLoop_visits.
  - rewrite Tr, Hc, Hi, <- HT. destruct (direction m); reflexivity.
  - intros k Hk. rewrite Hc, Hi.
    destruct (RunOrder_eqb (runOrder m) PingPong) eqn:Ero;
      [| apply andb_false_r].
    rewrite andb_true_r. apply Z.eqb_neq.
    destruct (direction m); cbn [Direction_eqb]; lia.
Qed.

(** In the loop and single-shot orders the indices run one way through the
    steps of the matrix and lie among them. *)
Lemma exportRun_visits_one_way (m : RGBMatrix) (grp : FixtureGroup) (sid : Z)
    (e : Editor) :
  runOrder m <> PingPong ->
  let n := stepsCount (m_doc e) m in
  let visits := previewMapCalls
                  (drop (length (trace e)) (trace (loop_editor (exportRun m grp sid e)))) in
  visits = match direction m with
           | Forward => stride 0 1 (Z.to_nat n)
           | Backward => stride (n - 1) (-1) (Z.to_nat n)
           end /\
  Forall (fun s => 0 <= s < n) visits.
Proof.
  intros Hro. cbn zeta. rewrite exportRun_visits, drop_trace, previewMapCalls_map.
  assert (Ero : RunOrder_eqb (runOrder m) PingPong = false)
    by (destruct (runOrder m); [reflexivity | congruence | reflexivity]).
  rewrite Ero. split; [reflexivity |].
  apply List.Forall_forall. intros s Hs.
  destruct (direction m); unfold stride in Hs; apply in_map_iff in Hs;
    destruct Hs as (k & <- & Hk); apply in_seq in Hk; lia.
Qed.

(** In the ping-pong order run forwards the loop never turns back: it goes
    on upwards through all its turns, past the last step of the grid. *)
Lemma exportRun_visits_pingpong_forward (m : RGBMatrix) (grp : FixtureGroup)
    (sid : Z) (e : Editor) :
  runOrder m = PingPong ->
  direction m = Forward ->
  let n := stepsCount (m_doc e) m in
  previewMapCalls
    (drop (length (trace e)) (trace (loop_editor (exportRun m grp sid e))))
  = stride 0 1 (Z.to_nat (n * 2 - 1)).
Proof.
  intros Hro Hdir. cbn zeta.
  rewrite exportRun_visits, drop_trace, previewMapCalls_map, Hro, Hdir. reflexivity.
Qed.

(** *** The sort *)

Section Sort.
Hypothesis SWO : StrictWeakOrder SceneValue_lt.

Lemma lt_asym (a b : SceneValue) :
  SceneValue_lt a b = true -> SceneValue_lt b a = false.
Proof.
  intros Hab. destruct (SceneValue_lt b a) eqn:Hba; [| reflexivity].
  pose proof (swo_trans _ SWO a b a Hab Hba) as Haa.
  rewrite (swo_irrefl _ SWO a) in Haa. discriminate.
Qed.

(** "Not below" is transitive. *)
Lemma not_lt_trans (a b c : SceneValue) :
  SceneValue_lt b a = false -> SceneValue_lt c b = false ->
  SceneValue_lt c a = false.
Proof.
  intros Hba Hcb. destruct (SceneValue_lt c a) eqn:Hca; [| reflexivity].
  destruct (SceneValue_lt a b) eqn:Hab.
  { rewrite (swo_trans _ SWO c a b Hca Hab) in Hcb. discriminate. }
  destruct (SceneValue_lt b c) eqn:Hbc.
  { rewrite (swo_trans _ SWO b c a Hbc Hca) in Hba. discriminate. }
  destruct (swo_incomp _ SWO a b c Hab Hba Hbc Hcb) as [_ H]. congruence.
Qed.

Lemma sort_insert_Forall (P : SceneValue -> Prop) (v : SceneValue)
    (l : list SceneValue) :
  P v -> Forall P l -> Forall P (sort_insert v l).
Proof.
  intros Hv Hl. induction Hl as [| w l Hw Hl IH]; cbn.
  - constructor; [assumption | constructor].
  - destruct (SceneValue_lt v w); repeat constructor; assumption.
Qed.

Lemma sort_insert_ascending (v : SceneValue) (l : list SceneValue) :
  ascending SceneValue_lt l -> ascending SceneValue_lt (sort_insert v l).
Proof.
  unfold ascending. intros Hl. induction Hl as [| w l Hl IH Hw]; cbn.
  - repeat constructor.
  - destruct (SceneValue_lt v w) eqn:Hvw.
    + constructor; [constructor; assumption |].
      constructor; [exact (lt_asym _ _ Hvw) |].
      eapply List.Forall_impl; [| exact Hw]. cbn. intros x Hx.
      exact (not_lt_trans v w x (lt_asym _ _ Hvw) Hx).
    + constructor; [exact IH |].
      apply sort_insert_Forall; assumption.
Qed.

Lemma std_sort_ascending (l : list SceneValue) :
  ascending SceneValue_lt (std_sort l).
Proof.
  induction l as [| v l IH]; cbn.
  - constructor.
  - apply sort_insert_ascending, IH.
Qed.

End Sort.

(** The sort keeps the values: it only reorders them. *)
Lemma sort_insert_perm (v : SceneValue) (l : list SceneValue) :
  Permutation (v :: l) (sort_insert v l).
Proof.
  induction l as [| w l IH]; cbn; [reflexivity |].
  destruct (SceneValue_lt v w); [reflexivity |].
  rewrite perm_swap. constructor. exact IH.
Qed.

Lemma std_sort_perm (l : list SceneValue) : Permutation l (std_sort l).
Proof.
  induction l as [| v l IH]; cbn; [reflexivity |].
  rewrite <- sort_insert_perm. constructor. exact IH.
Qed.

(** *** The export *)

Lemma setRunning_same (m : RGBMatrix) : setRunning (running m) m = m.
Proof. destruct m. reflexivity. Qed.

(** A click changes nothing of the matrix but whether it runs. *)
Lemma m_testButton_click_matrix (m : RGBMatrix) (e : Editor) :
  exists b, (m_testButton_click m e).1 = setRunning b m.
Proof.
  unfold m_testButton_click, slotTestClicked.
  destruct (m_testButton_isEnabled e); cbn.
  - destruct (m_testButton_isChecked e); cbn; eexists; reflexivity.
  - exists (running m). symmetry. apply setRunning_same.
Qed.

Lemma exported_step_setRunning (b : bool) (m : RGBMatrix) (sid : Z) (st : ChaserStep) :
  exported_step (setRunning b m) sid st -> exported_step m sid st.
Proof. unfold exported_step. cbn. tauto. Qed.

(** The zeros go to the scene's values: its name stays. *)
Lemma sceneOfHead_name (d : Doc) (s : Scene) (h : GroupHead) :
  scene_name (sceneOfHead d s h) = scene_name s.
Proof.
  unfold sceneOfHead. destruct (fixtures d !! head_fxi h) as [fxi |]; [| reflexivity].
  destruct (negb _);
    destruct (rgbChannels fxi (head_head h)) as [| ? [| ? [| ? [| ? ?]]]];
    reflexivity.
Qed.

Lemma sceneOfHeads_name (d : Doc) (hs : list GroupHead) :
  forall s : Scene, scene_name (foldl (sceneOfHead d) s hs) = scene_name s.
Proof.
  induction hs as [| h hs IH]; intros s; [reflexivity |].
  cbn. rewrite IH. apply sceneOfHead_name.
Qed.

(** What the export registers with the document: after the functions that
    were there, the scene, under the id the document gave it, and the
    sequence bound to that id, whose steps are all made for that scene from
    the matrix's speeds. *)
Lemma saveToSequence_doc (m : RGBMatrix) (grp : FixtureGroup) (e : Editor) :
  let r := saveToSequence m grp e in
  exists sc sq,
    functions (m_doc r.2) = functions (m_doc e) ++ [FScene sc; FSequence sq] /\
    scene_id sc = latestFunctionId (m_doc e) /\
    scene_name sc = group_name grp /\
    boundSceneID sq = scene_id sc /\
    Forall (exported_step m (scene_id sc)) (steps sq).
Proof.
  cbn zeta. unfold saveToSequence.
  assert (Hc : exists m1 e1 b,
             (if m_testButton_isChecked e then m_testButton_click m e
              else (m, timer_stop e)) = (m1, e1) /\
             m1 = setRunning b m /\ m_doc e1 = m_doc e).
  { destruct (m_testButton_isChecked e).
    - destruct (m_testButton_click_matrix m e) as (b & Hb).
      pose proof (m_testButton_click_frame m e) as F. cbn zeta in F.
      destruct (m_testButton_click m e) as [m1 e1]. cbn in Hb, F.
      exists m1, e1, b. repeat split; tauto.
    - exists m, (timer_stop e), (running m). repeat split.
      symmetry. apply setRunning_same. }
  destruct Hc as (m1 & e1 & b & -> & Hm1 & D1).
  cbn [addFunction]. rewrite D1.
  set (grpScene := foldl _ _ _).
  set (sid := latestFunctionId (m_doc e)).
  set (d1 := mkDoc (fixtureGroups (m_doc e)) (fixtures (m_doc e))
               (functions (m_doc e) ++ [Function_setID sid (FScene grpScene)])
               (sid + 1)).
  pose proof (exportRun_frame m1 grp sid (set_doc d1 e1)) as R. cbn zeta in R.
  set (l := exportRun m1 grp sid (set_doc d1 e1)) in *.
  destruct R as (D & _ & _ & _ & B & _ & F).
  cbn [m_doc set_doc] in D.
  set (d2 := mkDoc _ _ _ _).
  assert (Hd2 : functions d2
                = functions (m_doc e)
                    ++ [FScene (mkScene sid (scene_name grpScene)
                                  (scene_visible grpScene) (scene_values grpScene));
                        Function_setID (latestFunctionId d1) (FSequence (sequence l))]).
  { subst d2. cbn [functions]. rewrite D. subst d1. cbn. rewrite <- app_assoc.
    reflexivity. }
  assert (Hname : scene_name grpScene = group_name grp).
  { subst grpScene. apply sceneOfHeads_name. }
  eexists _, _.
  assert (Hfinal : m_doc (if m_testButton_isChecked e
                          then m_testButton_click m1 (set_doc d2 (loop_editor l))
                          else let '(ok, e4) :=
                                 createPreviewItems m1 (set_doc d2 (loop_editor l)) in
                               if ok then (m1, timer_start tick e4) else (m1, e4)).2
                   = d2).
  { destruct (m_testButton_isChecked e).
    - pose proof (m_testButton_click_frame m1 (set_doc d2 (loop_editor l))) as Fc.
      cbn zeta in Fc. tauto.
    - pose proof (createPreviewItems_frame m1 (set_doc d2 (loop_editor l))) as Fc.
      cbn zeta in Fc.
      destruct (createPreviewItems m1 (set_doc d2 (loop_editor l))) as [ok e4].
      cbn [snd] in Fc. destruct Fc as (_ & Dc & _). destruct ok; exact Dc. }
  rewrite Hfinal, Hd2. cbn [Function_setID].
  split; [reflexivity |]. cbn. repeat split; try assumption.
  eapply List.Forall_impl; [| exact F]. intros st Hst. subst m1.
  eapply exported_step_setRunning. exact Hst.
Qed.

(** C3. When the matrix pointer is null, the matrix is bound to no fixture
    group, the document has no group under its group id, or it has no
    algorithm, [slotSaveToSequenceClicked] returns with the editor, the
    document and its functions, and the matrix as they were. *)
Theorem slotSaveToSequenceClicked_early_return (m_matrix : option RGBMatrix)
    (e : Editor) :
  (m_matrix = None \/
   exists m, m_matrix = Some m /\
             (fixtureGroup m = FixtureGroup_invalidId \/
              fixtureGroups (m_doc e) !! fixtureGroup m = None \/
              algorithm m = None)) ->
  let r := slotSaveToSequenceClicked m_matrix e in
  r = (m_matrix, e) /\
  functions (m_doc r.2) = functions (m_doc e) /\
  r.1 = m_matrix.
Proof.
  intros H. cbn zeta.
  assert (Hr : slotSaveToSequenceClicked m_matrix e = (m_matrix, e)).
  { unfold slotSaveToSequenceClicked.
    destruct H as [-> | (m & -> & H)]; [reflexivity |].
    destruct (fixtureGroup m =? FixtureGroup_invalidId) eqn:Eg; [reflexivity |].
    destruct H as [H | [H | H]].
    - apply Z.eqb_neq in Eg. contradiction.
    - rewrite H. reflexivity.
    - rewrite H. destruct (fixtureGroups (m_doc e) !! fixtureGroup m); reflexivity. }
  rewrite Hr. repeat split.
Qed.

(** The slot when none of its guards returns. *)
Lemma slotSaveToSequenceClicked_runs (m : RGBMatrix) (e : Editor)
    (grp : FixtureGroup) (a : RGBAlgorithm) :
  fixtureGroup m <> FixtureGroup_invalidId ->
  fixtureGroups (m_doc e) !! fixtureGroup m = Some grp ->
  algorithm m = Some a ->
  (slotSaveToSequenceClicked (Some m) e).2 = (saveToSequence m grp e).2.
Proof.
  intros Hid Hg Ha. unfold slotSaveToSequenceClicked.
  apply Z.eqb_neq in Hid. rewrite Hid, Hg, Ha.
  destruct (saveToSequence m grp e). reflexivity.
Qed.

End Properties.

(** ** The theorems at the sample installation *)

Module SampleRuns.
Import Sample.

Lemma sample_lt_swo : StrictWeakOrder sample_lt.
Proof.
  unfold sample_lt. split.
  - intros a. rewrite Z.ltb_irrefl, Z.ltb_irrefl, andb_false_r. reflexivity.
  - intros a b c.
    destruct (Z.ltb_spec (sv_fxi a) (sv_fxi b)), (Z.ltb_spec (sv_fxi b) (sv_fxi c)),
      (Z.ltb_spec (sv_fxi a) (sv_fxi c)), (Z.eqb_spec (sv_fxi a) (sv_fxi b)),
      (Z.eqb_spec (sv_fxi b) (sv_fxi c)), (Z.eqb_spec (sv_fxi a) (sv_fxi c)),
      (Z.ltb_spec (sv_channel a) (sv_channel b)),
      (Z.ltb_spec (sv_channel b) (sv_channel c)),
      (Z.ltb_spec (sv_channel a) (sv_channel c)); cbn; intros; congruence || lia.
  - intros a b c.
    destruct (Z.ltb_spec (sv_fxi a) (sv_fxi b)), (Z.ltb_spec (sv_fxi b) (sv_fxi a)),
      (Z.ltb_spec (sv_fxi b) (sv_fxi c)), (Z.ltb_spec (sv_fxi c) (sv_fxi b)),
      (Z.ltb_spec (sv_fxi a) (sv_fxi c)), (Z.ltb_spec (sv_fxi c) (sv_fxi a)),
      (Z.eqb_spec (sv_fxi a) (sv_fxi b)), (Z.eqb_spec (sv_fxi b) (sv_fxi a)),
      (Z.eqb_spec (sv_fxi b) (sv_fxi c)), (Z.eqb_spec (sv_fxi c) (sv_fxi b)),
      (Z.eqb_spec (sv_fxi a) (sv_fxi c)), (Z.eqb_spec (sv_fxi c) (sv_fxi a));
      cbn; try (intros; congruence || lia);
      destruct (Z.ltb_spec (sv_channel a) (sv_channel b)),
        (Z.ltb_spec (sv_channel b) (sv_channel a)),
        (Z.ltb_spec (sv_channel b) (sv_channel c)),
        (Z.ltb_spec (sv_channel c) (sv_channel b)),
        (Z.ltb_spec (sv_channel a) (sv_channel c)),
        (Z.ltb_spec (sv_channel c) (sv_channel a));
      cbn; intros; try (split; congruence || lia); congruence || lia.
Qed.

Lemma updateColors_grayscale_at_sample :
  (algorithm matrix_text = Some (Text text0) /\
   0 < acceptColors (Text text0) /\
   blendMode matrix_text <> MaskBlend /\
   m_colorModeCombo_currentIndex editor_dimmer <> ControlModeRgb) /\
  startColor (updateColors matrix_text editor_dimmer).1 = QColor_rgb 87 87 87 /\
  endColor (updateColors matrix_text editor_dimmer).1 = QColor_rgb 39 39 39.
Proof.
  assert (H1 : algorithm matrix_text = Some (Text text0)) by reflexivity.
  assert (H2 : 0 < acceptColors (Text text0)) by (cbn; lia).
  assert (H3 : blendMode matrix_text <> MaskBlend) by (cbn; discriminate).
  assert (H4 : m_colorModeCombo_currentIndex editor_dimmer <> ControlModeRgb)
    by (cbn; lia).
  split; [tauto |].
  destruct (updateColors_grayscale matrix_text editor_dimmer (Text text0) H1 H2 H3 H4)
    as (Hs & _ & He).
  split; [exact Hs |]. apply He. cbn. lia.
Defined.

Lemma updateColors_mask_at_sample :
  (algorithm matrix_mask = Some Plain /\
   0 < acceptColors Plain /\
   blendMode matrix_mask = MaskBlend) /\
  startColor (updateColors matrix_mask editor0).1 = Qt_white /\
  endColor (updateColors matrix_mask editor0).1 = QColor_invalid.
Proof.
  assert (H1 : algorithm matrix_mask = Some Plain) by reflexivity.
  assert (H2 : 0 < acceptColors Plain) by (cbn; lia).
  assert (H3 : blendMode matrix_mask = MaskBlend) by reflexivity.
  split; [tauto |].
  destruct (updateColors_mask matrix_mask editor0 Plain H1 H2 H3) as (Hs & He & _).
  split; assumption.
Defined.

Lemma createPreviewItems_no_group_at_sample :
  fixtureGroups (m_doc editor_testing) !! fixtureGroup matrix_unbound = None /\
  (createPreviewItems matrix_unbound editor_testing).1 = false /\
  m_previewTimer (init matrix_unbound editor0) = None /\
  m_previewTimer (slotRestartTest matrix_unbound editor_testing).2 = None.
Proof.
  assert (H1 : fixtureGroups (m_doc editor_testing) !! fixtureGroup matrix_unbound
               = None) by (vm_compute; reflexivity).
  split; [exact H1 |].
  destruct (createPreviewItems_no_group matrix_unbound editor_testing H1)
    as (Hr & _ & _ & _ & Ht & _).
  destruct (createPreviewItems_no_group matrix_unbound editor0 H1)
    as (_ & _ & _ & (Hi & _) & _).
  repeat split; assumption.
Defined.

Lemma slotRestartTest_timer_at_sample :
  (button_ok editor_testing /\ button_ok editor0) /\
  (slotRestartTest (matrix_running Loop Forward) editor_testing).1
  = matrix_running Loop Forward /\
  m_previewTimer (slotRestartTest (matrix_running Loop Forward) editor_testing).2
  = Some 20 /\
  timerEvents
    (drop (length (trace editor_testing))
       (trace (slotRestartTest (matrix_running Loop Forward) editor_testing).2))
  = [EvTimerStop; EvTimerStart 20] /\
  m_previewTimer (slotRestartTest matrix_unbound editor0).2 = None /\
  timerEvents
    (drop (length (trace editor0)) (trace (slotRestartTest matrix_unbound editor0).2))
  = [EvTimerStop].
Proof.
  assert (H1 : button_ok editor_testing) by (intros _; reflexivity).
  assert (H2 : button_ok editor0) by (intros H; discriminate H).
  split; [split; [exact H1 | exact H2] |].
  destruct (slotRestartTest_timer (matrix_running Loop Forward) editor_testing H1)
    as (Hm & _ & _ & Ht & _ & _ & pm & _ & _ & Hev).
  destruct (slotRestartTest_timer matrix_unbound editor0 H2)
    as (_ & _ & _ & Ht' & _ & _ & pm' & _ & _ & Hev').
  split; [rewrite Hm; vm_compute; reflexivity |].
  split; [rewrite Ht; vm_compute; reflexivity |].
  split; [rewrite Hev; vm_compute; reflexivity |].
  split; [rewrite Ht'; vm_compute; reflexivity |].
  rewrite Hev'. vm_compute. reflexivity.
Defined.


Lemma slotSaveToSequenceClicked_early_return_at_sample :
  (exists m, Some matrix_unbound = Some m /\
             (fixtureGroup m = FixtureGroup_invalidId \/
              fixtureGroups (m_doc editor0) !! fixtureGroup m = None \/
              algorithm m = None)) /\
  slotSaveToSequenceClicked (Some matrix_unbound) editor0
  = (Some matrix_unbound, editor0) /\
  slotSaveToSequenceClicked None editor0 = (None, editor0).
Proof.
  assert (H1 : exists m, Some matrix_unbound = Some m /\
                 (fixtureGroup m = FixtureGroup_invalidId \/
                  fixtureGroups (m_doc editor0) !! fixtureGroup m = None \/
                  algorithm m = None)).
  { exists matrix_unbound. split; [reflexivity |]. right. left.
    vm_compute. reflexivity. }
  split; [exact H1 |]. split.
  - apply (slotSaveToSequenceClicked_early_return (Some matrix_unbound) editor0).
    right. exact H1.
  - apply (slotSaveToSequenceClicked_early_return None editor0).
    left. reflexivity.
Defined.

(** C1. The export of a ping-pong matrix of three steps, run forwards while
    the test runs: the loop has its 2 * 3 - 1 = 5 turns and adds 5 steps,
    but it gives [previewMap] the indices 0, 1, 2, 3, 4 and not 0, 1, 2, 1, 0:
    the bounce is tested against the doubled [totalSteps], which the index
    only reaches after the last turn, so the indices 3 and 4 are outside of
    the three steps of the matrix. *)
Theorem export_pingpong_forward_overruns :
  let m := matrix_running PingPong Forward in
  let r := slotSaveToSequenceClicked (Some m) editor_testing in
  stepsCount (m_doc editor_testing) m = 3 /\
  previewMapCalls (trace r.2) = [0; 1; 2; 3; 4] /\
  previewMapCalls (trace r.2) <> [0; 1; 2; 1; 0] /\
  ~ Forall (fun s => 0 <= s < 3) (previewMapCalls (trace r.2)) /\
  exists sc sq, functions (m_doc r.2) = [FScene sc; FSequence sq] /\
                length (steps sq) = 5%nat.
Proof.
  cbn zeta.
  assert (Hv : previewMapCalls
                 (trace (slotSaveToSequenceClicked
                           (Some (matrix_running PingPong Forward)) editor_testing).2)
               = [0; 1; 2; 3; 4]) by (vm_compute; reflexivity).
  rewrite Hv. repeat split.
  - discriminate.
  - intros F. rewrite List.Forall_forall in F.
    specialize (F 3 ltac:(cbn; tauto)). lia.
  - eexists _, _. split; vm_compute; reflexivity.
Qed.

End SampleRuns.

(** ** More properties *)

Section MoreProperties.
Context `{X : Externals}.

(** *** Packed colours *)

Lemma testbit_255 (n : Z) : 0 <= n -> Z.testbit 255 n = (n <? 8).
Proof.
  intros Hn. change 255 with (Z.ones 8).
  destruct (Z.ltb_spec n 8).
  - apply Z.ones_spec_low. lia.
  - apply Z.ones_spec_high. lia.
Qed.

Ltac bits_of_rgb n Hn :=
  apply Z.bits_inj'; intros n Hn; unfold qRed, qGreen, qBlue, rgb;
  repeat first
    [ rewrite Z.land_spec | rewrite Z.lor_spec
    | rewrite Z.shiftr_spec by lia | rewrite Z.shiftl_spec by lia ];
  rewrite ?(testbit_255 n) by lia;
  destruct (Z.ltb_spec n 8);
  [| rewrite ?andb_false_r; reflexivity ];
  rewrite ?andb_true_r.

Lemma qRed_rgb (c : QColor) : qRed (rgb c) = Z.land (red c) 255.
Proof.
  bits_of_rgb n Hn.
  rewrite (Z.testbit_neg_r 255 (n + 16 - 24)) by lia.
  replace (n + 16 - 16) with n by lia.
  rewrite (testbit_255 n), (testbit_255 (n + 16 - 8)), (testbit_255 (n + 16)) by lia.
  destruct (Z.ltb_spec n 8), (Z.ltb_spec (n + 16 - 8) 8), (Z.ltb_spec (n + 16) 8);
    try lia.
  rewrite !andb_false_r, andb_true_r, !orb_false_r. reflexivity.
Qed.

Lemma qGreen_rgb (c : QColor) : qGreen (rgb c) = Z.land (green c) 255.
Proof.
  bits_of_rgb n Hn.
  rewrite (Z.testbit_neg_r 255 (n + 8 - 24)) by lia.
  rewrite (Z.testbit_neg_r 255 (n + 8 - 16)) by lia.
  replace (n + 8 - 8) with n by lia.
  rewrite (testbit_255 n), (testbit_255 (n + 8)) by lia.
  destruct (Z.ltb_spec n 8), (Z.ltb_spec (n + 8) 8); try lia.
  rewrite !andb_false_r, andb_true_r, !orb_false_r. reflexivity.
Qed.

Lemma qBlue_rgb (c : QColor) : qBlue (rgb c) = Z.land (blue c) 255.
Proof.
  bits_of_rgb n Hn.
  rewrite (Z.testbit_neg_r 255 (n - 24)) by lia.
  rewrite (Z.testbit_neg_r 255 (n - 16)) by lia.
  rewrite (Z.testbit_neg_r 255 (n - 8)) by lia.
  rewrite ?(testbit_255 n) by lia.
  destruct (Z.ltb_spec n 8); try lia.
  rewrite ?andb_false_r, ?andb_true_r. reflexivity.
Qed.

Lemma land_255_small (z : Z) : 0 <= z <= 255 -> Z.land z 255 = z.
Proof.
  intros Hz. change 255 with (Z.ones 8). rewrite Z.land_ones by lia.
  apply Z.mod_small. lia.
Qed.

(** The grey of a grey is itself. *)
Lemma qGray_gray (g : Z) : 0 <= g <= 255 -> qGray (rgb (QColor_rgb g g g)) = g.
Proof.
  intros Hg. unfold qGray. rewrite qRed_rgb, qGreen_rgb, qBlue_rgb. cbn.
  rewrite land_255_small by lia.
  replace (g * 11 + g * 16 + g * 5) with (g * 32) by lia.
  apply Z.div_mul. lia.
Qed.

(** A colour made of a packed value has its components in a byte. *)
Lemma QColor_fromRgb_range (v : Z) :
  0 <= red (QColor_fromRgb v) <= 255 /\
  0 <= green (QColor_fromRgb v) <= 255 /\
  0 <= blue (QColor_fromRgb v) <= 255.
Proof.
  unfold QColor_fromRgb, qRed, qGreen, qBlue. cbn.
  repeat split; apply land_255_range.
Qed.

(** *** updateColors, again *)

Lemma to_uchar_range (z : Z) : 0 <= to_uchar z <= 255.
Proof. unfold to_uchar. pose proof (Z.mod_pos_bound z 256 ltac:(lia)). lia. Qed.

Lemma to_uchar_gray (g : Z) :
  0 <= g <= 255 -> to_uchar (qGray (rgb (QColor_rgb g g g))) = g.
Proof.
  intros Hg. rewrite qGray_gray by exact Hg. unfold to_uchar.
  apply Z.mod_small. lia.
Qed.

Lemma matrix_colors_same (m : RGBMatrix) :
  setEndColor (endColor m) (setStartColor (startColor m) m) = m.
Proof. destruct m. reflexivity. Qed.

(** X1. [updateColors] changes nothing of the matrix but its two colours,
    and nothing of the editor but the handler and the two colour icons: it
    leaves the document, the preview items, the timer, the test button and
    the log alone. *)
Theorem updateColors_only_colors (m : RGBMatrix) (e : Editor) :
  let r := updateColors m e in
  r.1 = setEndColor (endColor r.1) (setStartColor (startColor r.1) m) /\
  m_doc r.2 = m_doc e /\
  m_scene r.2 = m_scene e /\
  m_previewHash r.2 = m_previewHash e /\
  m_previewTimer r.2 = m_previewTimer e /\
  m_previewIterator r.2 = m_previewIterator e /\
  m_testButton_isChecked r.2 = m_testButton_isChecked e /\
  m_testButton_isEnabled r.2 = m_testButton_isEnabled e /\
  m_colorModeCombo_currentIndex r.2 = m_colorModeCombo_currentIndex e /\
  trace r.2 = trace e.
Proof.
  cbn zeta. unfold updateColors.
  destruct (algorithm m) as [a |]; [| rewrite matrix_colors_same; repeat split].
  destruct (0 <? acceptColors a); [| rewrite matrix_colors_same; repeat split].
  destruct (BlendMode_eqb (blendMode m) MaskBlend); [cbn; repeat split |].
  destruct (negb (m_colorModeCombo_currentIndex e =? ControlModeRgb)).
  - destruct (1 <? acceptColors a); cbn; repeat split.
  - destruct (1 <? acceptColors a); cbn; rewrite matrix_colors_same; repeat split.
Qed.

(** The shape of the proofs by cases on [updateColors]. *)
Ltac updateColors_cases m e a :=
  unfold updateColors;
  destruct (algorithm m) as [a |] eqn:Halg;
  [ destruct (0 <? acceptColors a) eqn:Hacc;
    [ destruct (BlendMode_eqb (blendMode m) MaskBlend) eqn:Hblend;
      [| destruct (negb (m_colorModeCombo_currentIndex e =? ControlModeRgb)) eqn:Hmode;
         destruct (1 <? acceptColors a) eqn:Hacc1 ]
    |]
  |].

(** X2. [updateColors] is idempotent on the matrix: called again on what it
    left, it leaves the matrix as it is.  In particular the grey of a
    single colour mode is not greyed further. *)
Theorem updateColors_idempotent (m : RGBMatrix) (e : Editor) :
  let r := updateColors m e in
  (updateColors r.1 r.2).1 = r.1.
Proof.
  cbn zeta. updateColors_cases m e a; cbn [fst snd].
  - (* mask *)
    unfold updateColors. cbn. rewrite Halg, Hacc, Hblend. reflexivity.
  - (* single colour mode, two colours *)
    unfold updateColors. cbn. rewrite Halg, Hacc, Hblend, Hmode, Hacc1. cbn.
    rewrite !to_uchar_gray by apply to_uchar_range. reflexivity.
  - (* single colour mode, one colour *)
    unfold updateColors. cbn. rewrite Halg, Hacc, Hblend, Hmode, Hacc1. cbn.
    rewrite !to_uchar_gray by apply to_uchar_range. reflexivity.
  - unfold updateColors. cbn. rewrite Halg, Hacc, Hblend, Hmode, Hacc1. reflexivity.
  - unfold updateColors. cbn. rewrite Halg, Hacc, Hblend, Hmode, Hacc1. reflexivity.
  - unfold updateColors. rewrite Halg, Hacc. reflexivity.
  - unfold updateColors. rewrite Halg. reflexivity.
Qed.

(** X3. In a single colour mode, for an algorithm of more than one colour,
    the end colour [updateColors] leaves is always a valid colour, black
    when there was none; so the end colour icon is filled with that grey
    and never transparent. *)
Theorem updateColors_end_color_valid (m : RGBMatrix) (e : Editor) (a : RGBAlgorithm) :
  algorithm m = Some a ->
  1 < acceptColors a ->
  blendMode m <> MaskBlend ->
  m_colorModeCombo_currentIndex e <> ControlModeRgb ->
  let r := updateColors m e in
  isValid (endColor r.1) = true /\
  m_endColorButton_icon r.2 = FillColor (endColor r.1) /\
  (endColor m = QColor_invalid -> endColor r.1 = Qt_black).
Proof.
  intros Ha Hacc2 Hb Hc. cbn zeta. unfold updateColors. rewrite Ha.
  destruct (0 <? acceptColors a) eqn:E0; [| lia].
  destruct (BlendMode_eqb (blendMode m) MaskBlend) eqn:Eb.
  { destruct (blendMode m); simpl in Eb; congruence. }
  destruct (m_colorModeCombo_currentIndex e =? ControlModeRgb) eqn:Ec; [lia |].
  destruct (1 <? acceptColors a) eqn:E1; [| lia].
  cbn. repeat split.
  intros ->. reflexivity.
Qed.

(** *** The colour mode and the colour buttons *)

Lemma setRunning_twice (b c : bool) (m : RGBMatrix) :
  setRunning b (setRunning c m) = setRunning b m.
Proof. reflexivity. Qed.

(** [slotRestartTest] changes nothing of the matrix but whether it runs. *)
Lemma slotRestartTest_matrix (m : RGBMatrix) (e : Editor) :
  exists b, (slotRestartTest m e).1 = setRunning b m.
Proof.
  unfold slotRestartTest.
  assert (Hc : exists b,
             (if m_testButton_isChecked (timer_stop e)
              then let '(m', e') := m_testButton_click m (timer_stop e) in
                   m_testButton_click m' e'
              else (m, timer_stop e)).1 = setRunning b m).
  { destruct (m_testButton_isChecked (timer_stop e)).
    - destruct (m_testButton_click_matrix m (timer_stop e)) as (b1 & H1).
      destruct (m_testButton_click m (timer_stop e)) as [m1 e1]. cbn in H1. subst m1.
      destruct (m_testButton_click_matrix (setRunning b1 m) e1) as (b2 & H2).
      exists b2. rewrite H2. apply setRunning_twice.
    - exists (running m). symmetry. apply setRunning_same. }
  destruct Hc as (b & Hb). exists b.
  destruct (if m_testButton_isChecked (timer_stop e) then _ else _) as [m2 e2].
  cbn in Hb. subst m2.
  destruct (createPreviewItems (setRunning b m) e2) as [[] e3]; reflexivity.
Qed.

(** X4. A cancelled colour dialog leaves the matrix and the editor as they
    were.  A colour [col] chosen for the start colour is kept as it is only
    in the RGB mode or when the algorithm takes no colour: in the mask blend
    mode the start colour is white whatever was chosen, and in a single
    colour mode it is the grey of [col]. *)
Theorem slotStartColorButtonClicked_color (col : QColor) (m : RGBMatrix) (e : Editor) :
  (isValid col = false -> slotStartColorButtonClicked col m e = (m, e)) /\
  (isValid col = true ->
   startColor (slotStartColorButtonClicked col m e).1 =
     match algorithm m with
     | Some a =>
         if 0 <? acceptColors a then
           if BlendMode_eqb (blendMode m) MaskBlend then Qt_white
           else if m_colorModeCombo_currentIndex e =? ControlModeRgb then col
           else QColor_rgb (qGray (rgb col)) (qGray (rgb col)) (qGray (rgb col))
         else col
     | None => col
     end).
Proof.
  unfold slotStartColorButtonClicked. split; intros Hv; rewrite Hv; [reflexivity |].
  destruct (updateColors (setStartColor col m) e) as [m2 e2] eqn:Hu.
  destruct (slotRestartTest_matrix m2 e2) as (b & ->).
  change (startColor (setRunning b m2)) with (startColor m2).
  replace m2 with (updateColors (setStartColor col m) e).1 by (rewrite Hu; reflexivity).
  clear Hu. unfold updateColors. cbn [algorithm setStartColor blendMode].
  destruct (algorithm m) as [a |]; [| reflexivity].
  destruct (0 <? acceptColors a); [| reflexivity].
  destruct (BlendMode_eqb (blendMode m) MaskBlend); [reflexivity |].
  destruct (m_colorModeCombo_currentIndex e =? ControlModeRgb); cbn [negb].
  - destruct (1 <? acceptColors a); reflexivity.
  - rewrite !to_uchar_qGray. destruct (1 <? acceptColors a); reflexivity.
Qed.

(** X5. After the reset of the end colour the matrix has no end colour,
    except in a single colour mode (not the mask blend) with an algorithm of
    more than one colour: there [updateColors] makes the invalid colour
    grey, and the end colour is black. *)
Theorem slotResetEndColorButtonClicked_color (m : RGBMatrix) (e : Editor) :
  endColor (slotResetEndColorButtonClicked m e).1 =
    match algorithm m with
    | Some a =>
        if (1 <? acceptColors a)
           && negb (BlendMode_eqb (blendMode m) MaskBlend)
           && negb (m_colorModeCombo_currentIndex e =? ControlModeRgb)
        then Qt_black
        else QColor_invalid
    | None => QColor_invalid
    end.
Proof.
  unfold slotResetEndColorButtonClicked.
  match goal with |- context [updateColors ?m1 ?e1] =>
    destruct (updateColors m1 e1) as [m2 e2] eqn:Hu;
    destruct (slotRestartTest_matrix m2 e2) as (b & ->);
    change (endColor (setRunning b m2)) with (endColor m2);
    replace m2 with (updateColors m1 e1).1 by (rewrite Hu; reflexivity)
  end.
  clear Hu. unfold updateColors. cbn [algorithm setEndColor blendMode].
  destruct (algorithm m) as [a |]; [| reflexivity].
  destruct (0 <? acceptColors a) eqn:E0.
  - destruct (BlendMode_eqb (blendMode m) MaskBlend);
      [rewrite andb_false_r; reflexivity |].
    cbn [m_colorModeCombo_currentIndex set_handler].
    destruct (m_colorModeCombo_currentIndex e =? ControlModeRgb); cbn [negb].
    + destruct (1 <? acceptColors a); reflexivity.
    + destruct (1 <? acceptColors a); reflexivity.
  - destruct (1 <? acceptColors a) eqn:E1; [lia | reflexivity].
Qed.

(** X6. A colour mode chosen in the combo is stored in the matrix; unless it
    is the RGB mode or the blend mode is the mask, the start colour of a
    matrix whose algorithm takes a colour becomes its own grey. *)
Theorem slotColorModeChanged_gray (index : Z) (m : RGBMatrix) (e : Editor)
    (a : RGBAlgorithm) :
  m_colorModeCombo_currentIndex e = index ->
  algorithm m = Some a ->
  0 < acceptColors a ->
  blendMode m <> MaskBlend ->
  let r := slotColorModeChanged index m e in
  controlMode r.1 = index /\
  startColor r.1 =
    (if index =? ControlModeRgb then startColor m
     else QColor_rgb (qGray (rgb (startColor m))) (qGray (rgb (startColor m)))
            (qGray (rgb (startColor m)))).
Proof.
  intros Hi Ha Hacc Hb. cbn zeta. unfold slotColorModeChanged.
  destruct (updateColors (setControlMode index m) e) as [m2 e2] eqn:Hu.
  destruct (slotRestartTest_matrix m2 e2) as (b & ->).
  change (controlMode (setRunning b m2)) with (controlMode m2).
  change (startColor (setRunning b m2)) with (startColor m2).
  replace m2 with (updateColors (setControlMode index m) e).1 by (rewrite Hu; reflexivity).
  clear Hu. unfold updateColors. cbn [algorithm setControlMode blendMode].
  rewrite Ha, Hi.
  destruct (0 <? acceptColors a) eqn:E0; [| lia].
  destruct (BlendMode_eqb (blendMode m) MaskBlend) eqn:Eb.
  { destruct (blendMode m); simpl in Eb; congruence. }
  destruct (index =? ControlModeRgb); cbn [negb].
  - destruct (1 <? acceptColors a); split; reflexivity.
  - rewrite !to_uchar_qGray. destruct (1 <? acceptColors a); split; reflexivity.
Qed.

(** *** The test button *)

(** X7. [stopTest] leaves the test button up: a running test is stopped
    with one click, the matrix does not run afterwards, and the preview
    timer is not touched; when no test runs, or after a first [stopTest], it
    does nothing. *)
Theorem stopTest_stops (m : RGBMatrix) (e : Editor) :
  button_ok e ->
  let r := stopTest m e in
  m_testButton_isChecked r.2 = false /\
  m_previewTimer r.2 = m_previewTimer e /\
  (m_testButton_isChecked e = true ->
   running r.1 = false /\
   trace r.2 = trace e ++ [EvTestClick; EvMatrixStopAndWait]) /\
  (m_testButton_isChecked e = false -> r = (m, e)) /\
  stopTest r.1 r.2 = r.
Proof.
  intros Hok. unfold button_ok in Hok. cbn zeta. unfold stopTest.
  destruct (m_testButton_isChecked e) eqn:Hc.
  - specialize (Hok eq_refl).
    rewrite (m_testButton_click_checked m e Hok Hc). cbn.
    repeat split; try discriminate. rewrite <- app_assoc. reflexivity.
  - cbn [fst snd]. rewrite Hc. repeat split; discriminate || assumption.
Qed.

(** X8. When the document goes to operate mode the test is stopped and the
    test button is left up and disabled; from then on a click on the button
    is ignored and [slotRestartTest] and [stopTest] leave the matrix as it
    is, so nothing the editor does starts the matrix.  Going back to design
    mode enables the button and changes nothing else. *)
Theorem slotModeChanged_operate (m : RGBMatrix) (e : Editor) :
  let r := slotModeChanged Operate m e in
  m_testButton_isChecked r.2 = false /\
  m_testButton_isEnabled r.2 = false /\
  (m_testButton_isChecked e = true -> running r.1 = false) /\
  (m_testButton_isChecked e = false -> r.1 = m) /\
  m_testButton_click r.1 r.2 = r /\
  (slotRestartTest r.1 r.2).1 = r.1 /\
  stopTest r.1 r.2 = r /\
  m_testButton_isEnabled (slotModeChanged Design r.1 r.2).2 = true /\
  (slotModeChanged Design r.1 r.2).1 = r.1.
Proof.
  cbn zeta. unfold slotModeChanged.
  destruct (m_testButton_isChecked e) eqn:Hc; cbn; repeat split; try discriminate.
  - unfold slotRestartTest. cbn.
    match goal with |- context [createPreviewItems ?m1 ?e1] =>
      destruct (createPreviewItems m1 e1) as [[] e3] end; reflexivity.
  - unfold slotRestartTest. cbn.
    match goal with |- context [createPreviewItems ?m1 ?e1] =>
      destruct (createPreviewItems m1 e1) as [[] e3] end; reflexivity.
Qed.

(** *** The signals of the algorithm widgets *)

Lemma mutexEvents_app (l1 l2 : list Event) :
  mutexEvents (l1 ++ l2) = mutexEvents l1 ++ mutexEvents l2.
Proof. apply List.filter_app. Qed.

Lemma mutexEvents_neutral (l : list Event) :
  forallb neutral l = true -> mutexEvents l = [].
Proof.
  induction l as [| ev l IH]; [reflexivity |]. cbn. intros N.
  apply andb_true_iff in N as [Nev Nl].
  destruct ev; cbn in Nev; try discriminate; cbn; auto.
Qed.

Lemma mutexEvents_setters (l : list RGBAlgorithm) : mutexEvents (map EvSetAlgo l) = [].
Proof. induction l; [reflexivity | assumption]. Qed.

Lemma timerEvents_setters (l : list RGBAlgorithm) : timerEvents (map EvSetAlgo l) = [].
Proof. induction l; [reflexivity | assumption]. Qed.

(** The timer and mutex calls of a restart. *)
Lemma slotRestartTest_calls (m : RGBMatrix) (e : Editor) :
  exists (evs : list Event) (ok : bool),
    trace (slotRestartTest m e).2 = trace e ++ evs /\
    timerEvents evs = EvTimerStop :: (if ok then [EvTimerStart tick] else []) /\
    mutexEvents evs = [] /\
    algorithm (slotRestartTest m e).1 = algorithm m.
Proof.
  destruct (slotRestartTest_run m e)
    as (m2 & e2 & clicks & ok & e3 & pm & _ & A & _ & _ & Tr & Te & N & _ & Tr3 & ->).
  exists (EvTimerStop :: clicks ++ map EvPreviewMap pm
            ++ (if ok then [EvTimerStart tick] else [])), ok.
  repeat split.
  - destruct ok; cbn; rewrite Tr3, Tr; cbn; rewrite <- ?app_assoc; cbn;
      rewrite ?app_nil_r; reflexivity.
  - change (EvTimerStop :: ?l) with ([EvTimerStop] ++ l) at 1.
    rewrite !timerEvents_app, Te, timerEvents_previewMap. destruct ok; reflexivity.
  - change (EvTimerStop :: ?l) with ([EvTimerStop] ++ l).
    rewrite !mutexEvents_app, (mutexEvents_neutral clicks N),
      (mutexEvents_neutral _ (neutral_previewMap pm)).
    destruct ok; reflexivity.
  - exact A.
Qed.

(** One guarded run, by its calls. *)
Lemma locked_run_calls (m m2 : RGBMatrix) (e e3 : Editor) (sets : list RGBAlgorithm)
    (a' : RGBAlgorithm) :
  algorithm m2 = Some a' ->
  trace e3 = trace e ++ EvLock :: map EvSetAlgo sets ++ [EvUnlock] ->
  let r := slotRestartTest m2 e3 in
  algorithm r.1 = Some a' /\
  exists (evs : list Event) (ok : bool),
    trace r.2 = trace e ++ evs /\
    mutexEvents evs = [EvLock; EvUnlock] /\
    timerEvents evs = EvTimerStop :: (if ok then [EvTimerStart tick] else []).
Proof.
  intros Ha Tr. cbn zeta.
  destruct (slotRestartTest_calls m2 e3) as (rest & ok & TrR & Te & Mu & A).
  split; [congruence |].
  exists (EvLock :: map EvSetAlgo sets ++ [EvUnlock] ++ rest), ok.
  repeat split.
  - rewrite TrR, Tr. rewrite <- !app_assoc. cbn. rewrite <- !app_assoc. reflexivity.
  - change (EvLock :: ?l) with ([EvLock] ++ l).
    rewrite !mutexEvents_app, mutexEvents_setters, Mu. reflexivity.
  - change (EvLock :: ?l) with ([EvLock] ++ l).
    rewrite !timerEvents_app, timerEvents_setters, Te. reflexivity.
Qed.

(** X9. A signal whose slot does not apply (the algorithm is missing or of
    the other type, the font dialog was cancelled, the file dialog gave no
    path) changes nothing: no setter is called, the mutex is not taken and
    the test is not restarted. *)
Theorem dispatch_ignored (s : AlgorithmSignal) (m : RGBMatrix) (e : Editor) :
  signal_applies s (algorithm m) = false ->
  dispatch s m e = (m, e).
Proof.
  intros H.
  destruct s as [text | [font |] | text | imageEdit | path | text | xSpin ySpin];
    cbn [dispatch]; unfold slotTextEdited, slotFontButtonClicked,
      slotAnimationActivated, slotImageEdited, slotImageButtonClicked,
      slotImageAnimationActivated, slotOffsetSpinChanged;
    destruct (algorithm m) as [[n | | | t | i] |] eqn:Ha;
    cbn in H; try discriminate; rewrite ?Ha; try reflexivity.
  rewrite H. reflexivity.
Qed.

Ltac one_setter m e a' :=
  apply (locked_run_calls m (storeAlgorithm a' m) e _ [a'] a');
  [reflexivity | cbn; rewrite <- !app_assoc; reflexivity].

(** X10. A signal whose slot applies leaves the algorithm with the new
    value of the property and of the same type, takes the mutex once and
    releases it, and restarts the test once: the preview timer is stopped
    once and started at most once, after the stop.  The offset signal sets
    both offsets in that one run. *)
Theorem dispatch_applied (s : AlgorithmSignal) (m : RGBMatrix) (e : Editor)
    (a : RGBAlgorithm) :
  algorithm m = Some a ->
  signal_applies s (Some a) = true ->
  let r := dispatch s m e in
  algorithm r.1 = Some (signal_result s a) /\
  exists (evs : list Event) (ok : bool),
    trace r.2 = trace e ++ evs /\
    mutexEvents evs = [EvLock; EvUnlock] /\
    timerEvents evs = EvTimerStop :: (if ok then [EvTimerStart tick] else []).
Proof.
  intros Ha H. cbn zeta.
  destruct s as [text | [font |] | text | imageEdit | path | text | xSpin ySpin];
    destruct a as [n | | | t | i]; cbn in H; try discriminate;
    cbn [dispatch signal_result];
    unfold slotTextEdited, slotFontButtonClicked, slotAnimationActivated,
      slotImageEdited, slotImageButtonClicked, slotImageAnimationActivated,
      slotOffsetSpinChanged;
    rewrite ?Ha, ?H; cbn [algoSet].
  - one_setter m e (Text (setText text t)).
  - one_setter m e (Text (setFont font t)).
  - one_setter m e (Text (text_setAnimationStyle text t)).
  - one_setter m e (Image (setFilename imageEdit i)).
  - one_setter m e (Image (setFilename path i)).
  - one_setter m e (Image (image_setAnimationStyle text i)).
  - set (t1 := text_setXOffset xSpin t). set (t2 := text_setYOffset ySpin t1).
    set (m3 := storeAlgorithm (Text t2) (storeAlgorithm (Text t1) m)).
    match goal with |- context [slotRestartTest m3 ?e3] => set (e4 := e3) end.
    assert (L := locked_run_calls m m3 e e4 [Text t1; Text t2] (Text t2) eq_refl).
    cbn zeta in L.
    destruct L as (A & L);
      [subst e4; cbn; rewrite <- !app_assoc; reflexivity |].
    destruct (slotRestartTest m3 e4) as [m' e'] eqn:E. cbn in A, L.
    rewrite A. cbn. split; [exact A | exact L].
  - set (i1 := image_setXOffset xSpin i). set (i2 := image_setYOffset ySpin i1).
    set (m3 := storeAlgorithm (Image i2) (storeAlgorithm (Image i1) m)).
    match goal with |- context [slotRestartTest m3 ?e3] => set (e4 := e3) end.
    assert (L := locked_run_calls m m3 e e4 [Image i1; Image i2] (Image i2) eq_refl).
    cbn zeta in L.
    destruct L as (A & L);
      [subst e4; cbn; rewrite <- !app_assoc; reflexivity |].
    exact (conj A L).
Qed.

(** *** The preview items *)




(** *** The preview timeout, again *)

Lemma paintCell_lookup (m : RGBMatrix) (elapsed y x col : Z)
    (h : gmap QLCPoint RGBItem) (x' y' : Z) :
  paintCell m elapsed y x h col !! (x', y') =
    if decide ((x', y') = (x, y))
    then paintItem m elapsed col <$> h !! (x, y)
    else h !! (x', y').
Proof.
  unfold paintCell. destruct (h !! (x, y)) as [shape |] eqn:E.
  - destruct (decide ((x', y') = (x, y))) as [Heq | Hne].
    + rewrite Heq, lookup_insert_eq. reflexivity.
    + rewrite lookup_insert_ne by congruence. reflexivity.
  - destruct (decide ((x', y') = (x, y))) as [Heq | Hne]; [| reflexivity].
    rewrite Heq, E. reflexivity.
Qed.

(** One row of the map: the inner loop of the painting. *)
Lemma paintRow_lookup (m : RGBMatrix) (elapsed y : Z) (row : list Z) :
  forall (x0 : Z) (h : gmap QLCPoint RGBItem) (x' y' : Z),
    foldl_index (paintCell m elapsed y) x0 h row !! (x', y') =
      if decide (y' = y /\ x0 <= x' < x0 + Z.of_nat (length row))
      then paintItem m elapsed (nth (Z.to_nat (x' - x0)) row 0) <$> h !! (x', y')
      else h !! (x', y').
Proof.
  induction row as [| col row IH]; intros x0 h x' y'.
  - cbn. destruct (decide _) as [(_ & Hx) |]; [lia | reflexivity].
  - cbn [foldl_index length]. rewrite IH, paintCell_lookup.
    destruct (decide ((x', y') = (x0, y))) as [Heq | Hne].
    + injection Heq as -> ->.
      rewrite decide_False by lia. rewrite decide_True by lia.
      replace (x0 - x0) with 0 by lia. reflexivity.
    + destruct (decide (y' = y /\ x0 + 1 <= x' < x0 + 1 + Z.of_nat (length row)))
        as [(-> & Hx) | Hn].
      * rewrite decide_True by lia.
        replace (Z.to_nat (x' - x0)) with (S (Z.to_nat (x' - (x0 + 1)))) by lia.
        reflexivity.
      * rewrite decide_False; [reflexivity |].
        intros (-> & Hx). apply Hn. split; [reflexivity |].
        assert (x' <> x0) by congruence. lia.
Qed.

(** The whole map: the two loops of the painting, from row [y0] on. *)
Lemma paintRows_lookup (m : RGBMatrix) (elapsed : Z) (mp : list (list Z)) :
  forall (y0 : Z) (h : gmap QLCPoint RGBItem) (x' y' : Z),
    foldl_index (fun y h row => foldl_index (paintCell m elapsed y) 0 h row) y0 h mp
      !! (x', y') =
      if decide (y0 <= y' < y0 + Z.of_nat (length mp) /\
                 0 <= x' < Z.of_nat (length (nth (Z.to_nat (y' - y0)) mp [])))
      then paintItem m elapsed
             (nth (Z.to_nat x') (nth (Z.to_nat (y' - y0)) mp []) 0) <$> h !! (x', y')
      else h !! (x', y').
Proof.
  induction mp as [| row mp IH]; intros y0 h x' y'.
  - cbn. destruct (decide _) as [(Hy & _) |]; [lia | reflexivity].
  - cbn [foldl_index length]. rewrite IH, paintRow_lookup.
    destruct (decide (y' = y0)) as [-> | Hne].
    + rewrite (decide_False (P := (y0 + 1 <= y0 < _ /\ _))) by lia.
      replace (y0 - y0) with 0 by lia. change (Z.to_nat 0) with 0%nat. cbn [nth].
      replace (x' - 0) with x' by lia.
      destruct (decide (y0 = y0 /\ 0 <= x' < 0 + Z.of_nat (length row)))
        as [(_ & Hx) | Hn].
      * rewrite decide_True by lia. reflexivity.
      * rewrite decide_False by lia. reflexivity.
    + rewrite (decide_False (P := (y' = y0 /\ _))) by tauto.
      destruct (decide (y0 + 1 <= y' < y0 + 1 + Z.of_nat (length mp) /\ _))
        as [(Hy & Hx) | Hn].
      * replace (Z.to_nat (y' - y0)) with (S (Z.to_nat (y' - (y0 + 1)))) by lia.
        cbn [nth]. rewrite decide_True by lia. reflexivity.
      * rewrite decide_False; [reflexivity |].
        intros (Hy & Hx). apply Hn.
        replace (Z.to_nat (y' - y0)) with (S (Z.to_nat (y' - (y0 + 1)))) in Hx by lia.
        cbn [nth] in Hx. lia.
Qed.

Lemma paintMap_lookup (m : RGBMatrix) (elapsed : Z) (mp : list (list Z))
    (h : gmap QLCPoint RGBItem) (x y : Z) :
  paintMap m elapsed mp h !! (x, y) =
    if decide (inMap mp x y)
    then paintItem m elapsed (mapAt mp x y) <$> h !! (x, y)
    else h !! (x, y).
Proof.
  unfold paintMap. rewrite paintRows_lookup. unfold inMap, mapAt.
  replace (y - 0) with y by lia.
  destruct (decide (0 <= y < 0 + Z.of_nat (length mp) /\ _)) as [H | H].
  - rewrite decide_True by lia. reflexivity.
  - rewrite decide_False by lia. reflexivity.
Qed.

(** A timeout in closed form: the turns of the loop, what is left of the
    iterator, and the painting. *)
Lemma slotPreviewTimeout_eq (m : RGBMatrix) (e : Editor) :
  0 < duration m ->
  let mx := MAX (duration m) tick in
  let total := wrap32 (m_previewIterator e + tick) in
  let e2 := set_iterator (total mod mx)
              (Nat.iter (Z.to_nat (total / mx)) (advancePreview m) e) in
  exists elapsed,
    slotPreviewTimeout m e
    = set_items (m_scene e2)
        (paintMap m elapsed (m_map (m_previewHandler e2)) (m_previewHash e2)) e2.
Proof.
  intros Hd. cbn zeta.
  set (mx := MAX (duration m) tick).
  set (total := wrap32 (m_previewIterator e + tick)).
  set (n := Z.to_nat (total / mx)).
  assert (Hmx : 0 < mx).
  { subst mx. unfold MAX. destruct (duration m <? tick) eqn:E; lia. }
  assert (Ht : 0 <= total < 2 ^ 32).
  { subst total. unfold wrap32. apply Z.mod_pos_bound. lia. }
  assert (Hq : 0 <= total / mx) by (apply Z.div_pos; lia).
  assert (Hdm : total = mx * (total / mx) + total mod mx) by (apply Z.div_mod; lia).
  pose proof (Z.mod_pos_bound total mx Hmx) as Hr.
  assert (Hn : Z.of_nat n = total / mx) by (subst n; lia).
  unfold slotPreviewTimeout.
  destruct (duration m <=? 0) eqn:E0; [lia |].
  fold total.
  change (m_previewIterator (set_iterator total e)) with total.
  destruct (previewLoop_turns m n (Z.to_nat total) 0 (set_iterator total e))
    as (elapsed & ->).
  - exact Hmx.
  - subst n. apply Z2Nat.inj_le; try lia.
    apply Z.div_le_upper_bound; nia.
  - cbn. fold mx. rewrite Hn. nia.
  - cbn. lia.
  - exists elapsed.
    rewrite advancePreview_iter_set_iterator, set_iterator_twice.
    change (m_previewIterator (set_iterator total e)) with total. fold mx.
    replace (total - Z.of_nat n * mx) with (total mod mx) by (rewrite Hn; lia).
    reflexivity.
Qed.

(** What the loop leaves in [elapsed]: an interval for each turn. *)
Lemma previewLoop_elapsed (m : RGBMatrix) (n : nat) :
  forall (fuel : nat) (elapsed : Z) (e : Editor),
    0 < MAX (duration m) tick ->
    (n <= fuel)%nat ->
    Z.of_nat n * MAX (duration m) tick <= m_previewIterator e
      < (Z.of_nat n + 1) * MAX (duration m) tick ->
    m_previewIterator e < 2 ^ 32 ->
    0 <= elapsed ->
    elapsed + Z.of_nat n * MAX (duration m) tick < 2 ^ 32 ->
    (previewLoop fuel m elapsed e).1 = elapsed + Z.of_nat n * MAX (duration m) tick.
Proof.
  set (mx := MAX (duration m) tick).
  induction n as [| n IH]; intros fuel elapsed e Hmx Hfuel Hit H32 Hel Hsum.
  - replace (elapsed + Z.of_nat 0 * mx) with elapsed by lia.
    destruct fuel as [| fuel]; [reflexivity |]. cbn [previewLoop]. fold mx.
    destruct (mx <=? m_previewIterator e) eqn:E; [lia | reflexivity].
  - destruct fuel as [| fuel]; [lia |]. cbn [previewLoop]. fold mx.
    destruct (mx <=? m_previewIterator e) eqn:E; [| lia].
    change (m_previewIterator (advancePreview m e)) with (m_previewIterator e).
    assert (Hw : wrap32 (m_previewIterator e - mx) = m_previewIterator e - mx).
    { unfold wrap32. apply Z.mod_small. lia. }
    assert (Hv : wrap32 (elapsed + mx) = elapsed + mx).
    { unfold wrap32. apply Z.mod_small. nia. }
    rewrite Hw, Hv, IH.
    + lia.
    + exact Hmx.
    + lia.
    + change (m_previewIterator (set_iterator ?i _)) with i. lia.
    + change (m_previewIterator (set_iterator ?i _)) with i. lia.
    + lia.
    + lia.
Qed.

(** The timeout in closed form, with the time the painting is given. *)
Lemma slotPreviewTimeout_painted (m : RGBMatrix) (e : Editor) :
  0 < duration m ->
  let mx := MAX (duration m) tick in
  let total := wrap32 (m_previewIterator e + tick) in
  let e2 := set_iterator (total mod mx)
              (Nat.iter (Z.to_nat (total / mx)) (advancePreview m) e) in
  slotPreviewTimeout m e
  = set_items (m_scene e2)
      (paintMap m (total / mx * mx) (m_map (m_previewHandler e2)) (m_previewHash e2)) e2.
Proof.
  intros Hd. cbn zeta.
  set (mx := MAX (duration m) tick).
  set (total := wrap32 (m_previewIterator e + tick)).
  set (n := Z.to_nat (total / mx)).
  assert (Hmx : 0 < mx).
  { subst mx. unfold MAX. destruct (duration m <? tick) eqn:E; lia. }
  assert (Ht : 0 <= total < 2 ^ 32).
  { subst total. unfold wrap32. apply Z.mod_pos_bound. lia. }
  assert (Hq : 0 <= total / mx) by (apply Z.div_pos; lia).
  assert (Hdm : total = mx * (total / mx) + total mod mx) by (apply Z.div_mod; lia).
  pose proof (Z.mod_pos_bound total mx Hmx) as Hr.
  assert (Hn : Z.of_nat n = total / mx) by (subst n; lia).
  assert (Hfuel : (n <= Z.to_nat total)%nat).
  { subst n. apply Z2Nat.inj_le; try lia. apply Z.div_le_upper_bound; nia. }
  unfold slotPreviewTimeout.
  destruct (duration m <=? 0) eqn:E0; [lia |].
  fold total.
  change (m_previewIterator (set_iterator total e)) with total.
  pose proof (previewLoop_elapsed m n (Z.to_nat total) 0 (set_iterator total e)) as El.
  destruct (previewLoop_turns m n (Z.to_nat total) 0 (set_iterator total e))
    as (elapsed & Heq).
  - exact Hmx.
  - exact Hfuel.
  - cbn. fold mx. rewrite Hn. nia.
  - cbn. lia.
  - assert (Hel : elapsed = total / mx * mx).
    { fold mx in El. rewrite Heq in El. cbn [fst] in El. rewrite El.
      - rewrite Hn. lia.
      - exact Hmx.
      - exact Hfuel.
      - cbn. rewrite Hn. nia.
      - cbn. lia.
      - lia.
      - rewrite Hn. nia. }
    rewrite Heq, Hel.
    rewrite advancePreview_iter_set_iterator, set_iterator_twice.
    change (m_previewIterator (set_iterator total e)) with total. fold mx.
    replace (total - Z.of_nat n * mx) with (total mod mx) by (rewrite Hn; lia).
    reflexivity.
Qed.

(** X12. At a timeout with a positive duration every item of the hash whose
    point is a cell of the handler's map is painted once: it takes the
    colour of its own cell unless it has that colour, and is drawn with the
    time the loop counted, an interval for each advance, and the fade out
    speed when its colour is black, the fade in speed otherwise.  The items
    at other points stay as they were. *)
Theorem slotPreviewTimeout_paints (m : RGBMatrix) (e : Editor) :
  0 < duration m ->
  let mx := MAX (duration m) tick in
  let total := wrap32 (m_previewIterator e + tick) in
  let elapsed := total / mx * mx in
  let e' := slotPreviewTimeout m e in
  let mp := m_map (m_previewHandler e') in
  let paint (col : Z) (shape : RGBItem) :=
    let shape1 :=
      if negb (item_color shape =? rgb (QColor_fromRgb col))
      then item_setColor col shape else shape in
    if item_color shape1 =? rgb Qt_black
    then item_draw elapsed (fadeOutSpeed m) shape1
    else item_draw elapsed (fadeInSpeed m) shape1 in
  forall x y : Z,
    m_previewHash e' !! (x, y) =
      if decide (inMap mp x y)
      then paint (mapAt mp x y) <$> m_previewHash e !! (x, y)
      else m_previewHash e !! (x, y).
Proof.
  intros Hd. cbn zeta.
  rewrite (slotPreviewTimeout_painted m e Hd).
  intros x y.
  cbn [m_previewHash m_previewHandler set_items set_iterator].
  rewrite paintMap_lookup.
  destruct (advancePreview_iter_frame m
              (Z.to_nat (wrap32 (m_previewIterator e + tick) / MAX (duration m) tick)) e)
    as (_ & H & _).
  rewrite H. reflexivity.
Qed.

Lemma div_mod_carry (a t mx : Z) :
  0 < mx ->
  (a mod mx + t) mod mx = (a + t) mod mx /\
  a / mx + (a mod mx + t) / mx = (a + t) / mx.
Proof.
  intros Hmx.
  assert (Ha : a + t = a mod mx + t + a / mx * mx).
  { pose proof (Z.div_mod a mx ltac:(lia)). lia. }
  rewrite Ha. rewrite Z_mod_plus_full, Z_div_plus_full by lia. lia.
Qed.

(** One timeout by its turns. *)
Lemma slotPreviewTimeout_turns (m : RGBMatrix) (e : Editor) :
  0 < duration m ->
  let mx := MAX (duration m) tick in
  let total := wrap32 (m_previewIterator e + tick) in
  m_previewIterator (slotPreviewTimeout m e) = total mod mx /\
  exists pm, length pm = Z.to_nat (total / mx) /\
             trace (slotPreviewTimeout m e) = trace e ++ map EvPreviewMap pm.
Proof.
  intros Hd. cbn zeta.
  destruct (slotPreviewTimeout_eq m e Hd) as (elapsed & ->).
  cbn [m_previewIterator trace set_items set_iterator]. split; [reflexivity |].
  destruct (advancePreview_iter_frame m
              (Z.to_nat (wrap32 (m_previewIterator e + tick) / MAX (duration m) tick)) e)
    as (_ & _ & _ & pm & L & Tr).
  exists pm. split; assumption.
Qed.

Lemma timeouts_turns (m : RGBMatrix) (e : Editor) (n : nat) :
  0 < duration m ->
  0 <= tick ->
  0 <= m_previewIterator e < MAX (duration m) tick ->
  MAX (duration m) tick + tick <= 2 ^ 32 ->
  let mx := MAX (duration m) tick in
  let a := m_previewIterator e + Z.of_nat n * tick in
  m_previewIterator (timeouts n m e) = a mod mx /\
  exists pm, length pm = Z.to_nat (a / mx) /\
             trace (timeouts n m e) = trace e ++ map EvPreviewMap pm.
Proof.
  intros Hd Ht Hi H32. cbn zeta.
  set (mx := MAX (duration m) tick) in *.
  induction n as [| n IH].
  - unfold timeouts. cbn [Nat.iter].
    replace (m_previewIterator e + Z.of_nat 0 * tick) with (m_previewIterator e) by lia.
    rewrite Z.mod_small, Z.div_small by lia. split; [reflexivity |].
    exists []. split; [reflexivity |]. cbn. symmetry. apply app_nil_r.
  - unfold timeouts in *. rewrite Nat.iter_succ.
    set (en := Nat.iter n (slotPreviewTimeout m) e) in *.
    set (a := m_previewIterator e + Z.of_nat n * tick) in *.
    destruct IH as (Hit & pm & Hlen & Htr).
    assert (Ha : 0 <= a) by (subst a; nia).
    replace (m_previewIterator e + Z.of_nat (S n) * tick) with (a + tick) by lia.
    pose proof (Z.mod_pos_bound a mx ltac:(lia)) as Hr.
    destruct (slotPreviewTimeout_turns m en Hd) as (Hit' & pm' & Hlen' & Htr').
    fold mx in Hit', Hlen'.
    assert (Hw : wrap32 (m_previewIterator en + tick) = a mod mx + tick).
    { rewrite Hit. unfold wrap32. apply Z.mod_small. lia. }
    rewrite Hw in Hit', Hlen'.
    destruct (div_mod_carry a tick mx ltac:(lia)) as (Hm & Hq).
    split; [rewrite Hit'; exact Hm |].
    exists (pm ++ pm'). split.
    + rewrite length_app, Hlen, Hlen', <- Hq.
      rewrite Z2Nat.inj_add; [reflexivity | |]; apply Z.div_pos; lia.
    + rewrite Htr', Htr, map_app, app_assoc. reflexivity.
Qed.

(** X13. Timeouts do not drift: after [n] timeouts in a row, at a positive
    duration that is not changed meanwhile, from an iterator below one
    interval [MAX(duration, tick)], the preview has advanced once for every
    whole interval in [iterator + n * tick], and the iterator holds what is
    left.  The interval plus a tick has to fit the [uint]. *)
Theorem timeouts_no_drift (m : RGBMatrix) (e : Editor) (n : nat) :
  0 < duration m ->
  0 <= tick ->
  0 <= m_previewIterator e < MAX (duration m) tick ->
  MAX (duration m) tick + tick <= 2 ^ 32 ->
  let mx := MAX (duration m) tick in
  let a := m_previewIterator e + Z.of_nat n * tick in
  let e' := timeouts n m e in
  m_previewIterator e' = a mod mx /\
  length (previewMapCalls (drop (length (trace e)) (trace e'))) = Z.to_nat (a / mx).
Proof.
  intros Hd Ht Hi H32. cbn zeta.
  destruct (timeouts_turns m e n Hd Ht Hi H32) as (Hit & pm & Hlen & Htr).
  split; [exact Hit |].
  rewrite Htr, drop_trace, previewMapCalls_map. exact Hlen.
Qed.

(** *** The fixture group combo *)

Lemma fill_items (m : RGBMatrix) (gs : list FixtureGroup) :
  forall c : Combo,
    combo_items (foldl (fillGroupEntry m) c gs) = combo_items c ++ map group_entry gs.
Proof.
  induction gs as [| g gs IH]; intros c.
  - cbn. symmetry. apply app_nil_r.
  - cbn [foldl map]. rewrite IH. unfold fillGroupEntry.
    destruct (fixtureGroup m =? group_id g); cbn; rewrite <- app_assoc; reflexivity.
Qed.

(** Where the loop leaves the current index: on the entry of a group with
    the matrix's group id if there is one, else where it was. *)
Lemma fill_current (m : RGBMatrix) (gs : list FixtureGroup) (c : Combo) :
  combo_items c <> [] ->
  let c' := foldl (fillGroupEntry m) c gs in
  ((forall g, g ∈ gs -> group_id g <> fixtureGroup m) ->
   combo_currentIndex c' = combo_currentIndex c) /\
  ((exists g, g ∈ gs /\ group_id g = fixtureGroup m) ->
   exists g, g ∈ gs /\ group_id g = fixtureGroup m /\
             combo_item (combo_currentIndex c') c' = Some (group_entry g)).
Proof.
  intros Hne. cbn zeta. induction gs as [| g gs IH] using rev_ind.
  - cbn. split; [reflexivity |]. intros (g & Hin & _).
    apply elem_of_nil in Hin. contradiction.
  - rewrite foldl_app. cbn [foldl].
    set (c' := foldl (fillGroupEntry m) c gs) in *.
    assert (Hit : combo_items c' = combo_items c ++ map group_entry gs)
      by apply fill_items.
    assert (Hne' : combo_items c' <> []).
    { rewrite Hit. destruct (combo_items c); [contradiction | discriminate]. }
    destruct IH as (IHa & IHb).
    unfold fillGroupEntry.
    destruct (fixtureGroup m =? group_id g) eqn:Eg.
    + apply Z.eqb_eq in Eg. split.
      * intros Hall. exfalso. apply (Hall g); [| congruence].
        apply elem_of_app. right. apply list_elem_of_singleton. reflexivity.
      * intros _. exists g. split; [| split; [congruence |]].
        { apply elem_of_app. right. apply list_elem_of_singleton. reflexivity. }
        unfold combo_item, combo_count. cbn.
        rewrite length_app. cbn.
        destruct (Z.ltb_spec (Z.of_nat (length (combo_items c') + 1) - 1) 0); [lia |].
        replace (Z.to_nat (Z.of_nat (length (combo_items c') + 1) - 1))
          with (length (combo_items c') + 0)%nat by lia.
        rewrite lookup_app_r by lia.
        replace (length (combo_items c') + 0 - length (combo_items c'))%nat
          with 0%nat by lia.
        reflexivity.
    + apply Z.eqb_neq in Eg.
      assert (Hcur : combo_currentIndex
                       (combo_addItem (group_name g) (Some (group_id g)) c')
                     = combo_currentIndex c').
      { unfold combo_addItem. cbn. destruct (combo_items c'); [contradiction | reflexivity]. }
      split.
      * intros Hall. rewrite Hcur. apply IHa. intros g' Hg'. apply Hall.
        apply elem_of_app. auto.
      * intros (g' & Hin & Hid).
        apply elem_of_app in Hin as [Hin | Hin].
        -- destruct IHb as (g0 & Hin0 & Hid0 & Hitem); [eauto |].
           exists g0. split; [apply elem_of_app; auto | split; [exact Hid0 |]].
           rewrite Hcur. unfold combo_item in *. cbn [combo_items combo_addItem].
           destruct (combo_currentIndex c' <? 0); [discriminate |].
           apply lookup_app_l_Some. exact Hitem.
        -- apply list_elem_of_singleton in Hin. subst g'. congruence.
Qed.

Lemma doc_fixtureGroups_elem (d : Doc) (g : FixtureGroup) :
  g ∈ doc_fixtureGroups d <-> exists k, fixtureGroups d !! k = Some g.
Proof.
  unfold doc_fixtureGroups. rewrite list_elem_of_fmap. split.
  - intros ([k g'] & -> & Hin). exists k. apply elem_of_map_to_list. exact Hin.
  - intros (k & Hk). exists (k, g). split; [reflexivity |].
    apply elem_of_map_to_list. exact Hk.
Qed.

(** The combo after the fill: its entries and its current entry. *)
Lemma fillFixtureGroupCombo_sel (m : RGBMatrix) (d : Doc) (c : Combo) :
  doc_ids_ok d ->
  let c' := fillFixtureGroupCombo m d c in
  combo_items c' = ("None"%string, None) :: map group_entry (doc_fixtureGroups d) /\
  match fixtureGroups d !! fixtureGroup m with
  | Some g =>
      combo_item (combo_currentIndex c') c' = Some (group_name g, Some (fixtureGroup m)) /\
      combo_itemData (combo_currentIndex c') c' = Some (fixtureGroup m)
  | None =>
      combo_currentIndex c' = 0 /\
      combo_itemData (combo_currentIndex c') c' = None
  end.
Proof.
  intros Hok. cbn zeta. unfold fillFixtureGroupCombo.
  set (c0 := combo_addItem "None" None (combo_clear c)).
  assert (Hit : combo_items (foldl (fillGroupEntry m) c0 (doc_fixtureGroups d))
                = ("None"%string, None) :: map group_entry (doc_fixtureGroups d))
    by (rewrite fill_items; reflexivity).
  split; [exact Hit |].
  destruct (fill_current m (doc_fixtureGroups d) c0) as (Ha & Hb); [discriminate |].
  destruct (fixtureGroups d !! fixtureGroup m) as [g |] eqn:Hg.
  - destruct Hb as (g' & Hin & Hid & Hitem).
    { exists g. split; [apply doc_fixtureGroups_elem; eauto | apply (Hok _ _ Hg)]. }
    apply doc_fixtureGroups_elem in Hin as (k & Hk).
    pose proof (Hok _ _ Hk) as Hk'.
    assert (g' = g) by congruence. subst g'.
    unfold combo_itemData. rewrite Hitem. unfold group_entry. rewrite Hid.
    split; reflexivity.
  - assert (Hcur : combo_currentIndex
                     (foldl (fillGroupEntry m) c0 (doc_fixtureGroups d)) = 0).
    { rewrite Ha; [reflexivity |]. intros g Hin Hid.
      apply doc_fixtureGroups_elem in Hin as (k & Hk).
      pose proof (Hok _ _ Hk). congruence. }
    split; [exact Hcur |].
    unfold combo_itemData, combo_item. rewrite Hcur, Hit. reflexivity.
Qed.


(** X14. [fillFixtureGroupCombo] leaves the entry "None", without an id,
    followed by one entry for each group of the document with the group's
    name and id.  In a document whose groups carry the ids they are kept
    under, the current entry is the one of the matrix's group when the
    document has it, and "None" otherwise. *)
Theorem fillFixtureGroupCombo_selection (m : RGBMatrix) (d : Doc) (c : Combo) :
  doc_ids_ok d ->
  let c' := fillFixtureGroupCombo m d c in
  combo_items c' = ("None"%string, None) :: map group_entry (doc_fixtureGroups d) /\
  match fixtureGroups d !! fixtureGroup m with
  | Some g =>
      combo_item (combo_currentIndex c') c' = Some (group_name g, Some (fixtureGroup m)) /\
      combo_itemData (combo_currentIndex c') c' = Some (fixtureGroup m)
  | None =>
      combo_currentIndex c' = 0 /\
      combo_itemData (combo_currentIndex c') c' = None
  end.
Proof. exact (fillFixtureGroupCombo_sel m d c). Qed.

Lemma setFixtureGroup_same (m : RGBMatrix) : setFixtureGroup (fixtureGroup m) m = m.
Proof. destruct m. reflexivity. Qed.

(** X15. When a group was removed from the document (its groups carrying
    the ids they are kept under): if the matrix's group is still there the
    matrix stays bound to it and the test is restarted; if it is gone the
    matrix is bound to no group, its other settings stay, the preview timer
    is stopped and the scene is cleared. *)
Theorem slotFixtureGroupRemoved_binding (c : Combo) (m : RGBMatrix) (e : Editor) :
  doc_ids_ok (m_doc e) ->
  let r := slotFixtureGroupRemoved c m e in
  r.1 = fillFixtureGroupCombo m (m_doc e) c /\
  match fixtureGroups (m_doc e) !! fixtureGroup m with
  | Some g => r.2 = slotRestartTest m e
  | None =>
      r.2.1 = setFixtureGroup FixtureGroup_invalidId m /\
      m_previewTimer r.2.2 = None /\
      m_scene r.2.2 = [] /\
      m_previewHash r.2.2 = m_previewHash e /\
      trace r.2.2 = trace e ++ [EvTimerStop]
  end.
Proof.
  intros Hok. cbn zeta. unfold slotFixtureGroupRemoved. cbn [fst snd].
  split; [reflexivity |].
  destruct (fillFixtureGroupCombo_sel m (m_doc e) c Hok) as (_ & Hsel).
  unfold slotFixtureGroupActivated.
  destruct (fixtureGroups (m_doc e) !! fixtureGroup m) as [g |].
  - destruct Hsel as (_ & ->). rewrite setFixtureGroup_same. reflexivity.
  - destruct Hsel as (_ & ->). cbn. repeat split.
Qed.

(** X16. With the combo filled from the document, activating the entry of
    a group binds the matrix to the id of that group, and activating
    "None", or no entry at all, binds it to no group. *)
Theorem slotFixtureGroupActivated_binds (index : Z) (c : Combo) (m : RGBMatrix)
    (e : Editor) :
  let c' := fillFixtureGroupCombo m (m_doc e) c in
  fixtureGroup (slotFixtureGroupActivated index c' m e).1 =
    match (if index <? 1 then None
           else doc_fixtureGroups (m_doc e) !! Z.to_nat (index - 1)) with
    | Some g => group_id g
    | None => FixtureGroup_invalidId
    end.
Proof.
  cbn zeta. unfold slotFixtureGroupActivated, combo_itemData, combo_item.
  unfold fillFixtureGroupCombo. rewrite fill_items. cbn [combo_items combo_addItem
    combo_clear app].
  destruct (Z.ltb_spec index 1) as [Hlt | Hge].
  - destruct (Z.ltb_spec index 0); [reflexivity |].
    replace (Z.to_nat index) with 0%nat by lia. reflexivity.
  - destruct (Z.ltb_spec index 0); [lia |].
    replace (Z.to_nat index) with (S (Z.to_nat (index - 1))) by lia.
    change ((?x :: ?l) !! S ?n) with (l !! n).
    change (map group_entry ?l) with (group_entry <$> l). rewrite list_lookup_fmap.
    destruct (doc_fixtureGroups (m_doc e) !! Z.to_nat (index - 1)) as [g |]; cbn.
    + destruct (slotRestartTest_matrix (setFixtureGroup (group_id g) m) e) as (b & ->).
      reflexivity.
    + reflexivity.
Qed.




(** *** The export, again *)

(** The export by its parts. *)
Lemma saveToSequence_eq (m : RGBMatrix) (grp : FixtureGroup) (e : Editor) :
  saveToSequence m grp e =
    let p := exportPrepare m e in
    let sid := latestFunctionId (m_doc p.2) in
    let d1 := (addFunction (FScene (exportScene grp (m_doc p.2))) (m_doc p.2)).2 in
    let l := exportRun p.1 grp sid (set_doc d1 p.2) in
    let d2 := (addFunction (FSequence (sequence l)) (m_doc (loop_editor l))).2 in
    let e3 := set_doc d2 (loop_editor l) in
    if m_testButton_isChecked e then m_testButton_click p.1 e3
    else
      let '(ok, e4) := createPreviewItems p.1 e3 in
      if ok then (p.1, timer_start tick e4) else (p.1, e4).
Proof.
  unfold saveToSequence, exportPrepare, exportScene.
  destruct (if m_testButton_isChecked e then _ else _) as [m1 e1]. reflexivity.
Qed.

Lemma exportPrepare_frame (m : RGBMatrix) (e : Editor) :
  (exists b, (exportPrepare m e).1 = setRunning b m) /\
  m_doc (exportPrepare m e).2 = m_doc e.
Proof.
  unfold exportPrepare. destruct (m_testButton_isChecked e).
  - split; [apply m_testButton_click_matrix |].
    pose proof (m_testButton_click_frame m e) as F. cbn zeta in F. tauto.
  - split; [| reflexivity]. exists (running m). symmetry. apply setRunning_same.
Qed.

(** The document after the export: the scene and the sequence follow the
    functions that were there. *)
Lemma saveToSequence_functions (m : RGBMatrix) (grp : FixtureGroup) (e : Editor) :
  let p := exportPrepare m e in
  let sid := latestFunctionId (m_doc e) in
  let d1 := (addFunction (FScene (exportScene grp (m_doc e))) (m_doc e)).2 in
  let l := exportRun p.1 grp sid (set_doc d1 p.2) in
  functions (m_doc (saveToSequence m grp e).2) =
    functions (m_doc e)
      ++ [Function_setID sid (FScene (exportScene grp (m_doc e)));
          Function_setID (sid + 1) (FSequence (sequence l))].
Proof.
  cbn zeta. rewrite saveToSequence_eq. cbn zeta.
  destruct (exportPrepare_frame m e) as (_ & Dp). rewrite Dp.
  set (p := exportPrepare m e).
  set (d1 := (addFunction (FScene (exportScene grp (m_doc e))) (m_doc e)).2).
  set (l := exportRun p.1 grp (latestFunctionId (m_doc e)) (set_doc d1 p.2)).
  pose proof (exportRun_frame p.1 grp (latestFunctionId (m_doc e)) (set_doc d1 p.2)) as R.
  cbn zeta in R. fold l in R. destruct R as (D & _).
  cbn [m_doc set_doc] in D.
  set (d2 := (addFunction (FSequence (sequence l)) (m_doc (loop_editor l))).2).
  assert (Hfinal : m_doc (if m_testButton_isChecked e
                          then m_testButton_click p.1 (set_doc d2 (loop_editor l))
                          else let '(ok, e4) :=
                                 createPreviewItems p.1 (set_doc d2 (loop_editor l)) in
                               if ok then (p.1, timer_start tick e4) else (p.1, e4)).2
                   = d2).
  { destruct (m_testButton_isChecked e).
    - pose proof (m_testButton_click_frame p.1 (set_doc d2 (loop_editor l))) as Fc.
      cbn zeta in Fc. tauto.
    - pose proof (createPreviewItems_frame p.1 (set_doc d2 (loop_editor l))) as Fc.
      cbn zeta in Fc.
      destruct (createPreviewItems p.1 (set_doc d2 (loop_editor l))) as [ok e4].
      cbn [snd] in Fc. destruct Fc as (_ & Dc & _). destruct ok; exact Dc. }
  rewrite Hfinal. subst d2. cbn [addFunction snd functions]. rewrite D.
  subst d1. cbn [addFunction snd functions latestFunctionId].
  rewrite <- app_assoc. reflexivity.
Qed.

(** What a head adds to the scene stays in it. *)
Lemma sceneOfHead_keeps (d : Doc) (s : Scene) (h : GroupHead) (k : Z * Z) :
  is_Some (scene_values s !! k) -> is_Some (scene_values (sceneOfHead d s h) !! k).
Proof.
  intros Hk. unfold sceneOfHead.
  destruct (fixtures d !! head_fxi h) as [fxi |]; [| exact Hk].
  assert (Hset : forall f c s', is_Some (scene_values s' !! k) ->
                   is_Some (scene_values (scene_setValue f c 0 s') !! k)).
  { intros f c s' Hs. unfold scene_setValue. cbn.
    destruct (decide ((f, c) = k)) as [<- | Hne].
    - rewrite lookup_insert_eq. eauto.
    - rewrite lookup_insert_ne by exact Hne. exact Hs. }
  destruct (negb _);
    destruct (rgbChannels fxi (head_head h)) as [| ? [| ? [| ? [| ? ?]]]];
    repeat apply Hset; exact Hk.
Qed.

Lemma sceneOfHeads_keeps (d : Doc) (hs : list GroupHead) (k : Z * Z) :
  forall s : Scene,
    is_Some (scene_values s !! k) ->
    is_Some (scene_values (foldl (sceneOfHead d) s hs) !! k).
Proof.
  induction hs as [| h hs IH]; intros s Hk; [exact Hk |].
  cbn. apply IH, sceneOfHead_keeps, Hk.
Qed.

Lemma scene_setValue_zeroed (d : Doc) (hs : list GroupHead) (s : Scene)
    (h : GroupHead) (ch : Z) :
  h ∈ hs -> is_Some (fixtures d !! head_fxi h) ->
  scene_zeroed d hs s -> scene_zeroed d hs (scene_setValue (head_fxi h) ch 0 s).
Proof.
  intros Hin Hf (Hv & Hz & Hk). unfold scene_zeroed, scene_setValue. cbn.
  split; [exact Hv |]. split.
  - intros k v. destruct (decide ((head_fxi h, ch) = k)) as [<- | Hne].
    + rewrite lookup_insert_eq. congruence.
    + rewrite lookup_insert_ne by exact Hne. apply Hz.
  - intros fxi ch'. destruct (decide ((head_fxi h, ch) = (fxi, ch'))) as [Heq | Hne].
    + injection Heq as <- <-. intros _. split; [exact Hf | eauto].
    + rewrite lookup_insert_ne by exact Hne. apply Hk.
Qed.

Lemma sceneOfHead_zeroed (d : Doc) (hs : list GroupHead) (s : Scene) (h : GroupHead) :
  h ∈ hs -> scene_zeroed d hs s -> scene_zeroed d hs (sceneOfHead d s h).
Proof.
  intros Hin Hs. unfold sceneOfHead.
  destruct (fixtures d !! head_fxi h) as [fxi |] eqn:Hf; [| exact Hs].
  assert (Hf' : is_Some (fixtures d !! head_fxi h)) by (rewrite Hf; eauto).
  destruct (negb _);
    destruct (rgbChannels fxi (head_head h)) as [| ? [| ? [| ? [| ? ?]]]];
    repeat apply scene_setValue_zeroed; assumption.
Qed.

Lemma sceneOfHeads_zeroed (d : Doc) (hs l : list GroupHead) :
  forall s : Scene,
    (forall h, h ∈ l -> h ∈ hs) ->
    scene_zeroed d hs s -> scene_zeroed d hs (foldl (sceneOfHead d) s l).
Proof.
  induction l as [| h l IH]; intros s Hsub Hs; [exact Hs |].
  cbn. apply IH.
  - intros h' Hh'. apply Hsub. apply elem_of_cons. auto.
  - apply sceneOfHead_zeroed; [| exact Hs]. apply Hsub. apply elem_of_cons. auto.
Qed.

(** The channels a head gets in the scene. *)
Lemma sceneOfHead_sets (d : Doc) (s : Scene) (h : GroupHead) (fxi : Fixture) :
  fixtures d !! head_fxi h = Some fxi ->
  (forall c0 c1 c2, rgbChannels fxi (head_head h) = [c0; c1; c2] ->
     forall c, c ∈ [c0; c1; c2] ->
       is_Some (scene_values (sceneOfHead d s h) !! (head_fxi h, c))) /\
  (masterIntensityChannel fxi (head_head h) <> QLCChannel_invalid ->
   is_Some (scene_values (sceneOfHead d s h)
              !! (head_fxi h, masterIntensityChannel fxi (head_head h)))).
Proof.
  intros Hf. unfold sceneOfHead. rewrite Hf.
  assert (Hnew : forall f c s', is_Some (scene_values (scene_setValue f c 0 s') !! (f, c))).
  { intros f c s'. unfold scene_setValue. cbn. rewrite lookup_insert_eq. eauto. }
  assert (Hset : forall k f c s', is_Some (scene_values s' !! k) ->
                   is_Some (scene_values (scene_setValue f c 0 s') !! k)).
  { intros k f c s' Hs. unfold scene_setValue. cbn.
    destruct (decide ((f, c) = k)) as [<- | Hne].
    - rewrite lookup_insert_eq. eauto.
    - rewrite lookup_insert_ne by exact Hne. exact Hs. }
  split.
  - intros c0 c1 c2 -> c Hc.
    assert (Hrgb : is_Some (scene_values
                     (scene_setValue (head_fxi h) c2 0
                        (scene_setValue (head_fxi h) c1 0
                           (scene_setValue (head_fxi h) c0 0 s))) !! (head_fxi h, c))).
    { apply elem_of_cons in Hc as [-> | Hc]; [do 2 apply Hset; apply Hnew |].
      apply elem_of_cons in Hc as [-> | Hc]; [apply Hset; apply Hnew |].
      apply list_elem_of_singleton in Hc as ->. apply Hnew. }
    destruct (negb _); [apply Hset |]; exact Hrgb.
  - intros Hm. apply Z.eqb_neq in Hm. rewrite Hm. cbn [negb]. apply Hnew.
Qed.

Lemma exportScene_zeroed (grp : FixtureGroup) (d : Doc) :
  scene_zeroed d (headList grp) (exportScene grp d).
Proof.
  unfold exportScene. apply sceneOfHeads_zeroed; [auto |].
  unfold scene_zeroed. cbn. split; [reflexivity |]. split.
  - intros k v. rewrite lookup_empty. discriminate.
  - intros fxi ch. rewrite lookup_empty. intros [? ?]. discriminate.
Qed.

Lemma exportScene_sets (grp : FixtureGroup) (d : Doc) (h : GroupHead) (fxi : Fixture) :
  h ∈ headList grp ->
  fixtures d !! head_fxi h = Some fxi ->
  (forall c0 c1 c2, rgbChannels fxi (head_head h) = [c0; c1; c2] ->
     forall c, c ∈ [c0; c1; c2] ->
       scene_values (exportScene grp d) !! (head_fxi h, c) = Some 0) /\
  (masterIntensityChannel fxi (head_head h) <> QLCChannel_invalid ->
   scene_values (exportScene grp d)
     !! (head_fxi h, masterIntensityChannel fxi (head_head h)) = Some 0).
Proof.
  intros Hin Hf.
  destruct (exportScene_zeroed grp d) as (_ & Hz & _).
  assert (Hzero : forall k, is_Some (scene_values (exportScene grp d) !! k) ->
                    scene_values (exportScene grp d) !! k = Some 0).
  { intros k [v Hv]. rewrite Hv. f_equal. exact (Hz _ _ Hv). }
  apply list_elem_of_split in Hin as (l1 & l2 & Hl).
  unfold exportScene in *. rewrite Hl in *. rewrite foldl_app in *. cbn [foldl] in *.
  match goal with |- context [sceneOfHead d ?s1 h] =>
    destruct (sceneOfHead_sets d s1 h fxi Hf) as (Hrgb & Hmaster) end.
  split.
  - intros c0 c1 c2 Hch c Hc. apply Hzero, sceneOfHeads_keeps. eapply Hrgb; eauto.
  - intros Hm. apply Hzero, sceneOfHeads_keeps. exact (Hmaster Hm).
Qed.

(** X18. The scene the export registers is named after the group, hidden,
    and holds a zero, and nothing but zeros, for the three colour channels
    (when the head has three) and the master intensity channel (when it has
    one) of every head of the group whose fixture the document has; it
    holds no value of any other fixture. *)
Theorem exported_scene_zeroed (m : RGBMatrix) (e : Editor) (grp : FixtureGroup)
    (a : RGBAlgorithm) :
  fixtureGroup m <> FixtureGroup_invalidId ->
  fixtureGroups (m_doc e) !! fixtureGroup m = Some grp ->
  algorithm m = Some a ->
  let r := slotSaveToSequenceClicked (Some m) e in
  exists sc sq,
    functions (m_doc r.2) = functions (m_doc e) ++ [FScene sc; FSequence sq] /\
    scene_id sc = latestFunctionId (m_doc e) /\
    scene_name sc = group_name grp /\
    scene_zeroed (m_doc e) (headList grp) sc /\
    (forall h fxi,
       h ∈ headList grp -> fixtures (m_doc e) !! head_fxi h = Some fxi ->
       (forall c0 c1 c2, rgbChannels fxi (head_head h) = [c0; c1; c2] ->
          forall c, c ∈ [c0; c1; c2] ->
            scene_values sc !! (head_fxi h, c) = Some 0) /\
       (masterIntensityChannel fxi (head_head h) <> QLCChannel_invalid ->
        scene_values sc !! (head_fxi h, masterIntensityChannel fxi (head_head h))
        = Some 0)).
Proof.
  intros Hid Hg Ha. cbn zeta.
  rewrite (slotSaveToSequenceClicked_runs m e grp a Hid Hg Ha).
  pose proof (saveToSequence_functions m grp e) as Hf. cbn zeta in Hf.
  cbn [Function_setID] in Hf.
  eexists _, _. split; [exact Hf |]. cbn [scene_id scene_name scene_values].
  split; [reflexivity |]. split; [apply sceneOfHeads_name |]. split.
  - exact (exportScene_zeroed grp (m_doc e)).
  - intros h fxi Hin Hfx. exact (exportScene_sets grp (m_doc e) h fxi Hin Hfx).
Qed.

(** *** The name of the sequence *)





(** A marker in the name is taken for one of the format by the second
    [.arg()]. *)
Lemma QString_arg_marker_in_name :
  QString_arg "Sequence" (QString_arg "%1f" "%1 %2") = "Sequencef %2"%string.
Proof. reflexivity. Qed.





Lemma foldl_index_inv {A B : Type} (P : A -> Prop) (f : Z -> A -> B -> A)
    (l : list B) :
  (forall i a b, P a -> P (f i a b)) ->
  forall i a, P a -> P (foldl_index f i a l).
Proof.
  intros Hf. induction l as [| b l IH]; intros i a Ha; [exact Ha |].
  cbn. apply IH, Hf, Ha.
Qed.

Lemma cellValues_ok (d : Doc) (grp : FixtureGroup) (y x col : Z)
    (vals : list SceneValue) :
  Forall (value_ok d) vals -> Forall (value_ok d) (cellValues d grp y x vals col).
Proof.
  intros Hv. unfold cellValues.
  destruct (fixtures d !! head_fxi (group_head grp (x, y))) as [fxi |] eqn:Hf;
    [| exact Hv].
  assert (Hs : is_Some (fixtures d !! head_fxi (group_head grp (x, y))))
    by (rewrite Hf; eauto).
  destruct (QColor_fromRgb_range col) as (Hr & Hg & Hb).
  assert (Hrgb : Forall (value_ok d)
            (match rgbChannels fxi (head_head (group_head grp (x, y))) with
             | [c0; c1; c2] =>
                 vals ++ [mkValue (head_fxi (group_head grp (x, y))) c0
                            (red (QColor_fromRgb col));
                          mkValue (head_fxi (group_head grp (x, y))) c1
                            (green (QColor_fromRgb col));
                          mkValue (head_fxi (group_head grp (x, y))) c2
                            (blue (QColor_fromRgb col))]
             | _ => vals
             end)).
  { destruct (rgbChannels fxi _) as [| ? [| ? [| ? [| ? ?]]]]; try exact Hv.
    apply Forall_app. split; [exact Hv |].
    repeat (apply List.Forall_cons;
            [split; [cbn [sv_value]; assumption | exact Hs] |]).
    apply List.Forall_nil. }
  destruct (negb _); [| exact Hrgb].
  apply Forall_app. split; [exact Hrgb |].
  apply List.Forall_cons; [| apply List.Forall_nil].
  split; [cbn [sv_value]; destruct (col =? 0); lia | exact Hs].
Qed.

Lemma mapValues_ok (d : Doc) (grp : FixtureGroup) (mp : list (list Z)) :
  Forall (value_ok d) (mapValues d grp mp).
Proof.
  unfold mapValues.
  apply (foldl_index_inv (Forall (value_ok d))); [| constructor].
  intros y vals row Hv.
  apply (foldl_index_inv (Forall (value_ok d))); [| exact Hv].
  intros x vals' col Hv'. apply cellValues_ok, Hv'.
Qed.

(** The values of the steps the loop adds: the sorted values of a map. *)
Lemma exportLoop_values (m : RGBMatrix) (grp : FixtureGroup) (sid T : Z) (d : Doc)
    (n : nat) :
  forall l : ExportLoop,
    m_doc (loop_editor l) = d ->
    exists news,
      steps (sequence (exportLoop n m grp sid T l)) = steps (sequence l) ++ news /\
      Forall (fun st => exists mp, values st = std_sort (mapValues d grp mp)) news.
Proof.
  induction n as [| n IH]; intros l Hd.
  - exists []. cbn. rewrite app_nil_r. split; [reflexivity | constructor].
  - cbn [exportLoop].
    destruct (exportStep_frame m grp sid T l) as (D & _).
    destruct (IH (exportStep m grp sid T l)) as (news & Hs & Hf); [congruence |].
    assert (Hst : exists mp,
               steps (sequence (exportStep m grp sid T l))
               = steps (sequence l)
                   ++ [mkStep sid (fadeInSpeed m) (wrap32 (duration m - fadeInSpeed m))
                         (fadeOutSpeed m) (duration m)
                         (std_sort (mapValues d grp mp))]).
    { unfold exportStep.
      destruct ((currentStep l + increment l =? T)
                && RunOrder_eqb (runOrder m) PingPong);
        cbn; rewrite Hd; eexists; reflexivity. }
    destruct Hst as (mp & Hst).
    eexists (_ :: news). split.
    + rewrite Hs, Hst, <- app_assoc. reflexivity.
    + constructor; [| exact Hf]. exists mp. reflexivity.
Qed.


(** X20. The sequence the export registers has one step for every step of
    the matrix, and twice that less one in the ping-pong order; the number
    of steps is read from the matrix once the scene is registered.  The
    values of every step are bytes, and they are values of fixtures of the
    document: a cell whose head has no fixture there adds none. *)
Theorem exported_steps_values (m : RGBMatrix) (e : Editor) (grp : FixtureGroup)
    (a : RGBAlgorithm) :
  fixtureGroup m <> FixtureGroup_invalidId ->
  fixtureGroups (m_doc e) !! fixtureGroup m = Some grp ->
  algorithm m = Some a ->
  let r := slotSaveToSequenceClicked (Some m) e in
  let n := stepsCount (addFunction (FScene (exportScene grp (m_doc e))) (m_doc e)).2
             (exportPrepare m e).1 in
  exists sc sq,
    functions (m_doc r.2) = functions (m_doc e) ++ [FScene sc; FSequence sq] /\
    length (steps sq)
    = Z.to_nat (if RunOrder_eqb (runOrder m) PingPong then n * 2 - 1 else n) /\
    forall st v, In st (steps sq) -> In v (values st) ->
      0 <= sv_value v <= 255 /\ is_Some (fixtures (m_doc e) !! sv_fxi v).
Proof.
  intros Hid Hg Ha. cbn zeta.
  rewrite (slotSaveToSequenceClicked_runs m e grp a Hid Hg Ha).
  pose proof (saveToSequence_functions m grp e) as Hf. cbn zeta in Hf.
  cbn [Function_setID] in Hf.
  eexists _, _. split; [exact Hf |]. cbn [steps].
  set (d1 := (addFunction (FScene (exportScene grp (m_doc e))) (m_doc e)).2).
  set (p := exportPrepare m e).
  destruct (exportPrepare_frame m e) as ((b & Hb) & _). fold p in Hb.
  split.
  - pose proof (exportRun_frame p.1 grp (latestFunctionId (m_doc e)) (set_doc d1 p.2))
      as R. cbn zeta in R. destruct R as (_ & _ & _ & _ & _ & L & _).
    rewrite L. cbn [m_doc set_doc]. rewrite Hb at 1. reflexivity.
  - intros st v Hst Hv. unfold exportRun in Hst.
    pose proof (exportInit_eq p.1 (latestFunctionId (m_doc e)) (set_doc d1 p.2)) as I.
    cbn zeta in I.
    destruct (exportInit p.1 (latestFunctionId (m_doc e)) (set_doc d1 p.2)) as [T l0].
    cbn [fst snd] in I. destruct I as (_ & _ & _ & S0 & _ & D0 & _).
    destruct (exportLoop_values p.1 grp (latestFunctionId (m_doc e)) T d1
                (Z.to_nat T) l0 D0) as (news & Hs & Hall).
    rewrite Hs, S0 in Hst. cbn in Hst.
    rewrite List.Forall_forall in Hall. destruct (Hall st Hst) as (mp & Hvals).
    rewrite Hvals in Hv.
    pose proof (mapValues_ok d1 grp mp) as Hok.
    apply (Permutation_Forall (std_sort_perm _)) in Hok.
    rewrite List.Forall_forall in Hok. exact (Hok v Hv).
Qed.


Lemma matrixEvents_previewMap (pm : list Z) : matrixEvents (map EvPreviewMap pm) = [].
Proof. induction pm; [reflexivity | assumption]. Qed.






(** *** Runs of the editor *)

Lemma createPreviewItems_controls (m : RGBMatrix) (e : Editor) :
  controls (createPreviewItems m e).2 = controls e.
Proof.
  unfold createPreviewItems. cbn.
  destruct (fixtureGroups (m_doc e) !! fixtureGroup m) as [grp |]; cbn.
  - match goal with |- context [m_map ?h] => destruct (m_map h) eqn:Emap end.
    + reflexivity.
    + match goal with |- context [foldl ?f ?a ?l] => destruct (foldl f a l) end.
      reflexivity.
  - reflexivity.
Qed.

Lemma updateColors_controls (m : RGBMatrix) (e : Editor) :
  controlMode (updateColors m e).1 = controlMode m /\
  controls (updateColors m e).2 = controls e.
Proof.
  unfold updateColors.
  destruct (algorithm m) as [a |]; [| split; reflexivity].
  destruct (0 <? acceptColors a); [| split; reflexivity].
  destruct (BlendMode_eqb (blendMode m) MaskBlend); [split; reflexivity |].
  destruct (negb (m_colorModeCombo_currentIndex e =? ControlModeRgb));
    destruct (1 <? acceptColors a); split; reflexivity.
Qed.

Lemma m_testButton_click_controls (m : RGBMatrix) (e : Editor) :
  let r := m_testButton_click m e in
  controlMode r.1 = controlMode m /\
  m_colorModeCombo_currentIndex r.2 = m_colorModeCombo_currentIndex e /\
  m_testButton_isEnabled r.2 = m_testButton_isEnabled e /\
  m_previewTimer r.2 = m_previewTimer e /\
  (button_ok e -> button_ok r.2).
Proof.
  cbn zeta. split; [| split; [| split; [| split]]].
  - destruct (m_testButton_click_matrix m e) as (b & ->). reflexivity.
  - unfold m_testButton_click, slotTestClicked.
    destruct (m_testButton_isEnabled e); [| reflexivity].
    cbn. destruct (m_testButton_isChecked e); reflexivity.
  - apply m_testButton_click_frame.
  - apply m_testButton_click_frame.
  - apply m_testButton_click_button_ok.
Qed.

(** The restart keeps the control mode, the colour mode entry and the
    button in order, and leaves the timer stopped or at the tick. *)
Lemma slotRestartTest_controls (m : RGBMatrix) (e : Editor) :
  let r := slotRestartTest m e in
  controlMode r.1 = controlMode m /\
  m_colorModeCombo_currentIndex r.2 = m_colorModeCombo_currentIndex e /\
  (button_ok e -> button_ok r.2) /\
  (m_previewTimer r.2 = None \/ m_previewTimer r.2 = Some tick).
Proof.
  cbn zeta. split.
  { destruct (slotRestartTest_matrix m e) as (b & ->). reflexivity. }
  unfold slotRestartTest.
  assert (S : exists m2 e2,
             (if m_testButton_isChecked (timer_stop e)
              then let '(m', e') := m_testButton_click m (timer_stop e) in
                   m_testButton_click m' e'
              else (m, timer_stop e)) = (m2, e2) /\
             m_colorModeCombo_currentIndex e2 = m_colorModeCombo_currentIndex e /\
             (button_ok e -> button_ok e2) /\
             m_previewTimer e2 = None).
  { destruct (m_testButton_isChecked (timer_stop e)).
    - destruct (m_testButton_click m (timer_stop e)) as [m' e'] eqn:C1.
      destruct (m_testButton_click m' e') as [m2 e2] eqn:C2.
      exists m2, e2. split; [reflexivity |].
      destruct (m_testButton_click_controls m (timer_stop e)) as (_ & I1 & _ & T1 & B1).
      destruct (m_testButton_click_controls m' e') as (_ & I2 & _ & T2 & B2).
      rewrite C1 in I1, T1, B1. rewrite C2 in I2, T2, B2. cbn [fst snd] in *.
      split; [rewrite I2, I1; reflexivity |].
      split; [intros H; apply B2, B1; exact H |].
      rewrite T2, T1. reflexivity.
    - exists m, (timer_stop e). repeat split. intros H. exact H. }
  destruct S as (m2 & e2 & -> & I & B & T).
  pose proof (createPreviewItems_controls m2 e2) as C.
  destruct (createPreviewItems m2 e2) as [[] e3]; cbn [fst snd] in *;
    injection C as Ci Cc Ce Ct.
  - split; [cbn; congruence |]. split; [| right; reflexivity].
    intros H. specialize (B H). unfold button_ok in *. cbn. rewrite Cc, Ce. exact B.
  - split; [congruence |]. split; [| left; congruence].
    intros H. specialize (B H). unfold button_ok in *. rewrite Cc, Ce. exact B.
Qed.

(** What every slot below keeps: the control mode of the matrix, the entry
    of the colour mode combo and the order of the button; the timer is as
    it was, stopped, or at the tick. *)
Ltac restarted :=
  match goal with |- context [slotRestartTest ?m1 ?e1] =>
    let M := fresh "M" in let I := fresh "I" in
    let B := fresh "B" in let T := fresh "T" in
    destruct (slotRestartTest_controls m1 e1) as (M & I & B & T);
    split; [exact M | split; [exact I | split; [exact B | right; exact T]]]
  end.

Ltac untouched :=
  split; [reflexivity
         | split; [reflexivity
                  | split; [let H := fresh in intros H; exact H | left; reflexivity]]].

Lemma dispatch_controls (s : AlgorithmSignal) (m : RGBMatrix) (e : Editor) :
  let r := dispatch s m e in
  controlMode r.1 = controlMode m /\
  m_colorModeCombo_currentIndex r.2 = m_colorModeCombo_currentIndex e /\
  (button_ok e -> button_ok r.2) /\
  (m_previewTimer r.2 = m_previewTimer e \/
   m_previewTimer r.2 = None \/ m_previewTimer r.2 = Some tick).
Proof.
  cbn zeta. destruct s; cbn [dispatch].
  - unfold slotTextEdited. destruct (algorithm m) as [[] |]; try untouched.
    cbn. restarted.
  - unfold slotFontButtonClicked. destruct (algorithm m) as [[] |]; try untouched.
    destruct dialog; [cbn; restarted | untouched].
  - unfold slotAnimationActivated. destruct (algorithm m) as [[] |]; try untouched.
    cbn. restarted.
  - unfold slotImageEdited. destruct (algorithm m) as [[] |]; try untouched.
    cbn. restarted.
  - unfold slotImageButtonClicked. destruct (algorithm m) as [[] |]; try untouched.
    destruct (negb (String.eqb path EmptyString)); [cbn; restarted | untouched].
  - unfold slotImageAnimationActivated. destruct (algorithm m) as [[] |]; try untouched.
    cbn. restarted.
  - unfold slotOffsetSpinChanged.
    destruct (algorithm m) as [[] |] eqn:A; cbn; rewrite ?A; try untouched.
    + match goal with |- context [slotRestartTest ?m1 ?e1] =>
        destruct (slotRestartTest_controls m1 e1) as (M1 & I1 & B1 & T1);
        destruct (slotRestartTest m1 e1) as [m' e']
      end.
      cbn [fst snd] in *.
      destruct (algorithm m') as [[] |];
        try (split; [exact M1 | split; [exact I1 | split; [exact B1 | right; exact T1]]]).
      cbn.
      match goal with |- context [slotRestartTest ?m1 ?e1] =>
        destruct (slotRestartTest_controls m1 e1) as (M2 & I2 & B2 & T2)
      end.
      split; [etransitivity; [exact M2 | exact M1] |].
      split; [etransitivity; [exact I2 | exact I1] |].
      split; [intros H; apply B2, B1; exact H | right; exact T2].
    + restarted.
Qed.

Lemma previewLoop_controls (m : RGBMatrix) :
  forall (fuel : nat) (elapsed : Z) (e : Editor),
    controls (previewLoop fuel m elapsed e).2 = controls e.
Proof.
  induction fuel as [| fuel IH]; intros elapsed e; cbn [previewLoop]; [reflexivity |].
  destruct (MAX (duration m) tick <=? m_previewIterator e); [| reflexivity].
  rewrite IH. reflexivity.
Qed.

Lemma slotPreviewTimeout_controls (m : RGBMatrix) (e : Editor) :
  controls (slotPreviewTimeout m e) = controls e.
Proof.
  unfold slotPreviewTimeout. destruct (duration m <=? 0); [reflexivity |].
  match goal with |- context [previewLoop ?f m ?el ?e1] =>
    pose proof (previewLoop_controls m f el e1) as P;
    destruct (previewLoop f m el e1) as [elapsed e2]
  end.
  cbn [snd] in P. transitivity (controls e2); [reflexivity | exact P].
Qed.

Lemma exportLoop_controls (m : RGBMatrix) (grp : FixtureGroup) (sid total : Z) :
  forall (n : nat) (l : ExportLoop),
    controls (loop_editor (exportLoop n m grp sid total l)) = controls (loop_editor l).
Proof.
  induction n as [| n IH]; intros l; cbn [exportLoop]; [reflexivity |].
  rewrite IH. unfold exportStep.
  destruct ((currentStep l + increment l =? total) && RunOrder_eqb (runOrder m) PingPong);
    reflexivity.
Qed.

Lemma exportRun_controls (m : RGBMatrix) (grp : FixtureGroup) (sid : Z) (e : Editor) :
  controls (loop_editor (exportRun m grp sid e)) = controls e.
Proof.
  unfold exportRun. destruct (exportInit m sid e) as [total l0] eqn:E.
  rewrite exportLoop_controls. unfold exportInit in E.
  destruct (Direction_eqb (direction m) Backward), (isValid (endColor m));
    injection E as <- <-; reflexivity.
Qed.

Lemma saveToSequence_controls (m : RGBMatrix) (grp : FixtureGroup) (e : Editor) :
  let r := saveToSequence m grp e in
  controlMode r.1 = controlMode m /\
  m_colorModeCombo_currentIndex r.2 = m_colorModeCombo_currentIndex e /\
  (button_ok e -> button_ok r.2) /\
  (m_previewTimer r.2 = m_previewTimer e \/
   m_previewTimer r.2 = None \/ m_previewTimer r.2 = Some tick).
Proof.
  cbn zeta. rewrite saveToSequence_eq. cbn zeta. unfold exportPrepare.
  destruct (m_testButton_isChecked e) eqn:Hc.
  - destruct (m_testButton_click_controls m e) as (M1 & I1 & _ & T1 & B1).
    destruct (m_testButton_click m e) as [m1 e1]. cbn [fst snd] in *.
    match goal with |- context [m_testButton_click m1 ?e3] =>
      assert (C : controls e3 = controls e1)
        by (cbn; exact (exportRun_controls _ _ _ _));
      generalize dependent e3
    end.
    intros e3 C.
    destruct (m_testButton_click_controls m1 e3) as (M2 & I2 & _ & T2 & B2).
    unfold controls in C. injection C as Ci Cc Ce Ct.
    split; [congruence |]. split; [congruence |].
    split; [| left; congruence].
    intros H. apply B2. specialize (B1 H). unfold button_ok in *.
    rewrite Cc, Ce. exact B1.
  - cbn [fst snd].
    match goal with |- context [createPreviewItems m ?e3] =>
      assert (C : controls e3 = controls (timer_stop e))
        by (cbn; exact (exportRun_controls _ _ _ _));
      generalize dependent e3
    end.
    intros e3 C.
    pose proof (createPreviewItems_controls m e3) as P.
    destruct (createPreviewItems m e3) as [[] e4]; cbn [fst snd] in *;
      rewrite C in P; unfold controls in P; cbn in P; injection P as Pi Pc Pe Pt.
    + split; [reflexivity |]. split; [exact Pi |]. split; [| right; right; reflexivity].
      intros H. unfold button_ok in *. cbn. rewrite Pc, Pe. exact H.
    + split; [reflexivity |]. split; [exact Pi |].
      split; [| right; left; exact Pt].
      intros H. unfold button_ok in *. rewrite Pc, Pe. exact H.
Qed.

(** After [updateColors], then the restart. *)
Lemma recoloured_controls (m : RGBMatrix) (e : Editor) :
  let u := updateColors m e in
  let r := slotRestartTest u.1 u.2 in
  controlMode r.1 = controlMode m /\
  m_colorModeCombo_currentIndex r.2 = m_colorModeCombo_currentIndex e /\
  (button_ok e -> button_ok r.2) /\
  (m_previewTimer r.2 = None \/ m_previewTimer r.2 = Some tick).
Proof.
  cbn zeta. destruct (updateColors_controls m e) as (M1 & C1).
  destruct (slotRestartTest_controls (updateColors m e).1 (updateColors m e).2)
    as (M2 & I2 & B2 & T2).
  injection C1 as Ci Cc Ce Ct.
  split; [congruence |]. split; [congruence |]. split; [| exact T2].
  intros H. apply B2. unfold button_ok in *. rewrite Cc, Ce. exact H.
Qed.

Lemma act_controls (a : Action) (s : RGBMatrix * Editor) :
  let r := act a s in
  (m_colorModeCombo_currentIndex s.2 = controlMode s.1 ->
   m_colorModeCombo_currentIndex r.2 = controlMode r.1) /\
  (button_ok s.2 -> button_ok r.2) /\
  (m_previewTimer r.2 = m_previewTimer s.2 \/
   m_previewTimer r.2 = None \/ m_previewTimer r.2 = Some tick).
Proof.
  destruct s as [m e]. cbn zeta. cbn [fst snd].
  assert (K : forall r : RGBMatrix * Editor,
             controlMode r.1 = controlMode m /\
             m_colorModeCombo_currentIndex r.2 = m_colorModeCombo_currentIndex e /\
             (button_ok e -> button_ok r.2) /\
             (m_previewTimer r.2 = m_previewTimer e \/
              m_previewTimer r.2 = None \/ m_previewTimer r.2 = Some tick) ->
             (m_colorModeCombo_currentIndex e = controlMode m ->
              m_colorModeCombo_currentIndex r.2 = controlMode r.1) /\
             (button_ok e -> button_ok r.2) /\
             (m_previewTimer r.2 = m_previewTimer e \/
              m_previewTimer r.2 = None \/ m_previewTimer r.2 = Some tick)).
  { intros r (M & I & B & T). split; [congruence | split; assumption]. }
  assert (R : forall (m1 : RGBMatrix) (e1 : Editor),
             controlMode m1 = controlMode m ->
             m_colorModeCombo_currentIndex e1 = m_colorModeCombo_currentIndex e ->
             m_testButton_isChecked e1 = m_testButton_isChecked e ->
             m_testButton_isEnabled e1 = m_testButton_isEnabled e ->
             let u := updateColors m1 e1 in
             let r := slotRestartTest u.1 u.2 in
             controlMode r.1 = controlMode m /\
             m_colorModeCombo_currentIndex r.2 = m_colorModeCombo_currentIndex e /\
             (button_ok e -> button_ok r.2) /\
             (m_previewTimer r.2 = m_previewTimer e \/
              m_previewTimer r.2 = None \/ m_previewTimer r.2 = Some tick)).
  { intros m1 e1 Hm Hi Hc He. cbn zeta.
    destruct (recoloured_controls m1 e1) as (M & I & B & T).
    split; [congruence |]. split; [congruence |]. split; [| right; exact T].
    intros H. apply B. unfold button_ok in *. rewrite Hc, He. exact H. }
  destruct a; cbn [act fst snd].
  - (* the test button *)
    apply K. destruct (m_testButton_click_controls m e) as (M & I & _ & T & B).
    repeat split; try assumption. left. exact T.
  - (* the mode of the document *)
    apply K. split; [| split; [| split]].
    + unfold slotModeChanged. destruct mode; [reflexivity |].
      destruct (m_testButton_isChecked e); reflexivity.
    + unfold slotModeChanged. destruct mode; [reflexivity |].
      destruct (m_testButton_isChecked e); reflexivity.
    + intros _. apply slotModeChanged_button_ok.
    + left. unfold slotModeChanged. destruct mode; [reflexivity |].
      destruct (m_testButton_isChecked e); reflexivity.
  - (* the colour mode *)
    unfold slotColorModeChanged.
    destruct (recoloured_controls (setControlMode index m) (set_comboIndex index e))
      as (M & I & B & T).
    destruct (updateColors (setControlMode index m) (set_comboIndex index e))
      as [m2 e2].
    cbn [fst snd] in *.
    split; [intros _; rewrite M, I; reflexivity |].
    split; [exact B | right; exact T].
  - (* the start colour *)
    apply K. unfold slotStartColorButtonClicked.
    destruct (isValid col); [| untouched].
    pose proof (R (setStartColor col m) e eq_refl eq_refl eq_refl eq_refl) as F.
    cbn zeta in F.
    destruct (updateColors (setStartColor col m) e) as [m2 e2]. exact F.
  - (* the end colour *)
    apply K. unfold slotEndColorButtonClicked.
    destruct (isValid col); [| untouched].
    pose proof (R (setEndColor col m) e eq_refl eq_refl eq_refl eq_refl) as F.
    cbn zeta in F.
    destruct (updateColors (setEndColor col m) e) as [m2 e2]. exact F.
  - (* the reset of the end colour *)
    apply K. unfold slotResetEndColorButtonClicked. cbn zeta.
    match goal with |- context [updateColors ?m1 ?e1] =>
      pose proof (R m1 e1 eq_refl eq_refl eq_refl eq_refl) as F;
      cbn zeta in F; destruct (updateColors m1 e1) as [m2 e2]
    end.
    exact F.
  - apply K. unfold slotLoopClicked. restarted.
  - apply K. unfold slotPingPongClicked. restarted.
  - apply K. unfold slotSingleShotClicked. restarted.
  - apply K. unfold slotForwardClicked. restarted.
  - apply K. unfold slotBackwardClicked. restarted.
  - (* the algorithm widgets *)
    apply K. apply dispatch_controls.
  - (* the fixture group *)
    apply K. unfold slotFixtureGroupActivated.
    destruct (combo_itemData index c) as [g |].
    + destruct (slotRestartTest_controls (setFixtureGroup g m) e) as (M & I & B & T).
      split; [exact M | split; [exact I | split; [exact B | right; exact T]]].
    + cbn. split; [reflexivity |]. split; [reflexivity |].
      split; [intros H; exact H | right; left; reflexivity].
  - (* the preview timer *)
    apply (K (m, slotPreviewTimeout m e)). cbn [fst snd].
    pose proof (slotPreviewTimeout_controls m e) as C.
    unfold controls in C. injection C as Ci Cc Ce Ct.
    split; [reflexivity |]. split; [exact Ci |]. split; [| left; exact Ct].
    intros H. unfold button_ok in *. rewrite Cc, Ce. exact H.
  - (* the shape button *)
    apply (K (m, slotShapeToggle m (set_shape (negb (m_shapeButton_isChecked e)) e))).
    cbn [fst snd]. unfold slotShapeToggle.
    pose proof (createPreviewItems_controls m
                  (set_shape (negb (m_shapeButton_isChecked e)) e)) as C.
    unfold controls in C. injection C as Ci Cc Ce Ct.
    split; [reflexivity |]. split; [exact Ci |]. split; [| left; exact Ct].
    intros H. unfold button_ok in *. rewrite Cc, Ce. exact H.
  - (* the export *)
    apply (K (default m (slotSaveToSequenceClicked (Some m) e).1,
              (slotSaveToSequenceClicked (Some m) e).2)).
    unfold slotSaveToSequenceClicked.
    destruct (fixtureGroup m =? FixtureGroup_invalidId); [untouched |].
    destruct (fixtureGroups (m_doc e) !! fixtureGroup m) as [grp |]; [| untouched].
    destruct (algorithm m) as [a |]; [| untouched].
    pose proof (saveToSequence_controls m grp e) as F. cbn zeta in F.
    destruct (saveToSequence m grp e) as [m' e']. exact F.
  - (* stopTest *)
    apply K. unfold stopTest.
    destruct (m_testButton_isChecked e); [| untouched].
    destruct (m_testButton_click_controls m e) as (M & I & _ & T & B).
    repeat split; try assumption. left. exact T.
Qed.

Lemma init_controls (m : RGBMatrix) (e : Editor) :
  m_colorModeCombo_currentIndex (init m e) = controlMode m /\
  m_testButton_isChecked (init m e) = m_testButton_isChecked e /\
  m_testButton_isEnabled (init m e) = m_testButton_isEnabled e /\
  (m_previewTimer (init m e) = m_previewTimer e \/
   m_previewTimer (init m e) = Some tick).
Proof.
  unfold init.
  match goal with |- context [createPreviewItems m ?e3] =>
    pose proof (createPreviewItems_controls m e3) as C;
    destruct (createPreviewItems m e3) as [[] e4]
  end; cbn [snd] in C; injection C as Ci Cc Ce Ct.
  - repeat split; try assumption. right. reflexivity.
  - repeat split; try assumption. left. exact Ct.
Qed.

(** X23. The colour mode combo and the matrix never disagree: from [init]
    on, through any sequence of the actions of [Action], the current entry
    of the combo is the control mode of the matrix.  So the test of
    [updateColors] on the combo is a test on the matrix's own control
    mode. *)
Theorem run_control_mode_in_sync (l : list Action) (m : RGBMatrix) (e : Editor) :
  let r := run l (m, init m e) in
  m_colorModeCombo_currentIndex r.2 = controlMode r.1.
Proof.
  cbn zeta. unfold run.
  assert (G : forall (l : list Action) (s : RGBMatrix * Editor),
             m_colorModeCombo_currentIndex s.2 = controlMode s.1 ->
             m_colorModeCombo_currentIndex (foldl (fun s a => act a s) s l).2
             = controlMode (foldl (fun s a => act a s) s l).1).
  { clear. induction l as [| a l IH]; intros s H; [exact H |].
    cbn [foldl]. apply IH. apply (act_controls a s). exact H. }
  apply G. cbn [fst snd]. apply init_controls.
Qed.

(** X24. The test button is never left down and disabled: if that holds
    before [init] it holds after it, and after any sequence of the actions
    of [Action] that follows. *)
Theorem run_button_ok (l : list Action) (m : RGBMatrix) (e : Editor) :
  button_ok e ->
  button_ok (init m e) /\ button_ok (run l (m, init m e)).2.
Proof.
  intros H.
  assert (H0 : button_ok (init m e)).
  { destruct (init_controls m e) as (_ & Cc & Ce & _).
    unfold button_ok in *. rewrite Cc, Ce. exact H. }
  split; [exact H0 |]. unfold run.
  change (button_ok (m, init m e).2) in H0. revert H0.
  generalize (m, init m e). clear.
  induction l as [| a l IH]; intros s H; [exact H |].
  cbn [foldl]. apply IH. apply (act_controls a s). exact H.
Qed.

(** X25. The preview timer only ever runs at [MasterTimer::tick()]: if it
    was not running when [init] was called, then after [init] and any
    sequence of the actions of [Action] it is stopped or runs at the
    tick. *)
Theorem run_timer_at_tick (l : list Action) (m : RGBMatrix) (e : Editor) :
  m_previewTimer e = None ->
  let r := run l (m, init m e) in
  m_previewTimer r.2 = None \/ m_previewTimer r.2 = Some tick.
Proof.
  intros H. cbn zeta.
  assert (H0 : m_previewTimer (m, init m e).2 = None \/
               m_previewTimer (m, init m e).2 = Some tick).
  { cbn [snd]. destruct (init_controls m e) as (_ & _ & _ & [T | T]).
    - left. congruence.
    - right. exact T. }
  unfold run. revert H0. generalize (m, init m e). clear.
  induction l as [| a l IH]; intros s H; [exact H |].
  cbn [foldl]. apply IH.
  destruct (act_controls a s) as (_ & _ & [T | [T | T]]).
  - rewrite T. exact H.
  - left. exact T.
  - right. exact T.
Qed.

(** *** What the matrix was told, and the test button *)

Lemma toldToRun_app (b : bool) (l1 l2 : list Event) :
  toldToRun b (l1 ++ l2) = toldToRun (toldToRun b l1) l2.
Proof. unfold toldToRun. apply foldl_app. Qed.

Lemma toldToRun_quiet (evs : list Event) :
  matrixEvents evs = [] -> forall b, toldToRun b evs = b.
Proof.
  induction evs as [| ev evs IH]; intros H b; [reflexivity |].
  destruct ev; cbn in H; try discriminate; cbn; apply IH; exact H.
Qed.

Lemma tracks_refl (e : Editor) : tracks e e.
Proof. exists []. split; [symmetry; apply app_nil_r | reflexivity]. Qed.

Lemma tracks_trans (e1 e2 e3 : Editor) : tracks e1 e2 -> tracks e2 e3 -> tracks e1 e3.
Proof.
  intros (evs1 & T1 & R1) (evs2 & T2 & R2). exists (evs1 ++ evs2). split.
  - rewrite T2, T1, app_assoc. reflexivity.
  - rewrite toldToRun_app, R1. exact R2.
Qed.

Lemma tracks_quiet (e e' : Editor) (evs : list Event) :
  trace e' = trace e ++ evs ->
  matrixEvents evs = [] ->
  m_testButton_isChecked e' = m_testButton_isChecked e ->
  tracks e e'.
Proof.
  intros T Q C. exists evs. split; [exact T |].
  rewrite (toldToRun_quiet evs Q). symmetry. exact C.
Qed.

Lemma tracks_same (e e' : Editor) :
  trace e' = trace e ->
  m_testButton_isChecked e' = m_testButton_isChecked e ->
  tracks e e'.
Proof.
  intros T C. apply (tracks_quiet e e' []); [| reflexivity | exact C].
  rewrite app_nil_r. exact T.
Qed.

Lemma tracks_emit (ev : Event) (e : Editor) :
  matrixEvents [ev] = [] -> tracks e (emit ev e).
Proof. intros Q. apply (tracks_quiet e (emit ev e) [ev]); [reflexivity | exact Q | reflexivity]. Qed.

Lemma createPreviewItems_tracks (m : RGBMatrix) (e : Editor) :
  tracks e (createPreviewItems m e).2.
Proof.
  destruct (createPreviewItems_frame m e) as (_ & _ & C & _ & _ & pm & T).
  apply (tracks_quiet _ _ (map EvPreviewMap pm)); [exact T | | exact C].
  apply matrixEvents_previewMap.
Qed.

Lemma m_testButton_click_tracks (m : RGBMatrix) (e : Editor) :
  tracks e (m_testButton_click m e).2.
Proof.
  unfold m_testButton_click, slotTestClicked.
  destruct (m_testButton_isEnabled e); [| apply tracks_refl].
  cbn. destruct (m_testButton_isChecked e) eqn:C; cbn.
  - exists [EvTestClick; EvMatrixStopAndWait]. cbn. rewrite <- app_assoc. split; reflexivity.
  - exists [EvTestClick; EvMatrixStart]. cbn. rewrite <- app_assoc. split; reflexivity.
Qed.

Lemma timer_stop_tracks (e : Editor) : tracks e (timer_stop e).
Proof. apply (tracks_quiet _ _ [EvTimerStop]); reflexivity. Qed.

Lemma timer_start_tracks (ms : Z) (e : Editor) : tracks e (timer_start ms e).
Proof. apply (tracks_quiet _ _ [EvTimerStart ms]); reflexivity. Qed.

Lemma slotRestartTest_tracks (m : RGBMatrix) (e : Editor) :
  tracks e (slotRestartTest m e).2.
Proof.
  unfold slotRestartTest.
  assert (S : exists m2 e2,
             (if m_testButton_isChecked (timer_stop e)
              then let '(m', e') := m_testButton_click m (timer_stop e) in
                   m_testButton_click m' e'
              else (m, timer_stop e)) = (m2, e2) /\ tracks e e2).
  { destruct (m_testButton_isChecked (timer_stop e)).
    - pose proof (m_testButton_click_tracks m (timer_stop e)) as T1.
      destruct (m_testButton_click m (timer_stop e)) as [m' e'].
      pose proof (m_testButton_click_tracks m' e') as T2.
      destruct (m_testButton_click m' e') as [m2 e2].
      exists m2, e2. split; [reflexivity |].
      exact (tracks_trans _ _ _ (timer_stop_tracks e) (tracks_trans _ _ _ T1 T2)).
    - exists m, (timer_stop e). split; [reflexivity | apply timer_stop_tracks]. }
  destruct S as (m2 & e2 & -> & T).
  pose proof (createPreviewItems_tracks m2 e2) as C.
  destruct (createPreviewItems m2 e2) as [[] e3]; cbn [fst snd] in *.
  - exact (tracks_trans _ _ _ T (tracks_trans _ _ _ C (timer_start_tracks tick e3))).
  - exact (tracks_trans _ _ _ T C).
Qed.

(** A slot that ends in the restart, on an editor [e1] the slot made from
    [e] without a call on the matrix. *)
Lemma restart_tracks (m1 : RGBMatrix) (e e1 : Editor) :
  tracks e e1 -> tracks e (slotRestartTest m1 e1).2.
Proof. intros T. exact (tracks_trans _ _ _ T (slotRestartTest_tracks m1 e1)). Qed.

Lemma updateColors_tracks (m : RGBMatrix) (e : Editor) :
  tracks e (updateColors m e).2.
Proof.
  apply (tracks_quiet _ _ []); [| reflexivity |].
  - rewrite app_nil_r. unfold updateColors.
    destruct (algorithm m) as [a |]; [| reflexivity].
    destruct (0 <? acceptColors a); [| reflexivity].
    destruct (BlendMode_eqb (blendMode m) MaskBlend); [reflexivity |].
    destruct (negb (m_colorModeCombo_currentIndex e =? ControlModeRgb));
      destruct (1 <? acceptColors a); reflexivity.
  - pose proof (updateColors_controls m e) as (_ & C).
    unfold controls in C. injection C as _ Cc _ _. exact Cc.
Qed.

Lemma recoloured_tracks (m1 : RGBMatrix) (e e1 : Editor) :
  tracks e e1 ->
  tracks e (slotRestartTest (updateColors m1 e1).1 (updateColors m1 e1).2).2.
Proof.
  intros T. apply restart_tracks.
  exact (tracks_trans _ _ _ T (updateColors_tracks m1 e1)).
Qed.

(** The setters under the mutex make no call on the matrix. *)
Lemma locked_tracks (a : RGBAlgorithm) (e : Editor) :
  tracks e (emit EvUnlock (emit (EvSetAlgo a) (emit EvLock e))).
Proof.
  apply (tracks_quiet _ _ [EvLock; EvSetAlgo a; EvUnlock]); [| reflexivity | reflexivity].
  cbn. rewrite <- !app_assoc. reflexivity.
Qed.

Lemma locked2_tracks (a1 a2 : RGBAlgorithm) (e : Editor) :
  tracks e (emit EvUnlock (emit (EvSetAlgo a2) (emit (EvSetAlgo a1) (emit EvLock e)))).
Proof.
  apply (tracks_quiet _ _ [EvLock; EvSetAlgo a1; EvSetAlgo a2; EvUnlock]);
    [| reflexivity | reflexivity].
  cbn. rewrite <- !app_assoc. reflexivity.
Qed.

Lemma dispatch_tracks (s : AlgorithmSignal) (m : RGBMatrix) (e : Editor) :
  tracks e (dispatch s m e).2.
Proof.
  destruct s; cbn [dispatch].
  - unfold slotTextEdited. destruct (algorithm m) as [[] |]; try apply tracks_refl.
    cbn. apply restart_tracks, locked_tracks.
  - unfold slotFontButtonClicked. destruct (algorithm m) as [[] |]; try apply tracks_refl.
    destruct dialog; [| apply tracks_refl]. cbn. apply restart_tracks, locked_tracks.
  - unfold slotAnimationActivated. destruct (algorithm m) as [[] |]; try apply tracks_refl.
    cbn. apply restart_tracks, locked_tracks.
  - unfold slotImageEdited. destruct (algorithm m) as [[] |]; try apply tracks_refl.
    cbn. apply restart_tracks, locked_tracks.
  - unfold slotImageButtonClicked. destruct (algorithm m) as [[] |]; try apply tracks_refl.
    destruct (negb (String.eqb path EmptyString)); [| apply tracks_refl].
    cbn. apply restart_tracks, locked_tracks.
  - unfold slotImageAnimationActivated.
    destruct (algorithm m) as [[] |]; try apply tracks_refl.
    cbn. apply restart_tracks, locked_tracks.
  - unfold slotOffsetSpinChanged.
    destruct (algorithm m) as [[] |] eqn:A; cbn; rewrite ?A; try apply tracks_refl.
    + match goal with |- context [slotRestartTest ?m1 ?e1] =>
        pose proof (restart_tracks m1 e e1 (locked2_tracks _ _ e)) as T1;
        destruct (slotRestartTest m1 e1) as [m' e']
      end.
      cbn [fst snd] in *.
      destruct (algorithm m') as [[] |]; try exact T1.
      cbn. apply restart_tracks.
      exact (tracks_trans _ _ _ T1 (locked2_tracks _ _ e')).
    + apply restart_tracks, locked2_tracks.
Qed.

Lemma advancePreview_tracks (m : RGBMatrix) (e : Editor) : tracks e (advancePreview m e).
Proof.
  unfold advancePreview, callPreviewMap.
  match goal with |- context [EvPreviewMap ?s] =>
    apply (tracks_quiet _ _ [EvPreviewMap s]); reflexivity end.
Qed.

Lemma previewLoop_tracks (m : RGBMatrix) :
  forall (fuel : nat) (elapsed : Z) (e : Editor),
    tracks e (previewLoop fuel m elapsed e).2.
Proof.
  induction fuel as [| fuel IH]; intros elapsed e; cbn [previewLoop];
    [apply tracks_refl |].
  destruct (MAX (duration m) tick <=? m_previewIterator e); [| apply tracks_refl].
  eapply tracks_trans; [| apply IH].
  exact (advancePreview_tracks m e).
Qed.

Lemma slotPreviewTimeout_tracks (m : RGBMatrix) (e : Editor) :
  tracks e (slotPreviewTimeout m e).
Proof.
  unfold slotPreviewTimeout. destruct (duration m <=? 0); [apply tracks_refl |].
  match goal with |- context [previewLoop ?f m ?el ?e1] =>
    pose proof (previewLoop_tracks m f el e1) as P;
    destruct (previewLoop f m el e1) as [elapsed e2]
  end.
  exact P.
Qed.

Lemma exportLoop_tracks (m : RGBMatrix) (grp : FixtureGroup) (sid total : Z) :
  forall (n : nat) (l : ExportLoop),
    tracks (loop_editor l) (loop_editor (exportLoop n m grp sid total l)).
Proof.
  induction n as [| n IH]; intros l; cbn [exportLoop]; [apply tracks_refl |].
  eapply tracks_trans; [| apply IH].
  destruct (exportStep_frame m grp sid total l) as (_ & _ & C & _ & T & _).
  apply (tracks_quiet _ _ [EvPreviewMap (currentStep l)]); [exact T | reflexivity | exact C].
Qed.

Lemma exportRun_tracks (m : RGBMatrix) (grp : FixtureGroup) (sid : Z) (e : Editor) :
  tracks e (loop_editor (exportRun m grp sid e)).
Proof.
  unfold exportRun. destruct (exportInit m sid e) as [total l0] eqn:E.
  eapply tracks_trans; [| apply exportLoop_tracks].
  unfold exportInit in E.
  destruct (Direction_eqb (direction m) Backward), (isValid (endColor m));
    injection E as <- <-; apply tracks_same; reflexivity.
Qed.

Lemma saveToSequence_tracks (m : RGBMatrix) (grp : FixtureGroup) (e : Editor) :
  tracks e (saveToSequence m grp e).2.
Proof.
  rewrite saveToSequence_eq. cbn zeta. unfold exportPrepare.
  destruct (m_testButton_isChecked e) eqn:Hc.
  - pose proof (m_testButton_click_tracks m e) as T1.
    destruct (m_testButton_click m e) as [m1 e1]. cbn [fst snd] in *.
    match goal with |- context [m_testButton_click m1 ?e3] =>
      assert (T2 : tracks e1 e3) by exact (exportRun_tracks _ _ _ _);
      generalize dependent e3
    end.
    intros e3 T2.
    exact (tracks_trans _ _ _ T1 (tracks_trans _ _ _ T2 (m_testButton_click_tracks m1 e3))).
  - cbn [fst snd].
    match goal with |- context [createPreviewItems m ?e3] =>
      assert (T2 : tracks (timer_stop e) e3) by exact (exportRun_tracks _ _ _ _);
      generalize dependent e3
    end.
    intros e3 T2.
    pose proof (createPreviewItems_tracks m e3) as T3.
    pose proof (tracks_trans _ _ _ (timer_stop_tracks e) (tracks_trans _ _ _ T2 T3)) as T.
    destruct (createPreviewItems m e3) as [[] e4]; cbn [fst snd] in *.
    + exact (tracks_trans _ _ _ T (timer_start_tracks tick e4)).
    + exact T.
Qed.

Lemma slotModeChanged_tracks (mode : DocMode) (m : RGBMatrix) (e : Editor) :
  tracks e (slotModeChanged mode m e).2.
Proof.
  unfold slotModeChanged. destruct mode; [apply tracks_same; reflexivity |].
  destruct (m_testButton_isChecked e) eqn:C; cbn [snd].
  - exists [EvMatrixStopAndWait]. split; reflexivity.
  - exists []. split; [symmetry; apply app_nil_r | cbn; exact C].
Qed.

Lemma act_tracks (a : Action) (s : RGBMatrix * Editor) : tracks s.2 (act a s).2.
Proof.
  destruct s as [m e]. destruct a; cbn [act fst snd].
  - apply m_testButton_click_tracks.
  - apply slotModeChanged_tracks.
  - unfold slotColorModeChanged.
    pose proof (recoloured_tracks (setControlMode index m) e (set_comboIndex index e)
                  (tracks_same _ _ eq_refl eq_refl)) as T.
    destruct (updateColors (setControlMode index m) (set_comboIndex index e)).
    exact T.
  - unfold slotStartColorButtonClicked. destruct (isValid col); [| apply tracks_refl].
    pose proof (recoloured_tracks (setStartColor col m) e e (tracks_refl e)) as T.
    destruct (updateColors (setStartColor col m) e). exact T.
  - unfold slotEndColorButtonClicked. destruct (isValid col); [| apply tracks_refl].
    pose proof (recoloured_tracks (setEndColor col m) e e (tracks_refl e)) as T.
    destruct (updateColors (setEndColor col m) e). exact T.
  - unfold slotResetEndColorButtonClicked. cbn zeta.
    match goal with |- context [updateColors ?m1 ?e1] =>
      pose proof (recoloured_tracks m1 e e1 (tracks_same _ _ eq_refl eq_refl)) as T;
      destruct (updateColors m1 e1)
    end.
    exact T.
  - unfold slotLoopClicked. apply restart_tracks, tracks_same; reflexivity.
  - unfold slotPingPongClicked. apply restart_tracks, tracks_same; reflexivity.
  - unfold slotSingleShotClicked. apply restart_tracks, tracks_same; reflexivity.
  - unfold slotForwardClicked. apply restart_tracks, tracks_same; reflexivity.
  - unfold slotBackwardClicked. apply restart_tracks, tracks_same; reflexivity.
  - apply dispatch_tracks.
  - unfold slotFixtureGroupActivated.
    destruct (combo_itemData index c) as [g |].
    + apply slotRestartTest_tracks.
    + exact (timer_stop_tracks e).
  - apply slotPreviewTimeout_tracks.
  - unfold slotShapeToggle.
    exact (tracks_trans _ _ _
             (tracks_same e (set_shape (negb (m_shapeButton_isChecked e)) e)
                eq_refl eq_refl)
             (createPreviewItems_tracks m _)).
  - unfold slotSaveToSequenceClicked.
    destruct (fixtureGroup m =? FixtureGroup_invalidId); [apply tracks_refl |].
    destruct (fixtureGroups (m_doc e) !! fixtureGroup m) as [grp |]; [| apply tracks_refl].
    destruct (algorithm m) as [a |]; [| apply tracks_refl].
    pose proof (saveToSequence_tracks m grp e) as T.
    destruct (saveToSequence m grp e) as [m' e']. exact T.
  - unfold stopTest. destruct (m_testButton_isChecked e); [| apply tracks_refl].
    apply m_testButton_click_tracks.
Qed.

Lemma run_tracks (l : list Action) :
  forall s : RGBMatrix * Editor, tracks s.2 (run l s).2.
Proof.
  unfold run. induction l as [| a l IH]; intros s; [apply tracks_refl |].
  cbn [foldl]. exact (tracks_trans _ _ _ (act_tracks a s) (IH (act a s))).
Qed.

Lemma init_tracks (m : RGBMatrix) (e : Editor) : tracks e (init m e).
Proof.
  unfold init.
  match goal with |- context [createPreviewItems m ?e3] =>
    pose proof (createPreviewItems_tracks m e3) as T;
    destruct (createPreviewItems m e3) as [[] e4]
  end; cbn [snd] in T.
  - exact (tracks_trans _ _ _ T (timer_start_tracks tick e4)).
  - exact T.
Qed.

(** X26. The editor stops what it started.  From the constructor on, with
    the test button up at first, through any sequence of the actions of
    [Action], the test button is down exactly when the last call the editor
    made on the matrix was a start; and the destructor leaves the preview
    timer stopped and never leaves a start as the last call: a matrix the
    test started is stopped and waited for. *)
Theorem editor_stops_what_it_started (mode : DocMode) (l : list Action)
    (m : RGBMatrix) (e : Editor) :
  m_testButton_isChecked e = false ->
  let s := run l (RGBMatrixEditor_new mode m e) in
  let r := RGBMatrixEditor_delete s.1 s.2 in
  exists evs evs',
    trace s.2 = trace e ++ evs /\
    toldToRun false evs = m_testButton_isChecked s.2 /\
    trace r.2 = trace s.2 ++ evs' /\
    toldToRun false (evs ++ evs') = false /\
    m_previewTimer r.2 = None.
Proof.
  intros H. cbn zeta.
  assert (T : tracks e (run l (RGBMatrixEditor_new mode m e)).2).
  { eapply tracks_trans; [| apply run_tracks].
    unfold RGBMatrixEditor_new.
    exact (tracks_trans _ _ _ (init_tracks m e) (slotModeChanged_tracks mode m (init m e))). }
  destruct (run l (RGBMatrixEditor_new mode m e)) as [m' e'].
  cbn [fst snd] in *. destruct T as (evs & T & R). rewrite H in R.
  unfold RGBMatrixEditor_delete. cbn.
  destruct (m_testButton_isChecked e') eqn:C.
  - exists evs, [EvTimerStop; EvMatrixStopAndWait]. cbn.
    rewrite <- app_assoc. repeat split; try assumption.
    rewrite toldToRun_app. reflexivity.
  - exists evs, [EvTimerStop]. cbn. repeat split; try assumption.
    rewrite toldToRun_app, R. reflexivity.
Qed.

(** *** The steps of the export, one by one *)

Lemma exportLoop_succ (m : RGBMatrix) (grp : FixtureGroup) (sid T : Z) (n : nat) :
  forall l : ExportLoop,
    exportLoop (S n) m grp sid T l
    = exportStep m grp sid T (exportLoop n m grp sid T l).
Proof.
  induction n as [| n IH]; intros l; [reflexivity |].
  change (exportLoop (S (S n)) m grp sid T l)
    with (exportLoop (S n) m grp sid T (exportStep m grp sid T l)).
  rewrite IH. reflexivity.
Qed.

(** The loop after [n] turns none of which ended on the bounce: where it
    is, the handler it has, and the steps it has added.  Turn [k] renders
    step [index k] on the handler the turns before left, and then updates
    the step colour for the next index. *)
Lemma exportLoop_state (m : RGBMatrix) (grp : FixtureGroup) (sid T : Z)
    (l : ExportLoop) (n : nat) :
  (forall k : nat, (1 <= k <= n)%nat ->
     (currentStep l + Z.of_nat k * increment l =? T)
     && RunOrder_eqb (runOrder m) PingPong = false) ->
  let d := m_doc (loop_editor l) in
  let index (k : nat) := currentStep l + Z.of_nat k * increment l in
  let render h k := previewMap d m (index k) h in
  let turn h k :=
    updateStepColor (index (S k)) (startColor m) (stepsCount d m) (render h k) in
  let before k := foldl turn (m_previewHandler (loop_editor l)) (seq 0 k) in
  let l' := exportLoop n m grp sid T l in
  currentStep l' = index n /\
  increment l' = increment l /\
  m_doc (loop_editor l') = d /\
  m_previewHandler (loop_editor l') = before n /\
  steps (sequence l')
  = steps (sequence l)
      ++ map (fun k => mkStep sid (fadeInSpeed m) (wrap32 (duration m - fadeInSpeed m))
                         (fadeOutSpeed m) (duration m)
                         (std_sort (mapValues d grp (m_map (render (before k) k)))))
           (seq 0 n).
Proof.
  cbn zeta. induction n as [| n IH]; intros Hk.
  - cbn [exportLoop seq map foldl]. rewrite app_nil_r. repeat split. lia.
  - rewrite exportLoop_succ.
    destruct IH as (C & I & D & H & St); [intros k Hkk; apply Hk; lia |].
    assert (N : currentStep (exportLoop n m grp sid T l)
                + increment (exportLoop n m grp sid T l)
                = currentStep l + Z.of_nat (S n) * increment l).
    { rewrite C, I. lia. }
    assert (B : (currentStep (exportLoop n m grp sid T l)
                 + increment (exportLoop n m grp sid T l) =? T)
                && RunOrder_eqb (runOrder m) PingPong = false).
    { rewrite N. apply Hk. lia. }
    unfold exportStep. rewrite B.
    cbn [currentStep increment sequence loop_editor m_doc m_previewHandler
         callPreviewMap emit set_handler addStep steps].
    rewrite N, I, D, H, St, C.
    rewrite !seq_S, map_app, foldl_app, <- app_assoc.
    cbn [map foldl Nat.add].
    repeat split.
Qed.

(** The steps a run of the loop adds; its last turn may end on the
    bounce. *)
Lemma exportLoop_steps (m : RGBMatrix) (grp : FixtureGroup) (sid T : Z)
    (l : ExportLoop) (n : nat) :
  (forall k : nat, (1 <= k < n)%nat ->
     (currentStep l + Z.of_nat k * increment l =? T)
     && RunOrder_eqb (runOrder m) PingPong = false) ->
  let d := m_doc (loop_editor l) in
  let index (k : nat) := currentStep l + Z.of_nat k * increment l in
  let render h k := previewMap d m (index k) h in
  let turn h k :=
    updateStepColor (index (S k)) (startColor m) (stepsCount d m) (render h k) in
  let before k := foldl turn (m_previewHandler (loop_editor l)) (seq 0 k) in
  steps (sequence (exportLoop n m grp sid T l))
  = steps (sequence l)
      ++ map (fun k => mkStep sid (fadeInSpeed m) (wrap32 (duration m - fadeInSpeed m))
                         (fadeOutSpeed m) (duration m)
                         (std_sort (mapValues d grp (m_map (render (before k) k)))))
           (seq 0 n).
Proof.
  cbn zeta. intros Hk. destruct n as [| n].
  - cbn. rewrite app_nil_r. reflexivity.
  - rewrite exportLoop_succ.
    destruct (exportLoop_state m grp sid T l n) as (C & I & D & H & St);
      [intros k Hkk; apply Hk; lia |].
    assert (E : steps (sequence (exportStep m grp sid T (exportLoop n m grp sid T l)))
                = steps (sequence (exportLoop n m grp sid T l))
                    ++ [mkStep sid (fadeInSpeed m) (wrap32 (duration m - fadeInSpeed m))
                          (fadeOutSpeed m) (duration m)
                          (std_sort
                             (mapValues (m_doc (loop_editor (exportLoop n m grp sid T l)))
                                grp
                                (m_map
                                   (previewMap
                                      (m_doc (loop_editor (exportLoop n m grp sid T l)))
                                      m (currentStep (exportLoop n m grp sid T l))
                                      (m_previewHandler
                                         (loop_editor (exportLoop n m grp sid T l)))))))]).
    { unfold exportStep.
      destruct ((currentStep (exportLoop n m grp sid T l)
                 + increment (exportLoop n m grp sid T l) =? T)
                && RunOrder_eqb (runOrder m) PingPong); reflexivity. }
    rewrite E, C, D, H, St, seq_S, map_app, <- app_assoc. reflexivity.
Qed.

(** The handler the loop starts with. *)
Lemma exportInit_handler (m : RGBMatrix) (sid : Z) (e : Editor) :
  m_previewHandler (loop_editor (exportInit m sid e).2)
  = calculateColorDelta (startColor m) (endColor m)
      (if Direction_eqb (direction m) Backward
       then if isValid (endColor m)
            then setStepColor (endColor m)
                   (setStepColor (startColor m) (m_previewHandler e))
            else setStepColor (startColor m) (m_previewHandler e)
       else setStepColor (startColor m) (m_previewHandler e)).
Proof.
  unfold exportInit.
  destruct (Direction_eqb (direction m) Backward); [destruct (isValid (endColor m)) |];
    reflexivity.
Qed.

(** The steps of the export run, one for each turn: turn [k] renders the
    step [index k] on the handler the turns before left, and its values are
    the sorted values of the map rendered. *)
Lemma exportRun_steps (m : RGBMatrix) (grp : FixtureGroup) (sid : Z) (e : Editor) :
  let d := m_doc e in
  let n := stepsCount d m in
  let total := if RunOrder_eqb (runOrder m) PingPong then n * 2 - 1 else n in
  let first := if Direction_eqb (direction m) Backward then n - 1 else 0 in
  let inc := if Direction_eqb (direction m) Backward then -1 else 1 in
  let index (k : nat) := first + Z.of_nat k * inc in
  let h0 :=
    calculateColorDelta (startColor m) (endColor m)
      (if Direction_eqb (direction m) Backward
       then if isValid (endColor m)
            then setStepColor (endColor m)
                   (setStepColor (startColor m) (m_previewHandler e))
            else setStepColor (startColor m) (m_previewHandler e)
       else setStepColor (startColor m) (m_previewHandler e)) in
  let render h k := previewMap d m (index k) h in
  let turn h k := updateStepColor (index (S k)) (startColor m) n (render h k) in
  let before k := foldl turn h0 (seq 0 k) in
  steps (sequence (exportRun m grp sid e))
  = map (fun k => mkStep sid (fadeInSpeed m) (wrap32 (duration m - fadeInSpeed m))
                    (fadeOutSpeed m) (duration m)
                    (std_sort (mapValues d grp (m_map (render (before k) k)))))
      (seq 0 (Z.to_nat total)).
Proof.
  cbn zeta. unfold exportRun.
  pose proof (exportInit_eq m sid e) as I. cbn zeta in I.
  pose proof (exportInit_handler m sid e) as Hh.
  destruct (exportInit m sid e) as [T l0]. cbn [fst snd] in I, Hh.
  destruct I as (HT & Hc & Hi & S0 & _ & D0 & _).
  rewrite exportLoop_steps.
  - rewrite S0, Hc, Hi, D0, Hh, HT. reflexivity.
  - intros k Hk. rewrite Hc, Hi.
    destruct (RunOrder_eqb (runOrder m) PingPong) eqn:Ero;
      [| apply andb_false_r].
    rewrite andb_true_r. apply Z.eqb_neq.
    destruct (direction m); cbn [Direction_eqb]; lia.
Qed.

Lemma exportPrepare_handler (m : RGBMatrix) (e : Editor) :
  m_previewHandler (exportPrepare m e).2 = m_previewHandler e.
Proof.
  unfold exportPrepare, m_testButton_click, slotTestClicked.
  destruct (m_testButton_isChecked e); [| reflexivity].
  destruct (m_testButton_isEnabled e); reflexivity.
Qed.

(** The sequence the export registers, step by step. *)
Lemma saveToSequence_steps (m : RGBMatrix) (grp : FixtureGroup) (e : Editor) :
  let m1 := (exportPrepare m e).1 in
  let d1 := (addFunction (FScene (exportScene grp (m_doc e))) (m_doc e)).2 in
  let n := stepsCount d1 m1 in
  let total := if RunOrder_eqb (runOrder m) PingPong then n * 2 - 1 else n in
  let first := if Direction_eqb (direction m) Backward then n - 1 else 0 in
  let inc := if Direction_eqb (direction m) Backward then -1 else 1 in
  let index (k : nat) := first + Z.of_nat k * inc in
  let h0 :=
    calculateColorDelta (startColor m) (endColor m)
      (if Direction_eqb (direction m) Backward
       then if isValid (endColor m)
            then setStepColor (endColor m)
                   (setStepColor (startColor m) (m_previewHandler e))
            else setStepColor (startColor m) (m_previewHandler e)
       else setStepColor (startColor m) (m_previewHandler e)) in
  let render h k := previewMap d1 m1 (index k) h in
  let turn h k := updateStepColor (index (S k)) (startColor m) n (render h k) in
  let before k := foldl turn h0 (seq 0 k) in
  exists sc sq,
    functions (m_doc (saveToSequence m grp e).2)
    = functions (m_doc e) ++ [FScene sc; FSequence sq] /\
    scene_id sc = latestFunctionId (m_doc e) /\
    boundSceneID sq = scene_id sc /\
    steps sq
    = map (fun k => mkStep (scene_id sc) (fadeInSpeed m)
                      (wrap32 (duration m - fadeInSpeed m))
                      (fadeOutSpeed m) (duration m)
                      (std_sort (mapValues d1 grp (m_map (render (before k) k)))))
        (seq 0 (Z.to_nat total)).
Proof.
  cbn zeta.
  pose proof (saveToSequence_functions m grp e) as Hf. cbn zeta in Hf.
  cbn [Function_setID] in Hf.
  eexists _, _. split; [exact Hf |].
  cbn [scene_id boundSceneID steps]. split; [reflexivity |].
  match goal with |- context [exportRun ?m1 grp ?sid ?e1] =>
    pose proof (exportRun_steps m1 grp sid e1) as St;
    pose proof (exportRun_frame m1 grp sid e1) as Fr
  end.
  cbn zeta in St, Fr. destruct Fr as (_ & _ & _ & _ & B & _).
  split; [exact B |].
  rewrite St. cbn [m_doc set_doc m_previewHandler].
  rewrite exportPrepare_handler.
  destruct (exportPrepare_frame m e) as ((b & Hb) & _). rewrite Hb.
  reflexivity.
Qed.

(** *** The values of a step, cell by cell *)

Lemma cellValues_appended (d : Doc) (grp : FixtureGroup) (y x col : Z)
    (vals : list SceneValue) :
  cellValues d grp y x vals col = vals ++ cell_appended d grp x y col.
Proof.
  unfold cellValues, cell_appended. cbn zeta.
  destruct (fixtures d !! head_fxi (group_head grp (x, y))) as [fxi |];
    [| symmetry; apply app_nil_r].
  destruct (masterIntensityChannel fxi (head_head (group_head grp (x, y)))
            =? QLCChannel_invalid);
    destruct (rgbChannels fxi (head_head (group_head grp (x, y))))
      as [| c0 [| c1 [| c2 [| c3 cs]]]];
    cbn [negb app]; rewrite ?app_nil_r, <- ?app_assoc; reflexivity.
Qed.

Lemma rowValues_appended (d : Doc) (grp : FixtureGroup) (y : Z) (row : list Z) :
  forall (x0 : Z) (vals : list SceneValue),
    foldl_index (cellValues d grp y) x0 vals row
    = vals ++ concat (imap (fun i col => cell_appended d grp (x0 + Z.of_nat i) y col)
                        row).
Proof.
  induction row as [| col row IH]; intros x0 vals.
  - cbn. symmetry. apply app_nil_r.
  - cbn [foldl_index]. rewrite IH, cellValues_appended, imap_cons.
    cbn [concat]. rewrite <- app_assoc. f_equal. f_equal.
    + f_equal; lia.
    + f_equal. apply imap_ext. intros i c _. cbn. f_equal; lia.
Qed.

Lemma rowsValues_appended (d : Doc) (grp : FixtureGroup) (mp : list (list Z)) :
  forall (y0 : Z) (vals : list SceneValue),
    foldl_index (fun y vals row => foldl_index (cellValues d grp y) 0 vals row)
      y0 vals mp
    = vals ++ concat (imap (fun j row =>
                              concat (imap (fun i col =>
                                              cell_appended d grp (Z.of_nat i)
                                                (y0 + Z.of_nat j) col) row))
                        mp).
Proof.
  induction mp as [| row mp IH]; intros y0 vals.
  - cbn. symmetry. apply app_nil_r.
  - cbn [foldl_index]. rewrite IH, rowValues_appended, imap_cons.
    cbn [concat]. rewrite <- app_assoc. f_equal. f_equal.
    + f_equal. apply imap_ext. intros i c _. f_equal; lia.
    + f_equal. apply imap_ext. intros j r _. cbn. f_equal.
      apply imap_ext. intros i c _. f_equal; lia.
Qed.

(** The loops append what the cells give, in the order of the cells. *)
Lemma mapValues_appended (d : Doc) (grp : FixtureGroup) (mp : list (list Z)) :
  mapValues d grp mp = map_appended d grp mp.
Proof.
  unfold mapValues, map_appended. rewrite rowsValues_appended. reflexivity.
Qed.

(** C4. The sequence the export registers has one step for every turn of
    the loop, and every one of them has the matrix's duration as duration,
    its fade in speed as fade in, its fade out speed as fade out and, in
    [uint] arithmetic, the duration minus the fade in speed as hold, which
    is their difference when the fade in is not above the duration; and it
    is bound to the id of the scene registered by the same export. *)
Theorem exported_steps_timing (m : RGBMatrix) (e : Editor) (grp : FixtureGroup)
    (a : RGBAlgorithm) :
  fixtureGroup m <> FixtureGroup_invalidId ->
  fixtureGroups (m_doc e) !! fixtureGroup m = Some grp ->
  algorithm m = Some a ->
  let r := slotSaveToSequenceClicked (Some m) e in
  let n := stepsCount (addFunction (FScene (exportScene grp (m_doc e))) (m_doc e)).2
             (exportPrepare m e).1 in
  let total := if RunOrder_eqb (runOrder m) PingPong then n * 2 - 1 else n in
  exists sc sq,
    functions (m_doc r.2) = functions (m_doc e) ++ [FScene sc; FSequence sq] /\
    boundSceneID sq = scene_id sc /\
    length (steps sq) = Z.to_nat total /\
    forall st, In st (steps sq) ->
      step_duration st = duration m /\
      fadeIn st = fadeInSpeed m /\
      fadeOut st = fadeOutSpeed m /\
      hold st = wrap32 (duration m - fadeInSpeed m) /\
      (0 <= fadeInSpeed m <= duration m -> duration m < 2 ^ 32 ->
       hold st = duration m - fadeInSpeed m) /\
      fid st = scene_id sc.
Proof.
  intros Hid Hg Ha. cbn zeta.
  rewrite (slotSaveToSequenceClicked_runs m e grp a Hid Hg Ha).
  destruct (saveToSequence_steps m grp e) as (sc & sq & Hf & _ & Hb & Hs).
  exists sc, sq. split; [exact Hf |]. split; [exact Hb |]. split.
  - rewrite Hs, length_map, length_seq. reflexivity.
  - intros st Hin. rewrite Hs in Hin. apply in_map_iff in Hin as (k & <- & _).
    cbn [step_duration fadeIn fadeOut hold fid]. repeat split.
    intros Hle H32. unfold wrap32. apply Z.mod_small. lia.
Qed.

(** C9. When [SceneValue::operator<] is a strict weak ordering, as
    [std::sort] asks, the values of every step of the sequence the export
    registers are in ascending order, whatever the heads map of the group
    is, and they are the values the two loops over the map appended for
    that step, in another order.  The sequence has one step for every turn
    of the loop; turn [k] renders the step [index k] on the handler the
    turns before left ([before k]), and the loops go over that map, cell by
    cell ([map_appended]). *)
Theorem exported_steps_sorted (m : RGBMatrix) (e : Editor) (grp : FixtureGroup)
    (a : RGBAlgorithm) :
  StrictWeakOrder SceneValue_lt ->
  fixtureGroup m <> FixtureGroup_invalidId ->
  fixtureGroups (m_doc e) !! fixtureGroup m = Some grp ->
  algorithm m = Some a ->
  let r := slotSaveToSequenceClicked (Some m) e in
  let m1 := (exportPrepare m e).1 in
  let d1 := (addFunction (FScene (exportScene grp (m_doc e))) (m_doc e)).2 in
  let n := stepsCount d1 m1 in
  let total := if RunOrder_eqb (runOrder m) PingPong then n * 2 - 1 else n in
  let first := if Direction_eqb (direction m) Backward then n - 1 else 0 in
  let inc := if Direction_eqb (direction m) Backward then -1 else 1 in
  let index (k : nat) := first + Z.of_nat k * inc in
  let h0 :=
    calculateColorDelta (startColor m) (endColor m)
      (if Direction_eqb (direction m) Backward
       then if isValid (endColor m)
            then setStepColor (endColor m)
                   (setStepColor (startColor m) (m_previewHandler e))
            else setStepColor (startColor m) (m_previewHandler e)
       else setStepColor (startColor m) (m_previewHandler e)) in
  let render h k := previewMap d1 m1 (index k) h in
  let turn h k := updateStepColor (index (S k)) (startColor m) n (render h k) in
  let before k := foldl turn h0 (seq 0 k) in
  exists sc sq,
    functions (m_doc r.2) = functions (m_doc e) ++ [FScene sc; FSequence sq] /\
    length (steps sq) = Z.to_nat total /\
    (forall st, In st (steps sq) -> ascending SceneValue_lt (values st)) /\
    forall (k : nat) (st : ChaserStep),
      steps sq !! k = Some st ->
      ascending SceneValue_lt (values st) /\
      Permutation (map_appended d1 grp (m_map (render (before k) k))) (values st).
Proof.
  intros SWO Hid Hg Ha. cbn zeta.
  rewrite (slotSaveToSequenceClicked_runs m e grp a Hid Hg Ha).
  destruct (saveToSequence_steps m grp e) as (sc & sq & Hf & _ & _ & Hs).
  cbn zeta in Hs.
  exists sc, sq. split; [exact Hf |]. split; [| split].
  - rewrite Hs, length_map, length_seq. reflexivity.
  - intros st Hin. rewrite Hs in Hin. apply in_map_iff in Hin as (k & <- & _).
    cbn [values]. apply std_sort_ascending, SWO.
  - intros k st Hk. rewrite Hs in Hk.
    change (map ?f ?l) with (f <$> l) in Hk. rewrite list_lookup_fmap in Hk.
    destruct (seq 0 _ !! k) as [j |] eqn:Hj; [| discriminate].
    apply lookup_seq in Hj as [-> _]. cbn in Hk. injection Hk as <-.
    cbn [values]. split; [apply std_sort_ascending, SWO |].
    rewrite <- mapValues_appended. apply std_sort_perm.
Qed.

End MoreProperties.

(** ** More theorems at the sample installation *)

Module MoreSampleRuns.
Import Sample MoreSample.

Lemma doc0_ids_ok : doc_ids_ok doc0.
Proof.
  intros k g H. unfold doc0 in H. cbn [fixtureGroups] in H.
  apply lookup_insert_Some in H as [[<- <-] | [_ H]]; [reflexivity |].
  rewrite lookup_empty in H. discriminate.
Qed.

Lemma doc_nogroup_ids_ok : doc_ids_ok doc_nogroup.
Proof.
  intros k g H. unfold doc_nogroup in H. cbn [fixtureGroups] in H.
  rewrite lookup_empty in H. discriminate.
Qed.

Lemma updateColors_end_color_valid_at_sample :
  (algorithm matrix_text = Some (Text text0) /\
   1 < acceptColors (Text text0) /\
   blendMode matrix_text <> MaskBlend /\
   m_colorModeCombo_currentIndex editor_dimmer <> ControlModeRgb) /\
  isValid (endColor (updateColors matrix_text editor_dimmer).1) = true.
Proof.
  assert (H1 : algorithm matrix_text = Some (Text text0)) by reflexivity.
  assert (H2 : 1 < acceptColors (Text text0)) by (cbn; lia).
  assert (H3 : blendMode matrix_text <> MaskBlend) by (cbn; discriminate).
  assert (H4 : m_colorModeCombo_currentIndex editor_dimmer <> ControlModeRgb)
    by (cbn; lia).
  split; [tauto |].
  destruct (updateColors_end_color_valid matrix_text editor_dimmer (Text text0)
              H1 H2 H3 H4) as (Hv & _).
  exact Hv.
Defined.

Lemma slotColorModeChanged_gray_at_sample :
  (m_colorModeCombo_currentIndex editor_dimmer = 4 /\
   algorithm matrix_text = Some (Text text0) /\
   0 < acceptColors (Text text0) /\
   blendMode matrix_text <> MaskBlend) /\
  controlMode (slotColorModeChanged 4 matrix_text editor_dimmer).1 = 4 /\
  startColor (slotColorModeChanged 4 matrix_text editor_dimmer).1 = QColor_rgb 87 87 87.
Proof.
  assert (H1 : m_colorModeCombo_currentIndex editor_dimmer = 4) by reflexivity.
  assert (H2 : algorithm matrix_text = Some (Text text0)) by reflexivity.
  assert (H3 : 0 < acceptColors (Text text0)) by (cbn; lia).
  assert (H4 : blendMode matrix_text <> MaskBlend) by (cbn; discriminate).
  split; [tauto |].
  destruct (slotColorModeChanged_gray 4 matrix_text editor_dimmer (Text text0)
              H1 H2 H3 H4) as (Hc & Hs).
  split; [exact Hc | exact Hs].
Defined.

Lemma stopTest_stops_at_sample :
  button_ok editor_testing /\
  m_testButton_isChecked (stopTest (matrix_running Loop Forward) editor_testing).2
  = false /\
  running (stopTest (matrix_running Loop Forward) editor_testing).1 = false.
Proof.
  assert (H1 : button_ok editor_testing) by (intros _; reflexivity).
  split; [exact H1 |].
  destruct (stopTest_stops (matrix_running Loop Forward) editor_testing H1)
    as (Hc & _ & Hr & _).
  split; [exact Hc |]. apply Hr. reflexivity.
Defined.

Lemma dispatch_ignored_at_sample :
  signal_applies (TextEdited "Hi") (algorithm (matrix0 Loop Forward)) = false /\
  dispatch (TextEdited "Hi") (matrix0 Loop Forward) editor0
  = (matrix0 Loop Forward, editor0).
Proof.
  assert (H1 : signal_applies (TextEdited "Hi") (algorithm (matrix0 Loop Forward))
               = false) by reflexivity.
  split; [exact H1 |].
  exact (dispatch_ignored (TextEdited "Hi") (matrix0 Loop Forward) editor0 H1).
Defined.

Lemma dispatch_applied_at_sample :
  (algorithm matrix_text = Some (Text text0) /\
   signal_applies (OffsetSpinChanged 3 (-2)) (Some (Text text0)) = true) /\
  algorithm (dispatch (OffsetSpinChanged 3 (-2)) matrix_text editor0).1
  = Some (Text (mkText "QLC+" "Sans" "Horizontal" 3 (-2))).
Proof.
  assert (H1 : algorithm matrix_text = Some (Text text0)) by reflexivity.
  assert (H2 : signal_applies (OffsetSpinChanged 3 (-2)) (Some (Text text0)) = true)
    by reflexivity.
  split; [tauto |].
  destruct (dispatch_applied (OffsetSpinChanged 3 (-2)) matrix_text editor0
              (Text text0) H1 H2) as (Ha & _).
  exact Ha.
Defined.


Lemma slotPreviewTimeout_paints_at_sample :
  0 < duration (matrix0 Loop Forward) /\
  m_previewHash editor_items !! (0, 0)
  = Some (mkSampleItem (Ellipse 2 2 24 24) 4294901760 [(0, 0)]) /\
  m_map (m_previewHandler (slotPreviewTimeout (matrix0 Loop Forward) editor_items))
  = [[0; 4294901760; 0]] /\
  m_previewHash (slotPreviewTimeout (matrix0 Loop Forward) editor_items) !! (0, 0)
  = Some (mkSampleItem (Ellipse 2 2 24 24) 0 [(0, 0); (1000, 200)]) /\
  m_previewHash (slotPreviewTimeout (matrix0 Loop Forward) editor_items) !! (1, 0)
  = None.
Proof.
  assert (H1 : 0 < duration (matrix0 Loop Forward)) by (cbn; lia).
  split; [exact H1 |].
  split; [vm_compute; reflexivity |].
  split; [vm_compute; reflexivity |].
  pose proof (slotPreviewTimeout_paints (matrix0 Loop Forward) editor_items H1) as Hp.
  split.
  - etransitivity; [exact (Hp 0 0) | vm_compute; reflexivity].
  - etransitivity; [exact (Hp 1 0) | vm_compute; reflexivity].
Defined.

Lemma timeouts_no_drift_at_sample :
  (0 < duration matrix_fast /\
   0 <= tick /\
   0 <= m_previewIterator editor_early < MAX (duration matrix_fast) tick /\
   MAX (duration matrix_fast) tick + tick <= 2 ^ 32) /\
  m_previewIterator (timeouts 10 matrix_fast editor_early) = 5 /\
  length (previewMapCalls
            (drop (length (trace editor_early))
               (trace (timeouts 10 matrix_fast editor_early)))) = 4%nat.
Proof.
  assert (H1 : 0 < duration matrix_fast) by (cbn; lia).
  assert (H2 : 0 <= tick) by (cbn; lia).
  assert (H3 : 0 <= m_previewIterator editor_early < MAX (duration matrix_fast) tick)
    by (cbn; lia).
  assert (H4 : MAX (duration matrix_fast) tick + tick <= 2 ^ 32) by (cbn; lia).
  split; [tauto |].
  destruct (timeouts_no_drift matrix_fast editor_early 10 H1 H2 H3 H4) as (Hi & Hn).
  split; [rewrite Hi; reflexivity | rewrite Hn; reflexivity].
Defined.

Lemma fillFixtureGroupCombo_selection_at_sample :
  doc_ids_ok doc0 /\
  combo_items (fillFixtureGroupCombo (matrix0 Loop Forward) doc0 combo0)
  = [("None"%string, None); ("row"%string, Some 1)].
Proof.
  assert (H1 : doc_ids_ok doc0) by exact doc0_ids_ok.
  split; [exact H1 |].
  destruct (fillFixtureGroupCombo_selection (matrix0 Loop Forward) doc0 combo0 H1)
    as (Hi & _).
  rewrite Hi. vm_compute. reflexivity.
Defined.

Lemma slotFixtureGroupRemoved_binding_at_sample :
  doc_ids_ok (m_doc editor_nogroup) /\
  (slotFixtureGroupRemoved combo0 (matrix0 Loop Forward) editor_nogroup).1
  = fillFixtureGroupCombo (matrix0 Loop Forward) (m_doc editor_nogroup) combo0.
Proof.
  assert (H1 : doc_ids_ok (m_doc editor_nogroup)) by exact doc_nogroup_ids_ok.
  split; [exact H1 |].
  destruct (slotFixtureGroupRemoved_binding combo0 (matrix0 Loop Forward)
              editor_nogroup H1) as (Hc & _).
  exact Hc.
Defined.


Lemma exported_scene_zeroed_at_sample :
  (fixtureGroup (matrix0 Loop Forward) <> FixtureGroup_invalidId /\
   fixtureGroups (m_doc editor0) !! fixtureGroup (matrix0 Loop Forward) = Some row /\
   algorithm (matrix0 Loop Forward) = Some Plain) /\
  exists sc sq,
    functions (m_doc (slotSaveToSequenceClicked (Some (matrix0 Loop Forward)) editor0).2)
    = [FScene sc; FSequence sq] /\
    scene_zeroed (m_doc editor0) (headList row) sc.
Proof.
  assert (H1 : fixtureGroup (matrix0 Loop Forward) <> FixtureGroup_invalidId)
    by (cbn; lia).
  assert (H2 : fixtureGroups (m_doc editor0) !! fixtureGroup (matrix0 Loop Forward)
               = Some row) by (vm_compute; reflexivity).
  assert (H3 : algorithm (matrix0 Loop Forward) = Some Plain) by reflexivity.
  split; [tauto |].
  destruct (exported_scene_zeroed (matrix0 Loop Forward) editor0 row Plain H1 H2 H3)
    as (sc & sq & Hf & _ & _ & Hz & _).
  exists sc, sq. split; assumption.
Defined.


Lemma exported_steps_values_at_sample :
  (fixtureGroup (matrix0 PingPong Forward) <> FixtureGroup_invalidId /\
   fixtureGroups (m_doc editor0) !! fixtureGroup (matrix0 PingPong Forward) = Some row /\
   algorithm (matrix0 PingPong Forward) = Some Plain) /\
  exists sc sq,
    functions
      (m_doc (slotSaveToSequenceClicked (Some (matrix0 PingPong Forward)) editor0).2)
    = [FScene sc; FSequence sq] /\
    length (steps sq) = 5%nat.
Proof.
  assert (H1 : fixtureGroup (matrix0 PingPong Forward) <> FixtureGroup_invalidId)
    by (cbn; lia).
  assert (H2 : fixtureGroups (m_doc editor0) !! fixtureGroup (matrix0 PingPong Forward)
               = Some row) by (vm_compute; reflexivity).
  assert (H3 : algorithm (matrix0 PingPong Forward) = Some Plain) by reflexivity.
  split; [tauto |].
  destruct (exported_steps_values (matrix0 PingPong Forward) editor0 row Plain
              H1 H2 H3) as (sc & sq & Hf & Hl & _).
  exists sc, sq. split; [exact Hf |]. rewrite Hl. vm_compute. reflexivity.
Defined.



Lemma slotStartColorButtonClicked_color_at_sample :
  isValid (QColor_rgb 10 20 30) = true /\
  startColor (slotStartColorButtonClicked (QColor_rgb 10 20 30) matrix_text
                editor_dimmer).1
  = QColor_rgb 18 18 18.
Proof.
  assert (H1 : isValid (QColor_rgb 10 20 30) = true) by reflexivity.
  split; [exact H1 |].
  destruct (slotStartColorButtonClicked_color (QColor_rgb 10 20 30) matrix_text
              editor_dimmer) as (_ & Hc).
  rewrite (Hc H1). vm_compute. reflexivity.
Defined.

Lemma slotModeChanged_operate_at_sample :
  m_testButton_isChecked editor_testing = true /\
  running (slotModeChanged Operate (matrix_running Loop Forward) editor_testing).1
  = false /\
  m_testButton_isEnabled
    (slotModeChanged Operate (matrix_running Loop Forward) editor_testing).2 = false.
Proof.
  assert (H1 : m_testButton_isChecked editor_testing = true) by reflexivity.
  split; [exact H1 |].
  destruct (slotModeChanged_operate (matrix_running Loop Forward) editor_testing)
    as (_ & He & Hr & _).
  split; [exact (Hr H1) | exact He].
Defined.

Lemma run_button_ok_at_sample :
  button_ok editor0 /\
  button_ok
    (run [TestButtonClicked; SaveToSequenceClicked; ColorModePicked 4;
          ModeChanged Operate; TestButtonClicked]
       (matrix0 Loop Forward, init (matrix0 Loop Forward) editor0)).2.
Proof.
  assert (H1 : button_ok editor0) by (intros _; reflexivity).
  split; [exact H1 |].
  destruct (run_button_ok
              [TestButtonClicked; SaveToSequenceClicked; ColorModePicked 4;
               ModeChanged Operate; TestButtonClicked]
              (matrix0 Loop Forward) editor0 H1) as (_ & Hr).
  exact Hr.
Defined.

Lemma run_timer_at_tick_at_sample :
  m_previewTimer editor0 = None /\
  (m_previewTimer
     (run [Signalled (TextEdited "Hi"); PreviewTimeout; FixtureGroupActivated 1 combo0;
           SaveToSequenceClicked]
        (matrix_text, init matrix_text editor0)).2 = None \/
   m_previewTimer
     (run [Signalled (TextEdited "Hi"); PreviewTimeout; FixtureGroupActivated 1 combo0;
           SaveToSequenceClicked]
        (matrix_text, init matrix_text editor0)).2 = Some tick).
Proof.
  assert (H1 : m_previewTimer editor0 = None) by reflexivity.
  split; [exact H1 |].
  exact (run_timer_at_tick
           [Signalled (TextEdited "Hi"); PreviewTimeout; FixtureGroupActivated 1 combo0;
            SaveToSequenceClicked]
           matrix_text editor0 H1).
Defined.

Lemma editor_stops_what_it_started_at_sample :
  m_testButton_isChecked editor0 = false /\
  exists evs evs',
    trace (run [TestButtonClicked; PingPongClicked; ShapeToggled; SaveToSequenceClicked]
             (RGBMatrixEditor_new Design (matrix0 Loop Forward) editor0)).2
    = trace editor0 ++ evs /\
    trace (RGBMatrixEditor_delete
             (run [TestButtonClicked; PingPongClicked; ShapeToggled;
                   SaveToSequenceClicked]
                (RGBMatrixEditor_new Design (matrix0 Loop Forward) editor0)).1
             (run [TestButtonClicked; PingPongClicked; ShapeToggled;
                   SaveToSequenceClicked]
                (RGBMatrixEditor_new Design (matrix0 Loop Forward) editor0)).2).2
    = trace (run [TestButtonClicked; PingPongClicked; ShapeToggled;
                  SaveToSequenceClicked]
               (RGBMatrixEditor_new Design (matrix0 Loop Forward) editor0)).2 ++ evs' /\
    toldToRun false (evs ++ evs') = false.
Proof.
  assert (H1 : m_testButton_isChecked editor0 = false) by reflexivity.
  split; [exact H1 |].
  destruct (editor_stops_what_it_started Design
              [TestButtonClicked; PingPongClicked; ShapeToggled; SaveToSequenceClicked]
              (matrix0 Loop Forward) editor0 H1)
    as (evs & evs' & T1 & _ & T2 & R & _).
  exists evs, evs'. split; [exact T1 |]. split; [exact T2 | exact R].
Defined.

Lemma exported_steps_timing_at_sample :
  (fixtureGroup (matrix0 Loop Forward) <> FixtureGroup_invalidId /\
   fixtureGroups (m_doc editor0) !! fixtureGroup (matrix0 Loop Forward) = Some row /\
   algorithm (matrix0 Loop Forward) = Some Plain) /\
  exists sc sq,
    functions (m_doc (slotSaveToSequenceClicked (Some (matrix0 Loop Forward)) editor0).2)
    = [FScene sc; FSequence sq] /\
    length (steps sq) = 3%nat /\
    forall st, In st (steps sq) ->
      step_duration st = 1000 /\ fadeIn st = 200 /\ fadeOut st = 0 /\
      hold st = 800 /\ fid st = scene_id sc.
Proof.
  assert (H1 : fixtureGroup (matrix0 Loop Forward) <> FixtureGroup_invalidId)
    by (cbn; lia).
  assert (H2 : fixtureGroups (m_doc editor0) !! fixtureGroup (matrix0 Loop Forward)
               = Some row) by (vm_compute; reflexivity).
  assert (H3 : algorithm (matrix0 Loop Forward) = Some Plain) by reflexivity.
  split; [tauto |].
  destruct (exported_steps_timing (matrix0 Loop Forward) editor0 row Plain H1 H2 H3)
    as (sc & sq & Hf & _ & Hl & Hst).
  exists sc, sq. split; [exact Hf |].
  split; [rewrite Hl; vm_compute; reflexivity |].
  intros st Hin. destruct (Hst st Hin) as (Hd & Hi & Ho & _ & Hh & Hid).
  repeat split; try assumption.
  apply Hh; cbn; lia.
Defined.

Lemma exported_steps_sorted_at_sample :
  (StrictWeakOrder SceneValue_lt /\
   fixtureGroup (matrix0 Loop Forward) <> FixtureGroup_invalidId /\
   fixtureGroups (m_doc editor0) !! fixtureGroup (matrix0 Loop Forward) = Some row /\
   algorithm (matrix0 Loop Forward) = Some Plain) /\
  exists sc sq,
    functions (m_doc (slotSaveToSequenceClicked (Some (matrix0 Loop Forward)) editor0).2)
    = [FScene sc; FSequence sq] /\
    length (steps sq) = 3%nat /\
    forall st, steps sq !! 0%nat = Some st ->
      ascending sample_lt (values st) /\
      Permutation
        [mkValue 7 0 255; mkValue 7 1 0; mkValue 7 2 0;
         mkValue 5 0 0; mkValue 5 1 0; mkValue 5 2 0; mkValue 5 3 0]
        (values st).
Proof.
  assert (H0 : StrictWeakOrder SceneValue_lt) by exact SampleRuns.sample_lt_swo.
  assert (H1 : fixtureGroup (matrix0 Loop Forward) <> FixtureGroup_invalidId)
    by (cbn; lia).
  assert (H2 : fixtureGroups (m_doc editor0) !! fixtureGroup (matrix0 Loop Forward)
               = Some row) by (vm_compute; reflexivity).
  assert (H3 : algorithm (matrix0 Loop Forward) = Some Plain) by reflexivity.
  split; [tauto |].
  destruct (exported_steps_sorted (matrix0 Loop Forward) editor0 row Plain H0 H1 H2 H3)
    as (sc & sq & Hf & Hl & _ & Hst).
  exists sc, sq. split; [exact Hf |].
  split; [rewrite Hl; vm_compute; reflexivity |].
  intros st Hk. destruct (Hst 0%nat st Hk) as (Ha & Hp).
  split; [exact Ha |]. vm_compute in Hp. exact Hp.
Defined.

End MoreSampleRuns.
